(** * VitaLink client core: hospital recommendation scorer and authenticated
      request client

    Shallow embedding of
    - [calculateDistance], [calculateTravelTime] and [findRecommendedHospital]
      of [frontend/app/(tabs)/explore.tsx], and
    - the axios instance [apiClient] with its request and response
      interceptors (the module [api/apiClient], lines 248-331 of
      [app/auth/login.tsx]).

    JavaScript numbers are IEEE 754 binary64 values: the primitive floats,
    with their rounding, their infinities and NaN.  The functions of [Math]
    that ECMAScript leaves to the engine are a parameter. *)

From Stdlib Require Import Reals Lra Lia ZArith List Sorted Permutation Floats.
From Stdlib Require Uint63.
From stdpp Require Import gmap strings pretty.
Import ListNotations.

(** ** The JavaScript prelude the scorer uses *)

Module JS.

(** The outcome of a call: it returns a value or it throws. *)
Inductive Completion (A : Type) : Type :=
| Return (v : A)
| Throw (name : string).
Arguments Return {A} v.
Arguments Throw {A} name.

Definition raises {A : Type} (name : string) (c : Completion A) : Prop :=
  c = Throw name.

(** A JavaScript [number]: a binary64 value.  [+], [-], [*], [/] and the
    comparisons are the IEEE operations, rounding to nearest, ties to
    even. *)
Abbreviation number := float (only parsing).

(** What ECMAScript leaves to the engine.  The sine, the cosine and the arc
    tangent are implementation-approximated, away from the arguments for
    which the standard fixes the result.  The order in which [sort] leaves an
    array whose comparator is not consistent is implementation-defined: it
    is some ordering of the same elements. *)
Record Engine : Type := {
  approx_sin : number -> number;
  approx_cos : number -> number;
  approx_atan2 : number -> number -> number;
  sort_order : forall A : Type, (A -> A -> number) -> list A -> list A;
  sort_order_permutes :
    forall (A : Type) (comparator : A -> A -> number) (items : list A),
      Permutation items (sort_order A comparator items)
}.

(** [Math.PI]: the binary64 value nearest to the number pi. *)
Definition Math_PI : number := 0x1.921fb54442d18p+1%float.

(** [Math.sqrt], computed by every engine with the IEEE operation: NaN
    below zero. *)
Definition Math_sqrt (x : number) : number := PrimFloat.sqrt x.

(** [Math.sin]: NaN and the zeros are returned as they are, an infinity
    gives NaN. *)
Definition Math_sin (engine : Engine) (x : number) : number :=
  if is_nan x || is_zero x then x
  else if is_infinity x then nan
  else approx_sin engine x.

(** [Math.cos]: NaN for NaN and the infinities, 1 for the zeros. *)
Definition Math_cos (engine : Engine) (x : number) : number :=
  if is_nan x || is_infinity x then nan
  else if is_zero x then 1%float
  else approx_cos engine x.

(** [Math.atan2(y, x)]: NaN when an argument is NaN; the zero [y] itself
    when [x] is above zero or is [+0]; a zero of the sign of [y] for a
    finite [y] and [x = +Infinity].  The other results are approximations of
    multiples of pi or of the arc tangent. *)
Definition Math_atan2 (engine : Engine) (y x : number) : number :=
  if is_nan y || is_nan x then nan
  else if is_zero y && ((0 <? x)%float || (is_zero x && negb (get_sign x)))
  then y
  else if negb (is_zero y) && is_finite y &&
          (is_infinity x && negb (get_sign x))
  then (if get_sign y then neg_zero else zero)
  else approx_atan2 engine y x.

(** [Math.round]: the integer nearest to [x], a tie going to the greater
    one; [-0] for [-0.5 <= x < 0]; [x] itself when it is an integer, an
    infinity or NaN.  For a number of significand [m] and exponent [e < 0]
    the integer is the floor of [(2m + 2^-e) / 2^(1-e)], below [2^53] in
    magnitude. *)
Definition Math_round (x : number) : number :=
  match Prim2SF x with
  | S754_finite s m e =>
      if (0 <=? e)%Z then x
      else
        let n := ((2 * cond_Zopp s (Z.pos m) + 2 ^ (- e)) / 2 ^ (1 - e))%Z in
        if (n =? 0)%Z then (if s then neg_zero else zero)
        else if (0 <? n)%Z then of_uint63 (Uint63.of_Z n)
        else (- of_uint63 (Uint63.of_Z (- n)))%float
  | _ => x
  end.

(** [SortCompare] of [Array.prototype.sort(comparefn)] (ECMAScript 2023,
    23.1.3.30): the answer of [comparefn], a NaN read as [+0]. *)
Definition SortCompare {A : Type} (comparefn : A -> A -> number)
    (x y : A) : number :=
  let v := comparefn x y in
  if is_nan v then zero else v.

(** A consistent comparator for the values [S] (23.1.3.30.1): no answer is
    NaN, [=] is reflexive and symmetric, and [=], [<] and [>] are
    transitive. *)
Section Consistent.

Context {A : Type} (comparator : A -> A -> number).

Definition lt_C (a b : A) : bool := (comparator a b <? 0)%float.
Definition eq_C (a b : A) : bool := (comparator a b =? 0)%float.
Definition gt_C (a b : A) : bool := (0 <? comparator a b)%float.

Definition consistent (S : list A) : bool :=
  forallb (fun a =>
    eq_C a a &&
    forallb (fun b =>
      negb (is_nan (comparator a b)) &&
      implb (eq_C a b) (eq_C b a) &&
      forallb (fun c =>
        implb (eq_C a b && eq_C b c) (eq_C a c) &&
        implb (lt_C a b && lt_C b c) (lt_C a c) &&
        implb (gt_C a b && gt_C b c) (gt_C a c)) S) S) S.

End Consistent.

(** The stable ascending order: [a] is moved behind [b] only when
    [comparator(a, b) > 0].  Insertion from the right computes it. *)
Fixpoint sort_insert {A : Type} (comparator : A -> A -> number)
    (a : A) (l : list A) : list A :=
  match l with
  | [] => [a]
  | b :: l' =>
      if gt_C comparator a b then b :: sort_insert comparator a l'
      else a :: b :: l'
  end.

(** [Array.prototype.sort(comparefn)].  When [SortCompare] is a consistent
    comparator for the elements, ECMAScript fixes the result: the elements
    in ascending order, those that compare equal in their order in the
    array.  Otherwise the order is the engine's. *)
Definition Array_sort {A : Type} (engine : Engine)
    (comparefn : A -> A -> number) (items : list A) : list A :=
  if consistent (SortCompare comparefn) items
  then fold_right (sort_insert (SortCompare comparefn)) [] items
  else sort_order engine A (SortCompare comparefn) items.

End JS.

(** ** Binary64 numbers as reals: the vocabulary of the properties *)

Module Binary64.

Definition bpow (e : Z) : R := powerRZ 2 e.

(** The place of a real [v] between the integers [m] and [m + 1], as
    [SpecFloat] records it. *)
Definition located (m : Z) (l : location) (v : R) : Prop :=
  match l with
  | loc_Exact => v = IZR m
  | loc_Inexact Lt => (IZR m < v < IZR m + / 2)%R
  | loc_Inexact Eq => v = (IZR m + / 2)%R
  | loc_Inexact Gt => (IZR m + / 2 < v < IZR m + 1)%R
  end.

Definition locates (mrs : shr_record) (v : R) : Prop :=
  (0 <= shr_m mrs)%Z /\ located (shr_m mrs) (loc_of_shr_record mrs) v.

(** The integer nearest to [v], a tie going to the even one. *)
Definition rne (v : R) : Z :=
  let f := Zfloor v in
  if Rlt_dec (v - IZR f) (/ 2) then f
  else if Rlt_dec (/ 2) (v - IZR f) then (f + 1)%Z
  else if Z.even f then f else (f + 1)%Z.

(** The exponent of the numbers of the binade [k]. *)
Definition cexp (k : Z) : Z := fexp prec emax k.

(** [k] is the binade of a positive real. *)
Definition mag_of (V : R) (k : Z) : Prop := (bpow (k - 1) <= V < bpow k)%R.

Definition mag (V : R) : Z := (Zfloor (ln V / ln 2) + 1)%Z.

(** The multiple of the unit in the last place of the binade nearest to
    [V]. *)
Definition rounding (V : R) (k : Z) : R :=
  (IZR (rne (V * bpow (- cexp k))) * bpow (cexp k))%R.

(** Rounding of a real to binary64, to nearest, ties to even; [bpow emax]
    stands for the overflow to an infinity. *)
Definition RN (V : R) : R :=
  if Rle_dec V 0 then 0%R else Rmin (rounding V (mag V)) (bpow emax).

(** What [binary_round_aux] makes of the rounded magnitude [R]. *)
Definition rounds_to (sx : bool) (R : R) (z : spec_float) : Prop :=
  match z with
  | S754_zero s => s = sx /\ R = 0%R
  | S754_finite s m e =>
      s = sx /\ (IZR (Z.pos m) * bpow e)%R = R /\ (R < bpow emax)%R
  | S754_infinity s => s = sx /\ (bpow emax <= R)%R
  | S754_nan => False
  end.

(** The real a binary64 number stands for; the infinities are put at
    [bpow emax] and its opposite, beyond every finite number. *)
Definition SF2R (x : spec_float) : R :=
  match x with
  | S754_finite s m e => (IZR (cond_Zopp s (Z.pos m)) * bpow e)%R
  | S754_infinity s => if s then (- bpow emax)%R else bpow emax
  | _ => 0%R
  end.

Definition is_number (x : spec_float) : Prop := x <> S754_nan.

Definition Rcmp (a b : R) : comparison :=
  if Rlt_dec a b then Lt else if Rlt_dec b a then Gt else Eq.

Definition value (x : float) : R := SF2R (Prim2SF x).

(** [x] is not NaN. *)
Definition number_ok (x : float) : Prop := is_number (Prim2SF x).

End Binary64.

(** ** Hospital recommendation scorer ([explore.tsx], lines 26-44, 114-191) *)

Module Scorer.
Import JS.

Record Hospital : Type := {
  id : number;
  hospital_name : string;
  address : string;
  phone_number : string;
  latitude : number;
  longitude : number;
  current_wait_time : number
}.

(** The fields are [latitude] and [longitude] in the source; here those
    are the names of the fields of [Hospital]. *)
Record UserLocation : Type := {
  user_latitude : number;
  user_longitude : number
}.

(** [HospitalWithScore extends Hospital]: the spread copy of the hospital
    with the two computed fields. *)
Record HospitalWithScore : Type := {
  hospital : Hospital;
  score : number;
  travel_time : number
}.

Section Engine.

Variable engine : Engine.

Local Open Scope float_scope.

(** The local [a] of [calculateDistance]. *)
Definition haversine_a (lat1 lon1 lat2 lon2 : number) : number :=
  let dLat := ((lat2 - lat1) * Math_PI) / 180 in
  let dLon := ((lon2 - lon1) * Math_PI) / 180 in
  Math_sin engine (dLat / 2) * Math_sin engine (dLat / 2) +
  Math_cos engine ((lat1 * Math_PI) / 180) *
    Math_cos engine ((lat2 * Math_PI) / 180) *
    Math_sin engine (dLon / 2) *
    Math_sin engine (dLon / 2).

Definition calculateDistance (lat1 lon1 lat2 lon2 : number) : number :=
  let R := 6371 in
  let a := haversine_a lat1 lon1 lat2 lon2 in
  let c := 2 * Math_atan2 engine (Math_sqrt a) (Math_sqrt (1 - a)) in
  R * c.

Definition calculateTravelTime (distanceKm : number) : number :=
  let averageSpeedKmh := 40 in
  Math_round ((distanceKm / averageSpeedKmh) * 60).

(** The callback of [hospitalList.map] (lines 157-178). *)
Definition withScore (userLoc : UserLocation) (h : Hospital)
    : HospitalWithScore :=
  let distance :=
    calculateDistance (user_latitude userLoc) (user_longitude userLoc)
      (latitude h) (longitude h) in
  let travel_time := calculateTravelTime distance in
  let score := travel_time + current_wait_time h in
  {| hospital := h; score := score; travel_time := travel_time |}.

(** The local array [hospitalsWithScores] after its in-place sort
    (lines 156-183): the ranking. *)
Definition hospitalsWithScores (hospitalList : list Hospital)
    (userLoc : UserLocation) : list HospitalWithScore :=
  Array_sort engine (fun a b => score a - score b)
    (map (withScore userLoc) hospitalList).

(** [null] is [None]; [userLoc] is tested for being missing although its
    type is [UserLocation], so it is an [option] here.  The array that is
    sorted is not empty, and [hospitalsWithScores[0]] is its first
    element. *)
Definition findRecommendedHospital (hospitalList : list Hospital)
    (userLoc : option UserLocation) : Completion (option HospitalWithScore) :=
  match userLoc, hospitalList with
  | None, _ => Return None
  | Some _, [] => Return None
  | Some userLoc, _ :: _ =>
      Return (head (hospitalsWithScores hospitalList userLoc))
  end.

End Engine.

(** *** Examples *)

Local Open Scope float_scope.

(** The sines, cosines and arc tangents of the examples: 8 degrees and 90
    degrees in radians, as [calculateDistance] computes them, and the
    correctly rounded values there, which glibc returns.  Elsewhere the sample says nothing,
    and it leaves an array as it is where ECMAScript leaves the order
    open. *)
Definition sample_engine : Engine :=
  {| approx_sin := fun x =>
       if x =? 0x1.1df46a2529d39p-3 then 0x1.1d06c968d9e19p-3
       else if x =? -0x1.1df46a2529d39p-3 then -0x1.1d06c968d9e19p-3
       else if x =? 0x1.921fb54442d18p+0 then 1
       else if x =? -0x1.921fb54442d18p+0 then -1
       else nan;
     approx_cos := fun x =>
       if abs x =? 0x1.1df46a2529d39p-3 then 0x1.fb046a930947ap-1
       else nan;
     approx_atan2 := fun y x =>
       if (y =? 0x1.1d06c968d9e19p-3) && (x =? 0x1.fb046a930947ap-1)
       then 0x1.1df46a2529d39p-3
       else nan;
     sort_order := fun A comparator items => items;
     sort_order_permutes := fun A comparator items => Permutation_refl items |}.

(** An engine that rounds correctly at the arguments of the examples. *)
Definition rounds_at_sample (engine : Engine) : Prop :=
  approx_sin engine 0x1.1df46a2529d39p-3 = 0x1.1d06c968d9e19p-3 /\
  approx_sin engine 0x1.921fb54442d18p+0 = 1 /\
  approx_cos engine 0x1.1df46a2529d39p-3 = 0x1.fb046a930947ap-1 /\
  approx_cos engine (-0x1.1df46a2529d39p-3) = 0x1.fb046a930947ap-1.

(** The user of the scenario of the specification, at (43.70, -79.42). *)
Definition scenario_user : UserLocation :=
  {| user_latitude := 0x1.5d9999999999ap+5;
     user_longitude := -0x1.3dae147ae147bp+6 |}.

(** A user at 8 degrees south, 90 degrees west; a hospital at the user's own
    position, one at the antipode, 8 degrees north, 90 degrees east, and one
    16 degrees to the north of the user. *)
Definition south : UserLocation :=
  {| user_latitude := -8; user_longitude := -90 |}.

Definition near (wait : number) : Hospital :=
  {| id := 1; hospital_name := "Near"; address := "1 Main Street";
     phone_number := "555-0101";
     latitude := -8; longitude := -90; current_wait_time := wait |}.

Definition far (wait : number) : Hospital :=
  {| id := 2; hospital_name := "Far"; address := "2 Long Road";
     phone_number := "555-0102";
     latitude := 8; longitude := 90; current_wait_time := wait |}.

Definition north (wait : number) : Hospital :=
  {| id := 3; hospital_name := "North"; address := "3 High Street";
     phone_number := "555-0103";
     latitude := 8; longitude := -90; current_wait_time := wait |}.

End Scorer.

(** ** Authenticated request client (the [apiClient] module)

    One request is followed from the call [apiClient(config)] to the
    settlement of its promise.  Every [await] on the credential store or on
    the network is an event of the trace, in program order. *)

Module Client.

Definition API_BASE_URL : string := "https://8b285d984713.ngrok-free.app/api/".
Definition refreshUrl : string := API_BASE_URL ++ "token/refresh/".

(** A JSON value as far as the client looks at it: a string or not. *)
Inductive Json : Type :=
| JString (s : string)
| JOther.

Inductive Method : Type := GET | POST | PUT | PATCH | DELETE.

(** The request configuration: [headers.Authorization] is the only header
    the client touches, [_retry] the flag the response interceptor adds. *)
Record Config : Type := {
  url : string;
  method : Method;
  data : gmap string Json;
  Authorization : option string;
  _retry : bool
}.

Record Response : Type := {
  status : Z;
  response_data : gmap string Json
}.

(** What a promise is rejected with: an axios error (its [config] and, when
    the server answered, its [response]), or the error
    [SecureStore.setItemAsync] throws for a value that is not a string. *)
Inductive Error : Type :=
| AxiosError (config : Config) (response : option Response)
| InvalidValue.

(** The global [axios] and the instance made by [axios.create]. *)
Inductive Instance : Type := axios | apiClient.

Inductive Event : Type :=
| GetItem (key : string)
| SetItem (key value : string)
| Http (via : Instance) (config : Config).

Record World : Type := {
  store : gmap string string;
  trace : list Event
}.

(** A promise: fulfilled, rejected, or never settled. *)
Inductive Settled (A : Type) : Type :=
| Fulfilled (v : A)
| Rejected (e : Error)
| Pending.
Arguments Fulfilled {A} v.
Arguments Rejected {A} e.
Arguments Pending {A}.

Definition Async (A : Type) : Type := World -> Settled A * World.

#[export] Instance Async_ret : MRet Async :=
  fun A v w => (Fulfilled v, w).

#[export] Instance Async_bind : MBind Async :=
  fun A B k m w =>
    match m w with
    | (Fulfilled v, w') => k v w'
    | (Rejected e, w') => (Rejected e, w')
    | (Pending, w') => (Pending, w')
    end.

Definition reject {A : Type} (e : Error) : Async A :=
  fun w => (Rejected e, w).

Definition try_catch {A : Type} (body : Async A) (handler : Error -> Async A)
    : Async A :=
  fun w =>
    match body w with
    | (Rejected e, w') => handler e w'
    | settled => settled
    end.

Definition log (e : Event) (w : World) : World :=
  {| store := store w; trace := trace w ++ [e] |}.

(** [expo-secure-store]: a read gives the stored string or [null]; a write
    throws unless the value is a string. *)
Definition getItemAsync (key : string) : Async (option string) :=
  fun w => (Fulfilled (store w !! key), log (GetItem key) w).

Definition setItemAsync (key : string) (value : option Json) : Async unit :=
  fun w =>
    match value with
    | Some (JString s) =>
        (Fulfilled tt,
         {| store := <[key := s]> (store w);
            trace := trace w ++ [SetItem key s] |})
    | _ => (Rejected InvalidValue, w)
    end.

(** A template literal's rendering of a destructured field. *)
Definition template (value : option Json) : string :=
  match value with
  | Some (JString s) => s
  | Some JOther => "[object Object]"
  | None => "undefined"
  end.

(** Truthiness of a [string | null]: a string that is not empty. *)
Definition truthy (v : option string) : bool :=
  match v with
  | Some (String _ _) => true
  | _ => false
  end.

(** The string a truthy [string | null] is. *)
Definition text (v : option string) : string :=
  match v with
  | Some s => s
  | None => "null"
  end.

Definition is_http (e : Event) : bool :=
  match e with
  | Http _ _ => true
  | _ => false
  end.

(** The requests put on the wire so far: what the remote side has seen. *)
Definition wire (t : list Event) : list Event := List.filter is_http t.

Definition validateStatus (s : Z) : bool := (200 <=? s)%Z && (s <? 300)%Z.

Definition with_Authorization (header : string) (c : Config) : Config :=
  {| url := url c; method := method c; data := data c;
     Authorization := Some header; _retry := _retry c |}.

Definition with_retry (c : Config) : Config :=
  {| url := url c; method := method c; data := data c;
     Authorization := Authorization c; _retry := true |}.

(** [axios.post(url, data)] on an instance: the configuration it builds. *)
Definition post_config (u : string) (d : gmap string Json) : Config :=
  {| url := u; method := POST; data := d;
     Authorization := None; _retry := false |}.

(** How axios settles a request on its answer: fulfilled when
    [validateStatus] accepts the status, rejected with an [AxiosError]
    otherwise. *)
Definition settle (config : Config) (answer : option Response)
    : Settled Response :=
  match answer with
  | Some r =>
      if validateStatus (status r) then Fulfilled r
      else Rejected (AxiosError config (Some r))
  | None => Rejected (AxiosError config None)
  end.

Section Network.

(** The remote side and the network: the answer to a request, given the
    requests sent before it; [None] is no answer (a network error or the
    10 second timeout). *)
Variable network : list Event -> Instance -> Config -> option Response.

(** The transport: the request goes on the wire and axios settles the
    promise on the answer. *)
Definition adapter (inst : Instance) (config : Config) : Async Response :=
  fun w =>
    (settle config (network (wire (trace w)) inst config),
     log (Http inst config) w).

(** [apiClient.interceptors.request.use] (lines 266-283). *)
Definition requestInterceptor (config : Config) : Async Config :=
  accessToken ← getItemAsync "accessToken";
  if truthy accessToken
  then mret (with_Authorization ("Bearer " ++ text accessToken) config)
  else mret config.

(** [apiClient.interceptors.response.use], the rejection handler
    (lines 288-328).  [self] is the axios request function, which the
    handler calls on the global [axios] for the refresh and on [apiClient]
    for the retry.  [originalRequest] is [error.config] itself, so the flag
    set on it is seen in the error that is rejected.  The promise of the
    retry is returned without [await]: its rejection is not for the [catch],
    which would reject with the same error. *)
Definition responseRejected (self : Instance -> Config -> Async Response)
    (error : Error) : Async Response :=
  match error with
  | AxiosError originalRequest (Some r) =>
      if (status r =? 401)%Z && negb (_retry originalRequest) then
        let originalRequest := with_retry originalRequest in
        let error := AxiosError originalRequest (Some r) in
        try_catch
          (refreshToken ← getItemAsync "refreshToken";
           if negb (truthy refreshToken) then reject error
           else
             response ← self axios
               (post_config refreshUrl
                  {[ "refresh" := JString (text refreshToken) ]});
             let newAccessToken := response_data response !! "access" in
             let newRefreshToken := response_data response !! "refresh" in
             _ ← setItemAsync "accessToken" newAccessToken;
             _ ← setItemAsync "refreshToken" newRefreshToken;
             self apiClient
               (with_Authorization ("Bearer " ++ template newAccessToken)
                  originalRequest))
          (fun refreshError => reject refreshError)
      else reject error
  | _ => reject error
  end.

(** The interceptors registered on each instance: none on [axios]. *)
Definition interceptors_request (inst : Instance) : Config -> Async Config :=
  match inst with
  | apiClient => requestInterceptor
  | axios => mret
  end.

Definition interceptors_response (self : Instance -> Config -> Async Response)
    (inst : Instance) : Error -> Async Response :=
  match inst with
  | apiClient => responseRejected self
  | axios => reject
  end.

(** One pass of [Axios.prototype.request]: request interceptors, transport,
    response interceptors (the fulfilment handler is the identity). *)
Definition request_with (self : Instance -> Config -> Async Response)
    (inst : Instance) (config : Config) : Async Response :=
  config ← interceptors_request inst config;
  try_catch (adapter inst config) (interceptors_response self inst).

(** The request function, its recursion through the response interceptor
    bounded by [fuel]; out of fuel the promise stays pending. *)
Fixpoint request (fuel : nat) (inst : Instance) (config : Config)
    : Async Response :=
  match fuel with
  | O => fun w => (Pending, w)
  | S fuel => request_with (request fuel) inst config
  end.

End Network.

(** *** Vocabulary of the properties *)

#[export] Instance Method_eq_dec : EqDecision Method.
Proof. solve_decision. Defined.

#[export] Instance Json_eq_dec : EqDecision Json.
Proof. solve_decision. Defined.

(** The configuration as the request interceptor leaves it, for a store. *)
Definition authorized (s : gmap string string) (config : Config) : Config :=
  if truthy (s !! "accessToken")
  then with_Authorization ("Bearer " ++ text (s !! "accessToken")) config
  else config.

(** The refresh request the response interceptor builds, for a store. *)
Definition refresh_post (s : gmap string string) : Config :=
  post_config refreshUrl {[ "refresh" := JString (text (s !! "refreshToken")) ]}.

(** The events of a run that took the world from [w] to [w']. *)
Definition new_events (w w' : World) : list Event :=
  drop (length (trace w)) (trace w').

(** A call to the token-refresh endpoint: a POST of the global [axios] to
    [refreshUrl]. *)
Definition is_refresh_post (e : Event) : bool :=
  match e with
  | Http axios c => bool_decide (url c = refreshUrl) && bool_decide (method c = POST)
  | _ => false
  end.

Definition refresh_posts (t : list Event) : nat :=
  length (List.filter is_refresh_post t).

(** A call of [apiClient] to the endpoint of [config]: its path and method. *)
Definition is_send_of (config : Config) (e : Event) : bool :=
  match e with
  | Http apiClient c =>
      bool_decide (url c = url config) && bool_decide (method c = method config)
  | _ => false
  end.

Definition sends_of (config : Config) (t : list Event) : nat :=
  length (List.filter (is_send_of config) t).

(** The store after the writes of a trace: what a reader scheduled at that
    point of the run finds. *)
Definition apply_event (s : gmap string string) (e : Event)
    : gmap string string :=
  match e with
  | SetItem key value => <[key := value]> s
  | _ => s
  end.

Definition replay (s : gmap string string) (t : list Event)
    : gmap string string :=
  fold_left apply_event t s.

(** The credential pair of a store. *)
Definition credentials (s : gmap string string) : option string * option string :=
  (s !! "accessToken", s !! "refreshToken").

(** A run updates the pair atomically when every point of it shows the pair
    it started with or the pair it ends with. *)
Definition atomic_pair_update (s : gmap string string) (t : list Event) : Prop :=
  forall n : nat,
    credentials (replay s (take n t)) = credentials s \/
    credentials (replay s (take n t)) = credentials (replay s t).

(** The failure the specification calls [Unauthenticated]: the promise is
    rejected with the error of a 401 answer. *)
Definition Unauthenticated (p : Settled Response) : Prop :=
  exists config r, p = Rejected (AxiosError config (Some r)) /\ status r = 401%Z.

(** *** Example servers *)

Definition answer (s : Z) (d : gmap string Json) : option Response :=
  Some {| status := s; response_data := d |}.

(** A server on which the access token [A1] has expired: it exchanges the
    refresh token [R1] for the pair [A2], [R2] and serves requests that carry
    [Bearer A2]. *)
Definition token_server (history : list Event) (inst : Instance) (c : Config)
    : option Response :=
  if bool_decide (url c = refreshUrl) then
    if bool_decide (data c !! "refresh" = Some (JString "R1"))
    then answer 200 {[ "access" := JString "A2"; "refresh" := JString "R2" ]}
    else answer 401 ∅
  else if bool_decide (Authorization c = Some "Bearer A2")
  then answer 200 {[ "hospitals" := JOther ]}
  else answer 401 ∅.

(** A server that refreshes tokens and rejects every other request. *)
Definition rejecting_server (history : list Event) (inst : Instance)
    (c : Config) : option Response :=
  if bool_decide (url c = refreshUrl)
  then answer 200 {[ "access" := JString "A2"; "refresh" := JString "R2" ]}
  else answer 401 ∅.

(** A server whose refresh answer carries a new access token only. *)
Definition access_only_server (history : list Event) (inst : Instance)
    (c : Config) : option Response :=
  if bool_decide (url c = refreshUrl)
  then answer 200 {[ "access" := JString "A2" ]}
  else if bool_decide (Authorization c = Some "Bearer A2")
  then answer 200 {[ "hospitals" := JOther ]}
  else answer 401 ∅.

(** A server on which the refresh token has expired as well. *)
Definition expired_server (history : list Event) (inst : Instance)
    (c : Config) : option Response :=
  answer 401 ∅.

Definition get_hospitals : Config :=
  {| url := "/hospitals/"; method := GET; data := ∅;
     Authorization := None; _retry := false |}.

Definition logged_in : World :=
  {| store := {[ "accessToken" := "A1"; "refreshToken" := "R1" ]};
     trace := [] |}.

Definition no_refresh_token : World :=
  {| store := {[ "accessToken" := "A1" ]}; trace := [] |}.

End Client.

(** ** Strings of the screens

    A character of a model string is a UTF-16 code unit below 256. *)

Module Text.

(** [WhiteSpace] and [LineTerminator] below 256: what [trim] strips and
    what [\s] matches. *)
Definition is_space (c : Ascii.ascii) : bool :=
  match Ascii.N_of_ascii c with
  | 9 | 10 | 11 | 12 | 13 | 32 | 160 => true
  | _ => false
  end%N.

(** [\d]. *)
Definition is_digit (c : Ascii.ascii) : bool :=
  (48 <=? Ascii.N_of_ascii c)%N && (Ascii.N_of_ascii c <=? 57)%N.

Definition is_empty (s : string) : bool :=
  match s with
  | EmptyString => true
  | String _ _ => false
  end.

Fixpoint trimStart (s : string) : string :=
  match s with
  | EmptyString => EmptyString
  | String c s' => if is_space c then trimStart s' else s
  end.

Fixpoint trimEnd (s : string) : string :=
  match s with
  | EmptyString => EmptyString
  | String c s' =>
      if is_space c && is_empty (trimEnd s') then EmptyString
      else String c (trimEnd s')
  end.

(** [String.prototype.trim]. *)
Definition trim (s : string) : string := trimEnd (trimStart s).

(** Every character of [s] is white space. *)
Fixpoint blank (s : string) : bool :=
  match s with
  | EmptyString => true
  | String c s' => is_space c && blank s'
  end.

(** [s.replace(/[^\d]/g, "")]: the digits of [s]. *)
Fixpoint digits (s : string) : string :=
  match s with
  | EmptyString => EmptyString
  | String c s' => if is_digit c then String c (digits s') else digits s'
  end.

(** A character of a printed integer: a digit or the minus sign. *)
Definition is_sign_or_digit (c : Ascii.ascii) : bool :=
  is_digit c || (Ascii.N_of_ascii c =? 45)%N.

Fixpoint all_digits (s : string) : bool :=
  match s with
  | EmptyString => true
  | String c s' => is_digit c && all_digits s'
  end.

(** The longest prefix of [s] whose characters satisfy [p], and the rest. *)
Fixpoint span (p : Ascii.ascii -> bool) (s : string) : string * string :=
  match s with
  | EmptyString => (EmptyString, EmptyString)
  | String c s' =>
      if p c then (String c (span p s').1, (span p s').2)
      else (EmptyString, s)
  end.

(** [s.includes(sub)]. *)
Fixpoint includes (s sub : string) : bool :=
  String.prefix sub s ||
  match s with
  | EmptyString => false
  | String _ s' => includes s' sub
  end.

End Text.

(** ** Display helpers of the map screen ([explore.tsx], lines 528-545)

    [formatWaitTime] is also in [recommendation.tsx] and
    [emergency-dispatch.tsx], word for word.  Its argument is a whole number
    of minutes below [2^53] in magnitude, one of the integers that binary64
    holds exactly: there [minutes < 60], [Math.floor(minutes / 60)] and
    [minutes % 60] are the comparison, the quotient and the remainder of
    integers, and the number prints in full.  The properties of
    [formatWaitTime] carry this bound. *)

Module Display.
Import Text.

Definition formatWaitTime (minutes : Z) : string :=
  if (minutes <? 60)%Z then pretty minutes +:+ " min"
  else
    let hours := (minutes / 60)%Z in
    let remainingMinutes := Z.rem minutes 60 in
    if (0 <? remainingMinutes)%Z
    then pretty hours +:+ "h " +:+ pretty remainingMinutes +:+ "m"
    else pretty hours +:+ "h".

(** The URL handed to [Linking.openURL], [None] when the number is skipped. *)
Definition callEmergencyNumber (number : string) : option string :=
  if includes number "Text" then None
  else Some ("tel:" +:+ digits number).

End Display.

(** ** The session: sign in, sign out, start of the app

    [handleLogin] of [app/auth/login.tsx] (lines 24-57), [handleLogout] of
    the profile screen ([frontend/app/(tabs)/explore.tsx], lines 1753-1774;
    [frontend/app/(hospital)/profile.tsx] has the same handler, and
    [frontend/app/hospital/dashboard.tsx] its "Sign Out" branch without the
    dialog) and [checkAuthStatus] of [frontend/app/index.tsx].  The spinner
    flag [isLoading] is left out. *)

Module Session.
Import Text Client.

(** What the user is shown: an alert, or the screen [router.replace] puts
    in place. *)
Inductive Ui : Type :=
| Alert (title message : string)
| Replace (href : string).

(** [SecureStore.deleteItemAsync]; the trace keeps reads, writes and
    requests only. *)
Definition deleteItemAsync (key : string) : Async unit :=
  fun w => (Fulfilled tt, {| store := delete key (store w); trace := trace w |}).

Definition login_body (username password : string) : gmap string Json :=
  {[ "username" := JString username; "password" := JString password ]}.

Section Network.
Variable network : list Event -> Instance -> Config -> option Response.
Variable fuel : nat.

Definition handleLogin (username password : string) : Async Ui :=
  if is_empty (trim username) || is_empty (trim password)
  then mret (Alert "Error" "Please fill in all fields")
  else
    try_catch
      (response ← request network fuel apiClient
                    (post_config "/token/" (login_body username password));
       _ ← setItemAsync "accessToken" (response_data response !! "access");
       _ ← setItemAsync "refreshToken" (response_data response !! "refresh");
       mret (Replace "/(tabs)"))
      (fun error =>
         mret (Alert "Login Failed"
                 "Invalid username or password. Please try again.")).

End Network.

(** The confirmation dialog of [handleLogout]: "Cancel" has no handler,
    "Sign Out" runs the deletion. *)
Definition handleLogout (signOut : bool) : Async (option Ui) :=
  if signOut then
    try_catch
      (_ ← deleteItemAsync "accessToken";
       _ ← deleteItemAsync "refreshToken";
       mret (Some (Replace "/auth/login")))
      (fun error => mret (Some (Replace "/auth/login")))
  else mret None.

Definition checkAuthStatus : Async Ui :=
  try_catch
    (token ← getItemAsync "accessToken";
     if truthy token then mret (Replace "/(tabs)")
     else mret (Replace "/auth/login"))
    (fun error => mret (Replace "/auth/login")).

(** A sign-in endpoint that knows one password, and a phone on which
    nobody is signed in. *)
Definition login_server (history : list Event) (inst : Instance) (c : Config)
    : option Response :=
  if bool_decide (data c !! "password" = Some (JString "secret"))
  then answer 200 {[ "access" := JString "A1"; "refresh" := JString "R1" ]}
  else answer 401 ∅.

Definition signed_out : World := {| store := ∅; trace := [] |}.

End Session.

(** ** Regular expressions of the forms

    The patterns of the registration screens are anchored sequences of
    quantified character classes, [^ c1{l1,m1} ... cn{ln,mn} $].  [test]
    tells whether some way of sharing the string out among the classes
    exists, which is what [RegExp.prototype.test] answers. *)

Module RegExp.
Import Text.

Record Item : Type := {
  class : Ascii.ascii -> bool;
  least : nat;
  most : option nat
}.

Definition one (p : Ascii.ascii -> bool) : Item :=
  {| class := p; least := 1; most := Some 1 |}.
Definition optional (p : Ascii.ascii -> bool) : Item :=
  {| class := p; least := 0; most := Some 1 |}.
Definition plus (p : Ascii.ascii -> bool) : Item :=
  {| class := p; least := 1; most := None |}.
Definition between (l m : nat) (p : Ascii.ascii -> bool) : Item :=
  {| class := p; least := l; most := Some m |}.
Definition exactly (n : nat) (p : Ascii.ascii -> bool) : Item :=
  between n n p.

(** The character with code [n]. *)
Definition is_char (n : N) (c : Ascii.ascii) : bool :=
  (Ascii.N_of_ascii c =? n)%N.

Definition more_allowed (i : Item) (n : nat) : bool :=
  match most i with
  | Some m => n <? m
  | None => true
  end.

(** [n] characters are taken by [i] already; [k] matches what follows. *)
Fixpoint repeat (i : Item) (k : string -> bool) (n : nat) (s : string)
    : bool :=
  (least i <=? n) && k s ||
  match s with
  | EmptyString => false
  | String c s' => more_allowed i n && class i c && repeat i k (S n) s'
  end.

Fixpoint test (r : list Item) (s : string) : bool :=
  match r with
  | [] => is_empty s
  | i :: r' => repeat i (test r') 0 s
  end.

(** [s.replace(/[p]/g, "")]. *)
Fixpoint remove (p : Ascii.ascii -> bool) (s : string) : string :=
  match s with
  | EmptyString => EmptyString
  | String c s' => if p c then remove p s' else String c (remove p s')
  end.

Fixpoint all (p : Ascii.ascii -> bool) (s : string) : bool :=
  match s with
  | EmptyString => true
  | String c s' => p c && all p s'
  end.

(** The strings an item can take. *)
Definition within (i : Item) (a : string) : Prop :=
  all (class i) a = true /\ least i <= String.length a /\
  match most i with
  | Some m => String.length a <= m
  | None => True
  end.

End RegExp.

(** ** The registration forms

    [validateForm] of [app/auth/register.tsx] (lines 36-67),
    [validatePatientForm] and [validateHospitalForm] of
    [frontend/app/auth/register.tsx] (lines 80-167). *)

Module Registration.
Import Text RegExp.

(** What a validation does: [return true], or an alert and
    [return false]. *)
Inductive Validation : Type :=
| Valid
| Invalid (title message : string).

(** [[^\s@]]; 64 is the at sign. *)
Definition not_space_at (c : Ascii.ascii) : bool :=
  negb (is_space c || is_char 64 c).

(** [/^[^\s@]+@[^\s@]+\.[^\s@]+$/]; 46 is the full stop. *)
Definition emailRegex : list Item :=
  [plus not_space_at; one (is_char 64); plus not_space_at;
   one (is_char 46); plus not_space_at].

(** [/^\d{4}-\d{2}-\d{2}$/]; 45 is the hyphen. *)
Definition dateRegex : list Item :=
  [exactly 4 is_digit; one (is_char 45); exactly 2 is_digit;
   one (is_char 45); exactly 2 is_digit].

(** [[1-9]]. *)
Definition is_digit_1_9 (c : Ascii.ascii) : bool :=
  (49 <=? Ascii.N_of_ascii c)%N && (Ascii.N_of_ascii c <=? 57)%N.

(** [/^[\+]?[1-9][\d]{0,15}$/]; 43 is the plus sign. *)
Definition phoneRegex : list Item :=
  [optional (is_char 43); one is_digit_1_9; between 0 15 is_digit].

(** [[\s\-\(\)]]; 40 and 41 are the round brackets. *)
Definition is_separator (c : Ascii.ascii) : bool :=
  is_space c || is_char 45 c || is_char 40 c || is_char 41 c.

Module PatientForm.

Record PatientFormData : Type := {
  username : string;
  email : string;
  password : string;
  confirmPassword : string;
  dateOfBirth : string
}.

Definition validateForm (formData : PatientFormData) : Validation :=
  if is_empty (trim (username formData)) ||
     is_empty (trim (email formData)) ||
     is_empty (trim (password formData)) ||
     is_empty (trim (dateOfBirth formData))
  then Invalid "Error" "Please fill in all required fields"
  else if negb (String.eqb (password formData) (confirmPassword formData))
  then Invalid "Error" "Passwords do not match"
  else if String.length (password formData) <? 6
  then Invalid "Error" "Password must be at least 6 characters long"
  else if negb (test emailRegex (email formData))
  then Invalid "Error" "Please enter a valid email address"
  else Valid.

Definition validatePatientForm (patientData : PatientFormData) : Validation :=
  if is_empty (trim (username patientData)) ||
     is_empty (trim (email patientData)) ||
     is_empty (trim (password patientData)) ||
     is_empty (trim (dateOfBirth patientData))
  then Invalid "Error" "Please fill in all required fields"
  else if negb (String.eqb (password patientData) (confirmPassword patientData))
  then Invalid "Error" "Passwords do not match"
  else if String.length (password patientData) <? 6
  then Invalid "Error" "Password must be at least 6 characters long"
  else if negb (test emailRegex (email patientData))
  then Invalid "Error" "Please enter a valid email address"
  else if negb (test dateRegex (dateOfBirth patientData))
  then Invalid "Error" "Please enter date in YYYY-MM-DD format"
  else Valid.

End PatientForm.

Module HospitalForm.

Record HospitalFormData : Type := {
  username : string;
  email : string;
  password : string;
  confirmPassword : string;
  hospital_name : string;
  address : string;
  phone_number : string
}.

Definition validateHospitalForm (hospitalData : HospitalFormData)
    : Validation :=
  if is_empty (trim (username hospitalData)) ||
     is_empty (trim (email hospitalData)) ||
     is_empty (trim (password hospitalData)) ||
     is_empty (trim (hospital_name hospitalData)) ||
     is_empty (trim (address hospitalData)) ||
     is_empty (trim (phone_number hospitalData))
  then Invalid "Error" "Please fill in all required fields"
  else if negb (String.eqb (password hospitalData) (confirmPassword hospitalData))
  then Invalid "Error" "Passwords do not match"
  else if String.length (password hospitalData) <? 6
  then Invalid "Error" "Password must be at least 6 characters long"
  else if negb (test emailRegex (email hospitalData))
  then Invalid "Error" "Please enter a valid email address"
  else if negb (test phoneRegex
                  (remove is_separator (phone_number hospitalData)))
  then Invalid "Error" "Please enter a valid phone number"
  else Valid.

End HospitalForm.

(** *** Vocabulary of the properties *)

(** A part of an address: not empty, without white space and at sign. *)
Definition plain (s : string) : Prop :=
  is_empty s = false /\ all not_space_at s = true.

Definition email_shape (s : string) : Prop :=
  exists a b c : string,
    s = a +:+ "@" +:+ b +:+ "." +:+ c /\ plain a /\ plain b /\ plain c.

Definition numeral (n : nat) (s : string) : Prop :=
  String.length s = n /\ all is_digit s = true.

Definition date_shape (s : string) : Prop :=
  exists y m d : string,
    s = y +:+ "-" +:+ m +:+ "-" +:+ d /\
    numeral 4 y /\ numeral 2 m /\ numeral 2 d.

(** A phone number as written: separators anywhere, at most one plus sign
    before the first digit, and one to sixteen digits, the first not 0. *)
Definition phone_shape (s : string) : Prop :=
  exists (c : Ascii.ascii) (t : string),
    (remove is_separator s = String c t \/
     remove is_separator s = "+" +:+ String c t) /\
    digits s = String c t /\
    is_digit_1_9 c = true /\ all is_digit t = true /\ String.length t <= 15.

Definition filled (s : string) : Prop := blank s = false.

End Registration.

(** * Properties *)

(** ** Binary64 arithmetic

    The operations of [SpecFloat], which specify the primitive floats,
    round to nearest: what is needed of that for the scorer. *)

Section Powers.
Import JS Binary64.
Local Open Scope R_scope.

Lemma bpow_gt_0 (e : Z) : 0 < bpow e.
Proof. apply powerRZ_lt. lra. Qed.

Lemma bpow_plus (a b : Z) : bpow (a + b) = bpow a * bpow b.
Proof. apply powerRZ_add. lra. Qed.

Lemma bpow_opp (a : Z) : bpow (- a) = / bpow a.
Proof. apply powerRZ_neg'. Qed.

Lemma bpow_0 : bpow 0 = 1.
Proof. reflexivity. Qed.

Lemma bpow_1 : bpow 1 = 2.
Proof. unfold bpow. simpl. lra. Qed.

Lemma bpow_IZR (n : Z) : (0 <= n)%Z -> bpow n = IZR (2 ^ n).
Proof.
  intros Hn. unfold bpow. destruct n as [|p|p]; [reflexivity| |lia].
  rewrite <- Z.pow_pos_fold. rewrite Zpower_pos_powerRZ. reflexivity.
Qed.

Lemma bpow_le (a b : Z) : (a <= b)%Z -> bpow a <= bpow b.
Proof.
  intros H. replace b with (a + (b - a))%Z by lia. rewrite bpow_plus.
  assert (1 <= bpow (b - a)).
  { rewrite bpow_IZR by lia. apply IZR_le.
    pose proof (Z.pow_pos_nonneg 2 (b - a)). lia. }
  pose proof (bpow_gt_0 a). nra.
Qed.

Lemma bpow_lt (a b : Z) : (a < b)%Z -> bpow a < bpow b.
Proof.
  intros H. replace b with (a + (b - a))%Z by lia. rewrite bpow_plus.
  assert (2 <= bpow (b - a)).
  { rewrite bpow_IZR by lia. apply IZR_le.
    replace (b - a)%Z with (Z.succ (b - a - 1)) by lia.
    rewrite Z.pow_succ_r by lia.
    pose proof (Z.pow_pos_nonneg 2 (b - a - 1)). lia. }
  pose proof (bpow_gt_0 a). nra.
Qed.

Lemma bpow_lt_inv (a b : Z) : bpow a < bpow b -> (a < b)%Z.
Proof.
  intros H. destruct (Z_lt_le_dec a b) as [|Hle]; [assumption|].
  apply bpow_le in Hle. lra.
Qed.

Lemma bpow_succ (a : Z) : bpow (a + 1) = 2 * bpow a.
Proof. rewrite bpow_plus, bpow_1. lra. Qed.

End Powers.

Section Digits.
Import JS Binary64.

Lemma digits2_size (p : positive) : digits2_pos p = Pos.size p.
Proof. induction p; simpl; congruence. Qed.

Lemma digits2_bounds (p : positive) :
  (2 ^ (Z.pos (digits2_pos p) - 1) <= Z.pos p < 2 ^ Z.pos (digits2_pos p))%Z.
Proof.
  rewrite digits2_size. split.
  - pose proof (Pos.size_le p) as H.
    assert (H' : (2 ^ Z.pos (Pos.size p) <= 2 * Z.pos p)%Z).
    { rewrite <- Pos2Z.inj_pow. change (2 * Z.pos p)%Z with (Z.pos p~0). lia. }
    replace (Z.pos (Pos.size p)) with (Z.succ (Z.pos (Pos.size p) - 1)) in H' by lia.
    rewrite Z.pow_succ_r in H' by lia. lia.
  - pose proof (Pos.size_gt p) as H. rewrite <- Pos2Z.inj_pow. lia.
Qed.

Lemma Zdigits2_bounds (m : Z) :
  (0 < m)%Z -> (2 ^ (Zdigits2 m - 1) <= m < 2 ^ Zdigits2 m)%Z.
Proof. destruct m; try lia. intros _. apply digits2_bounds. Qed.

Lemma Zdigits2_pos (m : Z) : (0 < m)%Z -> (0 < Zdigits2 m)%Z.
Proof. destruct m; simpl; lia. Qed.

(** The number of digits is fixed by the binade. *)
Lemma Zdigits2_unique (m d : Z) :
  (0 < m)%Z -> (2 ^ (d - 1) <= m < 2 ^ d)%Z -> Zdigits2 m = d.
Proof.
  intros Hm [Hlo Hhi]. pose proof (Zdigits2_bounds m Hm) as [Hlo' Hhi'].
  pose proof (Zdigits2_pos m Hm).
  assert (0 < d)%Z.
  { destruct (Z_lt_le_dec 0 d); [assumption|].
    assert (2 ^ d <= 1)%Z; [|lia].
    destruct (Z.eq_dec d 0%Z) as [->|]; [simpl; lia|].
    rewrite Z.pow_neg_r by lia. lia. }
  destruct (Z.lt_trichotomy (Zdigits2 m) d) as [Hlt|[Heq|Hgt]]; [|assumption|].
  - assert (2 ^ Zdigits2 m <= 2 ^ (d - 1))%Z by (apply Z.pow_le_mono_r; lia). lia.
  - assert (2 ^ d <= 2 ^ (Zdigits2 m - 1))%Z by (apply Z.pow_le_mono_r; lia). lia.
Qed.

End Digits.

Section Nearest.
Import JS Binary64.
Local Open Scope R_scope.

Lemma located_floor (m : Z) (l : location) (v : R) :
  located m l v -> Zfloor v = m.
Proof.
  intros H. apply Zfloor_eq.
  destruct l as [|[]]; cbn in H; lra.
Qed.

Lemma round_nearest_even_rne (m : Z) (l : location) (v : R) :
  located m l v -> round_nearest_even m l = rne v.
Proof.
  intros H. unfold rne. rewrite (located_floor m l v H).
  destruct l as [|[]]; cbn in H; cbn [round_nearest_even].
  - subst v. destruct (Rlt_dec _ _); [reflexivity | lra].
  - subst v. destruct (Rlt_dec _ _); [lra|].
    destruct (Rlt_dec _ _); [lra | reflexivity].
  - destruct (Rlt_dec _ _); [reflexivity | lra].
  - destruct (Rlt_dec _ _); [lra|].
    destruct (Rlt_dec _ _); [reflexivity | lra].
Qed.

Lemma rne_bounds (v : R) : IZR (rne v) - / 2 <= v <= IZR (rne v) + / 2.
Proof.
  unfold rne. pose proof (Zfloor_bound v).
  destruct (Rlt_dec _ _); [lra|].
  destruct (Rlt_dec _ _); [rewrite plus_IZR; lra|].
  destruct (Z.even _); [lra | rewrite plus_IZR; lra].
Qed.

Lemma rne_IZR (n : Z) : rne (IZR n) = n.
Proof.
  unfold rne. rewrite ZfloorZ.
  destruct (Rlt_dec _ _); [reflexivity | lra].
Qed.

Lemma rne_ge (n : Z) (v : R) : IZR n <= v -> (n <= rne v)%Z.
Proof.
  intros H. unfold rne. pose proof (Zfloor_lub n v H).
  destruct (Rlt_dec _ _); [assumption|].
  destruct (Rlt_dec _ _); [lia|].
  destruct (Z.even _); lia.
Qed.

Lemma rne_le (n : Z) (v : R) : v <= IZR n -> (rne v <= n)%Z.
Proof.
  intros H. unfold rne. pose proof (Zfloor_bound v) as [Hlo Hhi].
  assert (Hf : (Zfloor v <= n)%Z) by (apply le_IZR; lra).
  destruct (Z.eq_dec (Zfloor v) n) as [E|].
  - rewrite E in *. assert (v = IZR n) by lra. subst v.
    destruct (Rlt_dec _ _); [lia | lra].
  - destruct (Rlt_dec _ _); [lia|].
    destruct (Rlt_dec _ _); [lia|].
    destruct (Z.even _); lia.
Qed.

Lemma rne_monotone (x y : R) : x <= y -> (rne x <= rne y)%Z.
Proof.
  intros H.
  pose proof (Zfloor_le x y H) as Hf.
  destruct (Z.eq_dec (Zfloor x) (Zfloor y)) as [E|N].
  - unfold rne. rewrite E.
    destruct (Rlt_dec (x - _) _), (Rlt_dec (y - _) _); try lia.
    + destruct (Rlt_dec _ _); [lia|]. destruct (Z.even _); lia.
    + lra.
    + destruct (Rlt_dec (/ 2) (x - _)), (Rlt_dec (/ 2) (y - _)); try lia.
      * lra.
      * destruct (Z.even _); lia.
  - apply Z.le_trans with (Zfloor x + 1)%Z.
    + unfold rne. destruct (Rlt_dec _ _); [lia|].
      destruct (Rlt_dec _ _); [lia|]. destruct (Z.even _); lia.
    + apply Z.le_trans with (Zfloor y); [lia|].
      apply rne_ge. apply Zfloor_bound.
Qed.

End Nearest.

Section Shift.
Import JS Binary64.
Local Open Scope R_scope.

Lemma locates_of_loc (m : Z) (l : location) (v : R) :
  (0 <= m)%Z -> located m l v -> locates (shr_record_of_loc m l) v.
Proof.
  intros Hm H. split; destruct l as [|[]]; cbn; assumption.
Qed.

Lemma IZR_pos_xO (p : positive) : IZR (Z.pos p~0) = 2 * IZR (Z.pos p).
Proof. rewrite Pos2Z.inj_xO, mult_IZR. reflexivity. Qed.

Lemma IZR_pos_xI (p : positive) : IZR (Z.pos p~1) = 2 * IZR (Z.pos p) + 1.
Proof. rewrite Pos2Z.inj_xI, plus_IZR, mult_IZR. reflexivity. Qed.

Lemma shr_1_locates (mrs : shr_record) (v : R) :
  locates mrs v -> locates (shr_1 mrs) (v / 2).
Proof.
  destruct mrs as [m r s]. unfold locates. cbn [shr_m]. intros [Hm H].
  destruct m as [|p|p]; [| |lia].
  - destruct r, s; cbn in *; split; try lia; lra.
  - destruct p as [p|p|].
    + destruct r, s; cbn in H |- *; rewrite IZR_pos_xI in H;
        split; try lia; lra.
    + destruct r, s; cbn in H |- *; rewrite IZR_pos_xO in H;
        split; try lia; lra.
    + destruct r, s; cbn in *; split; try lia; lra.
Qed.

Lemma iter_pos_nat {A : Type} (f : A -> A) (p : positive) (x : A) :
  SpecFloat.iter_pos f p x = Nat.iter (Pos.to_nat p) f x.
Proof.
  revert x. induction p as [p IH|p IH|]; intros x; cbn [SpecFloat.iter_pos].
  - rewrite !IH, Pos2Nat.inj_xI.
    replace (S (2 * Pos.to_nat p)) with (Pos.to_nat p + (Pos.to_nat p + 1))%nat by lia.
    rewrite !Nat.iter_add. reflexivity.
  - rewrite !IH, Pos2Nat.inj_xO.
    replace (2 * Pos.to_nat p)%nat with (Pos.to_nat p + Pos.to_nat p)%nat by lia.
    rewrite Nat.iter_add. reflexivity.
  - reflexivity.
Qed.

Lemma iter_shr_1_locates (n : nat) (mrs : shr_record) (v : R) :
  locates mrs v -> locates (Nat.iter n shr_1 mrs) (v * bpow (- Z.of_nat n)).
Proof.
  intros H. induction n as [|n IH].
  - cbn. rewrite Rmult_1_r. exact H.
  - cbn [Nat.iter]. apply shr_1_locates in IH.
    replace (v * bpow (- Z.of_nat (S n))) with (v * bpow (- Z.of_nat n) / 2);
      [exact IH|].
    replace (- Z.of_nat (S n))%Z with (- Z.of_nat n + -1)%Z by lia.
    rewrite bpow_plus. replace (bpow (-1)) with (/ 2); [field|].
    unfold bpow. simpl. lra.
Qed.

(** [shr] divides by the power of two it is asked for, and keeps the place
    of the value among the integers. *)
Lemma shr_locates (mrs : shr_record) (e n : Z) (v : R) :
  locates mrs v ->
  locates (fst (shr mrs e n)) (v * bpow (- Z.max n 0)) /\
  snd (shr mrs e n) = (e + Z.max n 0)%Z.
Proof.
  intros H. destruct n as [|p|p]; cbn [shr fst snd].
  - rewrite Z.max_id. cbn. rewrite Rmult_1_r, Z.add_0_r. auto.
  - rewrite Z.max_l by lia. split; [|reflexivity].
    rewrite iter_pos_nat.
    replace (Z.pos p) with (Z.of_nat (Pos.to_nat p)) by lia.
    apply iter_shr_1_locates, H.
  - rewrite Z.max_r by lia. cbn. rewrite Rmult_1_r, Z.add_0_r. auto.
Qed.

End Shift.

Section Round.
Import JS Binary64.
Local Open Scope R_scope.

Lemma cexp_def (k : Z) : cexp k = Z.max (k - 53) (-1074).
Proof. reflexivity. Qed.

Lemma mag_of_unique (V : R) (k1 k2 : Z) :
  mag_of V k1 -> mag_of V k2 -> k1 = k2.
Proof.
  intros [H1 H2] [H3 H4].
  assert (k1 - 1 < k2)%Z by (apply bpow_lt_inv; lra).
  assert (k2 - 1 < k1)%Z by (apply bpow_lt_inv; lra).
  lia.
Qed.

Lemma mag_of_le (V1 V2 : R) (k1 k2 : Z) :
  mag_of V1 k1 -> mag_of V2 k2 -> V1 <= V2 -> (k1 <= k2)%Z.
Proof.
  intros [H1 H2] [H3 H4] H.
  assert (k1 - 1 < k2)%Z by (apply bpow_lt_inv; lra).
  lia.
Qed.

Lemma mag_of_digits (mx ex : Z) (lx : location) (v : R) :
  (0 < mx)%Z -> located mx lx v -> mag_of (v * bpow ex) (Zdigits2 mx + ex).
Proof.
  intros Hm Hl. pose proof (Zdigits2_bounds mx Hm) as [Hlo Hhi].
  pose proof (Zdigits2_pos mx Hm) as Hd.
  assert (Hv : IZR mx <= v < IZR mx + 1) by (destruct lx as [|[]]; cbn in Hl; lra).
  apply IZR_le in Hlo. assert (Hhi' : (mx + 1 <= 2 ^ Zdigits2 mx)%Z) by lia.
  apply IZR_le in Hhi'. rewrite plus_IZR in Hhi'.
  rewrite <- !bpow_IZR in * by lia.
  unfold mag_of.
  replace (Zdigits2 mx + ex - 1)%Z with ((Zdigits2 mx - 1) + ex)%Z by lia.
  rewrite !bpow_plus. pose proof (bpow_gt_0 ex). split; nra.
Qed.

Lemma shr_fexp_locates (mx ex : Z) (lx : location) (v : R) :
  (0 <= mx)%Z -> located mx lx v ->
  let e1 := Z.max ex (cexp (Zdigits2 mx + ex)) in
  locates (fst (shr_fexp prec emax mx ex lx)) (v * bpow (ex - e1)) /\
  snd (shr_fexp prec emax mx ex lx) = e1.
Proof.
  intros Hm Hl e1. unfold shr_fexp.
  destruct (shr_locates (shr_record_of_loc mx lx) ex
              (fexp prec emax (Zdigits2 mx + ex) - ex) v
              (locates_of_loc mx lx v Hm Hl)) as [H1 H2].
  fold (cexp (Zdigits2 mx + ex)) in *.
  replace (- Z.max (cexp (Zdigits2 mx + ex) - ex) 0)%Z with (ex - e1)%Z in H1
    by (unfold e1; lia).
  replace (ex + Z.max (cexp (Zdigits2 mx + ex) - ex) 0)%Z with e1 in H2
    by (unfold e1; lia).
  auto.
Qed.

(** The rounded mantissa stays in its binade or is the next power of two. *)
Lemma rne_binade (V : R) (k c : Z) :
  mag_of V k -> (c < k)%Z ->
  (2 ^ (k - 1 - c) <= rne (V * bpow (- c)) <= 2 ^ (k - c))%Z.
Proof.
  intros [Hlo Hhi] Hc. pose proof (bpow_gt_0 (- c)) as Hp. split.
  - apply rne_ge. rewrite <- bpow_IZR by lia.
    replace (k - 1 - c)%Z with ((k - 1) + - c)%Z by lia. rewrite bpow_plus. nra.
  - apply rne_le. rewrite <- bpow_IZR by lia.
    replace (k - c)%Z with (k + - c)%Z by lia. rewrite bpow_plus. nra.
Qed.

Lemma rne_small (V : R) (k c : Z) :
  mag_of V k -> (k <= c)%Z -> (0 <= rne (V * bpow (- c)) <= 1)%Z.
Proof.
  intros [Hlo Hhi] Hc. pose proof (bpow_gt_0 (- c)) as Hp.
  pose proof (bpow_gt_0 (k - 1)).
  split.
  - apply rne_ge. nra.
  - apply rne_le. apply (bpow_le k c) in Hc.
    assert (bpow c * bpow (- c) = 1).
    { rewrite <- bpow_plus. replace (c + - c)%Z with 0%Z by lia. reflexivity. }
    nra.
Qed.

Lemma locates_integer (mrs : shr_record) (z : Z) :
  locates mrs (IZR z) -> shr_m mrs = z.
Proof.
  intros [_ H]. apply located_floor in H. rewrite ZfloorZ in H. congruence.
Qed.

End Round.

Section RoundAux.
Import JS Binary64.
Local Open Scope R_scope.

Lemma second_shift (M c z : Z) :
  (0 <= M)%Z ->
  let e2 := Z.max c (cexp (Zdigits2 M + c)) in
  IZR M * bpow (c - e2) = IZR z ->
  shr_m (fst (shr_fexp prec emax M c loc_Exact)) = z /\
  snd (shr_fexp prec emax M c loc_Exact) = e2.
Proof.
  intros HM e2 Hz.
  destruct (shr_fexp_locates M c loc_Exact (IZR M) HM eq_refl) as [H1 H2].
  fold e2 in H1, H2. rewrite Hz in H1.
  split; [apply locates_integer, H1 | exact H2].
Qed.

Lemma binary_round_aux_unfold (sx : bool) (mx ex : Z) (lx : location) :
  binary_round_aux prec emax sx mx ex lx =
  let mrs' := fst (shr_fexp prec emax mx ex lx) in
  let e' := snd (shr_fexp prec emax mx ex lx) in
  let M := round_nearest_even (shr_m mrs') (loc_of_shr_record mrs') in
  let mrs'' := fst (shr_fexp prec emax M e' loc_Exact) in
  let e'' := snd (shr_fexp prec emax M e' loc_Exact) in
  match shr_m mrs'' with
  | Z0 => S754_zero sx
  | Zpos m => if (e'' <=? emax - prec)%Z then S754_finite sx m e''
              else S754_infinity sx
  | Zneg _ => S754_nan
  end.
Proof.
  unfold binary_round_aux.
  destruct (shr_fexp prec emax mx ex lx) as [mrs' e']. cbn [fst snd].
  destruct (shr_fexp prec emax _ e' loc_Exact) as [mrs'' e'']. reflexivity.
Qed.

Lemma bpow_cancel (c : Z) : bpow c * bpow (- c) = 1.
Proof.
  rewrite <- bpow_plus. replace (c + - c)%Z with 0%Z by lia. reflexivity.
Qed.

Lemma binary_round_aux_correct (sx : bool) (mx ex : Z) (lx : location)
    (v : R) (k : Z) :
  (0 <= mx)%Z -> located mx lx v -> mag_of (v * bpow ex) k ->
  (ex <= cexp (Zdigits2 mx + ex))%Z ->
  rounds_to sx (rounding (v * bpow ex) k)
    (binary_round_aux prec emax sx mx ex lx).
Proof.
  intros Hmx Hloc Hmag Hex.
  set (V := v * bpow ex) in *. set (c := cexp k).
  assert (Hc : cexp (Zdigits2 mx + ex) = c /\ (-1074 <= c)%Z /\
               (k - 53 <= c)%Z /\ (c = -1074 \/ c = k - 53)%Z).
  { unfold c. rewrite !cexp_def in *.
    destruct (Z.eq_dec mx 0%Z) as [->|Hne].
    - cbn [Zdigits2] in *.
      assert (Hv : 0 <= v < 1) by (destruct lx as [|[]]; cbn in Hloc; lra).
      destruct Hmag as [Hlo Hhi].
      assert (k - 1 < ex)%Z.
      { apply bpow_lt_inv. pose proof (bpow_gt_0 ex). unfold V in *. nra. }
      lia.
    - rewrite (mag_of_unique V _ k
                 (mag_of_digits mx ex lx v ltac:(lia) Hloc) Hmag). lia. }
  destruct Hc as (Hc1 & Hc2 & Hc3 & Hc4).
  rewrite binary_round_aux_unfold. cbv zeta.
  destruct (shr_fexp_locates mx ex lx v Hmx Hloc) as [H1 H2].
  rewrite Hc1 in H1, H2. rewrite Z.max_r in H1, H2 by lia.
  rewrite H2. destruct H1 as [Hm' H1].
  rewrite (round_nearest_even_rne _ _ _ H1).
  replace (v * bpow (ex - c)) with (V * bpow (- c)).
  2:{ unfold V. replace (ex - c)%Z with (ex + - c)%Z by lia.
      rewrite bpow_plus. ring. }
  set (M := rne (V * bpow (- c))).
  unfold rounding. fold c. fold M.
  assert (HV : 0 < V).
  { destruct Hmag as [Hlo _]. pose proof (bpow_gt_0 (k - 1)). lra. }
  assert (HM0 : (0 <= M)%Z).
  { apply rne_ge. pose proof (bpow_gt_0 (- c)). nra. }
  assert (Hemax : emax = 1024%Z) by reflexivity.
  assert (Hprec : prec = 53%Z) by reflexivity.
  destruct (Z.eq_dec M 0%Z) as [HM|HM].
  - (* the value is rounded to zero *)
    destruct (second_shift M c 0%Z HM0) as [E1 E2].
    { rewrite HM. lra. }
    rewrite E1. cbn [rounds_to]. rewrite HM. split; [reflexivity | lra].
  - destruct (Z_lt_le_dec c k) as [Hck|Hck].
    + pose proof (rne_binade V k c Hmag Hck) as [HMlo HMhi]. fold M in HMlo, HMhi.
      destruct (Z.eq_dec M (2 ^ (k - c))%Z) as [Hcarry|Hcarry].
      * (* the mantissa is carried to the next power of two *)
        assert (Hd : Zdigits2 M = (k - c + 1)%Z).
        { apply Zdigits2_unique; [lia|].
          replace (k - c + 1 - 1)%Z with (k - c)%Z by lia.
          rewrite Hcarry. split; [lia|].
          apply Z.pow_lt_mono_r; lia. }
        destruct Hc4 as [Hsub|Hnorm].
        -- destruct (Z.eq_dec c (k - 53)%Z) as [Hboth|Hnot].
           ++ (* c = emin and normal at once *)
              destruct (second_shift M c (2 ^ (k - c - 1))%Z HM0) as [E1 E2].
              { rewrite Hd, cexp_def. rewrite Z.max_r by lia.
                replace (c - Z.max (k - c + 1 + c - 53) (-1074))%Z with (-1)%Z by lia.
                rewrite Hcarry, <- !bpow_IZR by lia.
                rewrite <- bpow_plus. f_equal; lia. }
              rewrite E1, E2, Hd, cexp_def.
              pose proof (Z.pow_pos_nonneg 2 (k - c - 1)%Z ltac:(lia) ltac:(lia)).
              destruct (2 ^ (k - c - 1))%Z as [|p|p] eqn:Ep; try lia.
              rewrite Hemax, Hprec.
              destruct (Z.leb_spec (Z.max c (Z.max (k - c + 1 + c - 53) (-1074)))%Z (1024 - 53)%Z);
                [|lia].
              cbn [rounds_to]. split; [reflexivity|].
              rewrite <- Ep, Hcarry, <- !bpow_IZR, <- !bpow_plus by lia.
              split; [f_equal; lia|]. apply bpow_lt. lia.
           ++ destruct (second_shift M c M HM0) as [E1 E2].
              { rewrite Hd, cexp_def. rewrite Z.max_l by lia.
                replace (c - c)%Z with 0%Z by lia. rewrite bpow_0. ring. }
              rewrite E1, E2, Hd, cexp_def.
              destruct M as [|p|p] eqn:Ep; try lia.
              rewrite Hemax, Hprec.
              destruct (Z.leb_spec (Z.max c (Z.max (k - c + 1 + c - 53) (-1074)))%Z (1024 - 53)%Z);
                [|lia].
              cbn [rounds_to]. split; [reflexivity|].
              rewrite Z.max_l by lia. split; [reflexivity|].
              rewrite Hcarry, <- bpow_IZR, <- bpow_plus by lia.
              apply bpow_lt. lia.
        -- destruct (second_shift M c (2 ^ (k - c - 1))%Z HM0) as [E1 E2].
           { rewrite Hd, cexp_def. rewrite Z.max_r by lia.
             replace (c - Z.max (k - c + 1 + c - 53) (-1074))%Z with (-1)%Z by lia.
             rewrite Hcarry, <- !bpow_IZR by lia.
             rewrite <- bpow_plus. f_equal; lia. }
           rewrite E1, E2, Hd, cexp_def.
           pose proof (Z.pow_pos_nonneg 2 (k - c - 1)%Z ltac:(lia) ltac:(lia)).
           destruct (2 ^ (k - c - 1))%Z as [|p|p] eqn:Ep; try lia.
           rewrite Hemax, Hprec.
           destruct (Z.leb_spec (Z.max c (Z.max (k - c + 1 + c - 53) (-1074)))%Z (1024 - 53)%Z).
           ++ cbn [rounds_to]. split; [reflexivity|].
              rewrite <- Ep, Hcarry, <- !bpow_IZR, <- !bpow_plus by lia.
              split; [f_equal; lia|]. apply bpow_lt. lia.
           ++ cbn [rounds_to]. split; [reflexivity|].
              rewrite Hcarry, <- bpow_IZR, <- bpow_plus by lia.
              apply bpow_le. lia.
      * (* the mantissa stays in the binade *)
        assert (Hd : Zdigits2 M = (k - c)%Z).
        { apply Zdigits2_unique; [lia|].
          replace (k - c - 1)%Z with (k - 1 - c)%Z by lia. lia. }
        destruct (second_shift M c M HM0) as [E1 E2].
        { rewrite Hd, cexp_def. rewrite Z.max_l by lia.
          replace (c - c)%Z with 0%Z by lia. rewrite bpow_0. ring. }
        rewrite E1, E2, Hd, cexp_def.
        destruct M as [|p|p] eqn:Ep; try lia.
        rewrite Hemax, Hprec.
        assert (HMlt : IZR (Z.pos p) < bpow (k - c)).
        { rewrite bpow_IZR by lia. apply IZR_lt. lia. }
        assert (HMge : bpow (k - 1 - c) <= IZR (Z.pos p)).
        { rewrite bpow_IZR by lia. apply IZR_le. lia. }
        pose proof (bpow_gt_0 c) as Hpc.
        destruct (Z.leb_spec (Z.max c (Z.max (k - c + c - 53) (-1074)))%Z (1024 - 53)%Z).
        -- cbn [rounds_to]. split; [reflexivity|].
           rewrite Z.max_l by lia. split; [reflexivity|].
           apply Rlt_le_trans with (bpow (k - c) * bpow c); [nra|].
           rewrite <- bpow_plus. apply bpow_le. lia.
        -- cbn [rounds_to]. split; [reflexivity|].
           apply Rle_trans with (bpow (k - 1 - c) * bpow c); [|nra].
           rewrite <- bpow_plus. apply bpow_le. lia.
    + (* below the least subnormal: the mantissa is 1 *)
      pose proof (rne_small V k c Hmag Hck) as [_ HM1]. fold M in HM1.
      assert (M = 1%Z) by lia.
      destruct (second_shift M c M HM0) as [E1 E2].
      { subst M. rewrite H. cbn [Zdigits2 digits2_pos]. rewrite cexp_def.
        rewrite Z.max_l by lia.
        replace (c - c)%Z with 0%Z by lia. rewrite bpow_0. ring. }
      rewrite E1, E2, H. cbn [Zdigits2 digits2_pos]. rewrite cexp_def.
      rewrite Hemax, Hprec.
      destruct (Z.leb_spec (Z.max c (Z.max (1 + c - 53) (-1074)))%Z (1024 - 53)%Z);
        [|lia].
      cbn [rounds_to]. split; [reflexivity|].
      rewrite Z.max_l by lia. split; [reflexivity|].
      rewrite Rmult_1_l. apply bpow_lt. lia.
Qed.

End RoundAux.

Section Order.
Import JS Binary64.
Local Open Scope R_scope.

Lemma bpow_exp (k : Z) : bpow k = exp (IZR k * ln 2).
Proof.
  unfold bpow. rewrite powerRZ_Rpower by lra. reflexivity.
Qed.

Lemma mag_spec (V : R) : 0 < V -> mag_of V (mag V).
Proof.
  intros HV. unfold mag_of, mag.
  pose proof (Zfloor_bound (ln V / ln 2)) as [Hlo Hhi].
  set (f := Zfloor (ln V / ln 2)) in *.
  assert (Hln2 : 0 < ln 2) by (rewrite <- ln_1; apply ln_increasing; lra).
  replace (f + 1 - 1)%Z with f by lia.
  rewrite !bpow_exp, plus_IZR.
  rewrite <- (exp_ln V HV) at 1 2.
  assert (H1 : IZR f * ln 2 <= ln V).
  { apply Rmult_le_reg_r with (/ ln 2); [apply Rinv_0_lt_compat; lra|].
    rewrite Rmult_assoc, Rinv_r by lra. unfold Rdiv in Hlo. lra. }
  assert (H2 : ln V < (IZR f + 1) * ln 2).
  { apply Rmult_lt_reg_r with (/ ln 2); [apply Rinv_0_lt_compat; lra|].
    rewrite Rmult_assoc, Rinv_r by lra. unfold Rdiv in Hhi. lra. }
  split.
  - destruct H1 as [H1|H1]; [left; apply exp_increasing; exact H1|].
    right. rewrite H1. reflexivity.
  - apply exp_increasing. exact H2.
Qed.

Lemma cexp_monotone (k1 k2 : Z) : (k1 <= k2)%Z -> (cexp k1 <= cexp k2)%Z.
Proof. rewrite !cexp_def. lia. Qed.

Lemma rounding_nonneg (V : R) (k : Z) : 0 <= V -> 0 <= rounding V k.
Proof.
  intros HV. unfold rounding.
  pose proof (bpow_gt_0 (cexp k)). pose proof (bpow_gt_0 (- cexp k)).
  assert (0 <= rne (V * bpow (- cexp k)))%Z by (apply rne_ge; nra).
  apply IZR_le in H1. nra.
Qed.

Lemma rounding_monotone (V1 V2 : R) (k1 k2 : Z) :
  mag_of V1 k1 -> mag_of V2 k2 -> V1 <= V2 ->
  rounding V1 k1 <= rounding V2 k2.
Proof.
  intros H1 H2 HV. pose proof (mag_of_le V1 V2 k1 k2 H1 H2 HV) as Hk.
  pose proof (cexp_monotone k1 k2 Hk) as Hc. unfold rounding.
  destruct (Z.eq_dec (cexp k1) (cexp k2)) as [E|N].
  - rewrite E. pose proof (bpow_gt_0 (cexp k2)). pose proof (bpow_gt_0 (- cexp k2)).
    assert (Hr : (rne (V1 * bpow (- cexp k2)) <= rne (V2 * bpow (- cexp k2)))%Z).
    { apply rne_monotone. nra. }
    apply IZR_le in Hr. nra.
  - assert (Hc2 : cexp k2 = (k2 - 53)%Z) by (rewrite !cexp_def in *; lia).
    assert (Hk12 : (k1 < k2)%Z).
    { destruct (Z.eq_dec k1 k2); [congruence | lia]. }
    set (c1 := cexp k1) in *. set (c2 := cexp k2) in *.
    assert (Hc1 : (-1074 <= c1)%Z) by (unfold c1; rewrite cexp_def; lia).
    apply Rle_trans with (bpow (k2 - 1)).
    + destruct H1 as [_ H1].
      assert (Hle : (rne (V1 * bpow (- c1)) <= 2 ^ (k2 - 1 - c1))%Z).
      { apply rne_le. rewrite <- bpow_IZR by lia.
        replace (k2 - 1 - c1)%Z with ((k2 - 1) + - c1)%Z by lia.
        rewrite bpow_plus. pose proof (bpow_gt_0 (- c1)).
        pose proof (bpow_le k1 (k2 - 1) ltac:(lia)). nra. }
      apply IZR_le in Hle. rewrite <- bpow_IZR in Hle by lia.
      replace (bpow (k2 - 1)) with (bpow (k2 - 1 - c1) * bpow c1).
      2:{ rewrite <- bpow_plus. f_equal; lia. }
      pose proof (bpow_gt_0 c1). nra.
    + destruct H2 as [H2 _].
      assert (Hge : (2 ^ (k2 - 1 - c2) <= rne (V2 * bpow (- c2)))%Z).
      { apply rne_ge. rewrite <- bpow_IZR by lia.
        replace (k2 - 1 - c2)%Z with ((k2 - 1) + - c2)%Z by lia.
        rewrite bpow_plus. pose proof (bpow_gt_0 (- c2)). nra. }
      apply IZR_le in Hge. rewrite <- bpow_IZR in Hge by lia.
      replace (bpow (k2 - 1)) with (bpow (k2 - 1 - c2) * bpow c2).
      2:{ rewrite <- bpow_plus. f_equal; lia. }
      pose proof (bpow_gt_0 c2). nra.
Qed.

Lemma RN_nonneg (V : R) : 0 <= RN V.
Proof.
  unfold RN. destruct (Rle_dec V 0); [lra|].
  apply Rmin_glb; [apply rounding_nonneg; lra|].
  pose proof (bpow_gt_0 emax). lra.
Qed.

Lemma RN_monotone (V1 V2 : R) : V1 <= V2 -> RN V1 <= RN V2.
Proof.
  intros H. unfold RN at 1. destruct (Rle_dec V1 0); [apply RN_nonneg|].
  unfold RN. destruct (Rle_dec V2 0); [lra|].
  apply Rle_min_compat_r.
  apply rounding_monotone; [apply mag_spec; lra | apply mag_spec; lra | exact H].
Qed.

(** What [rounds_to] says, as a value. *)
Lemma rounds_to_value (V : R) (k : Z) (z : spec_float) :
  mag_of V k -> rounds_to false (rounding V k) z ->
  is_number z /\ SF2R z = RN V /\ 0 <= SF2R z.
Proof.
  intros Hmag H.
  assert (HV : 0 < V).
  { destruct Hmag as [Hlo _]. pose proof (bpow_gt_0 (k - 1)). lra. }
  rewrite (mag_of_unique V k (mag V) Hmag (mag_spec V HV)) in H.
  assert (Hval : SF2R z = RN V).
  { unfold RN. destruct (Rle_dec V 0); [lra|].
    destruct z as [s|s| |s m e]; cbn [rounds_to SF2R] in *.
    - destruct H as [_ H]. rewrite H. rewrite Rmin_left; [reflexivity|].
      pose proof (bpow_gt_0 emax). lra.
    - destruct H as [-> H]. rewrite Rmin_right; [reflexivity | exact H].
    - contradiction.
    - destruct H as (-> & H1 & H2). cbn [cond_Zopp].
      rewrite H1, Rmin_left; [reflexivity | lra]. }
  split; [destruct z; (discriminate || contradiction)|].
  split; [exact Hval|]. rewrite Hval. apply RN_nonneg.
Qed.

End Order.

Section Compare.
Import JS Binary64.
Local Open Scope R_scope.

Lemma valid_finite (s : bool) (m : positive) (e : Z) :
  valid_binary (S754_finite s m e) = true ->
  (-1074 <= e <= 971)%Z /\ (Z.pos (digits2_pos m) <= 53)%Z /\
  ((-1074 < e)%Z -> Z.pos (digits2_pos m) = 53%Z).
Proof.
  cbn [SpecFloat.valid_binary]. unfold bounded, canonical_mantissa.
  intros [H1 H2]%andb_true_iff. apply Z.eqb_eq in H1. apply Z.leb_le in H2.
  fold (cexp (Z.pos (digits2_pos m) + e)) in H1. rewrite cexp_def in H1.
  change (emax - prec)%Z with 971%Z in H2. lia.
Qed.

Lemma pos_value (m : positive) (e : Z) : 0 < IZR (Z.pos m) * bpow e.
Proof.
  pose proof (bpow_gt_0 e). assert (0 < IZR (Z.pos m)) by (apply IZR_lt; lia).
  nra.
Qed.

Lemma mantissa_bounds (m : positive) :
  bpow (Z.pos (digits2_pos m) - 1) <= IZR (Z.pos m) < bpow (Z.pos (digits2_pos m)).
Proof.
  pose proof (digits2_bounds m) as [Hlo Hhi].
  apply IZR_le in Hlo. apply IZR_lt in Hhi.
  rewrite <- !bpow_IZR in * by lia. lra.
Qed.

Lemma valid_lt_emax (s : bool) (m : positive) (e : Z) :
  valid_binary (S754_finite s m e) = true ->
  IZR (Z.pos m) * bpow e < bpow emax.
Proof.
  intros (He & Hd & _)%valid_finite.
  pose proof (mantissa_bounds m) as [_ Hhi]. pose proof (bpow_gt_0 e).
  apply Rlt_le_trans with (bpow (Z.pos (digits2_pos m)) * bpow e); [nra|].
  rewrite <- bpow_plus. apply bpow_le. change emax with 1024%Z. lia.
Qed.

Lemma canonical_lt (s1 s2 : bool) (m1 m2 : positive) (e1 e2 : Z) :
  valid_binary (S754_finite s1 m1 e1) = true ->
  valid_binary (S754_finite s2 m2 e2) = true ->
  (e1 < e2)%Z -> IZR (Z.pos m1) * bpow e1 < IZR (Z.pos m2) * bpow e2.
Proof.
  intros (He1 & Hd1 & _)%valid_finite (He2 & _ & Hn2)%valid_finite Hlt.
  specialize (Hn2 ltac:(lia)).
  pose proof (mantissa_bounds m1) as [_ Hhi].
  pose proof (mantissa_bounds m2) as [Hlo _]. rewrite Hn2 in Hlo.
  pose proof (bpow_gt_0 e1). pose proof (bpow_gt_0 e2).
  apply Rlt_le_trans with (bpow (Z.pos (digits2_pos m1)) * bpow e1); [nra|].
  apply Rle_trans with (bpow (53 - 1) * bpow e2); [|nra].
  rewrite <- !bpow_plus. apply bpow_le. lia.
Qed.

Lemma Rcmp_Lt (a b : R) : a < b -> Rcmp a b = Lt.
Proof. intros H. unfold Rcmp. destruct (Rlt_dec a b); [reflexivity | lra]. Qed.

Lemma Rcmp_Gt (a b : R) : b < a -> Rcmp a b = Gt.
Proof.
  intros H. unfold Rcmp. destruct (Rlt_dec a b); [lra|].
  destruct (Rlt_dec b a); [reflexivity | lra].
Qed.

Lemma Rcmp_Eq (a b : R) : a = b -> Rcmp a b = Eq.
Proof.
  intros H. unfold Rcmp. destruct (Rlt_dec a b); [lra|].
  destruct (Rlt_dec b a); [lra | reflexivity].
Qed.

Lemma Rcmp_pos (m1 m2 : positive) (e : Z) :
  Rcmp (IZR (Z.pos m1) * bpow e) (IZR (Z.pos m2) * bpow e) =
  Pos.compare_cont Eq m1 m2.
Proof.
  change (Pos.compare_cont Eq m1 m2) with (Pos.compare m1 m2).
  pose proof (bpow_gt_0 e).
  destruct (Pos.compare_spec m1 m2) as [E|L|G].
  - subst. apply Rcmp_Eq. reflexivity.
  - apply Rcmp_Lt. assert (IZR (Z.pos m1) < IZR (Z.pos m2)) by (apply IZR_lt; lia). nra.
  - apply Rcmp_Gt. assert (IZR (Z.pos m2) < IZR (Z.pos m1)) by (apply IZR_lt; lia). nra.
Qed.

Lemma Rcmp_opp (a b : R) : Rcmp (- a) (- b) = CompOpp (Rcmp a b).
Proof.
  unfold Rcmp. destruct (Rlt_dec a b), (Rlt_dec b a), (Rlt_dec (- a) (- b)),
    (Rlt_dec (- b) (- a)); try reflexivity; lra.
Qed.

Lemma SFcompare_finite_pos (m1 m2 : positive) (e1 e2 : Z) :
  valid_binary (S754_finite false m1 e1) = true ->
  valid_binary (S754_finite false m2 e2) = true ->
  match (e1 ?= e2)%Z with
  | Lt => Lt
  | Gt => Gt
  | Eq => Pos.compare_cont Eq m1 m2
  end = Rcmp (IZR (Z.pos m1) * bpow e1) (IZR (Z.pos m2) * bpow e2).
Proof.
  intros H1 H2. destruct (Z.compare_spec e1 e2) as [E|L|G].
  - subst. symmetry. apply Rcmp_pos.
  - symmetry. apply Rcmp_Lt. eapply canonical_lt; eassumption.
  - symmetry. apply Rcmp_Gt. eapply canonical_lt; eassumption.
Qed.

Lemma SFcompare_value (x y : spec_float) :
  valid_binary x = true -> valid_binary y = true ->
  is_number x -> is_number y ->
  SFcompare x y = Some (Rcmp (SF2R x) (SF2R y)).
Proof.
  intros Hx Hy Nx Ny. pose proof (bpow_gt_0 emax) as HB.
  destruct x as [sx|sx| |sx mx ex], y as [sy|sy| |sy my ey];
    try (exfalso; apply Nx; reflexivity); try (exfalso; apply Ny; reflexivity);
    cbn [SFcompare SF2R].
  - rewrite Rcmp_Eq; reflexivity.
  - destruct sy; [rewrite Rcmp_Gt | rewrite Rcmp_Lt]; (reflexivity || lra).
  - pose proof (pos_value my ey).
    destruct sy; cbn [cond_Zopp]; [rewrite Rcmp_Gt | rewrite Rcmp_Lt];
      try reflexivity; try (rewrite opp_IZR); lra.
  - destruct sx; [rewrite Rcmp_Lt | rewrite Rcmp_Gt]; (reflexivity || lra).
  - destruct sx, sy; [rewrite Rcmp_Eq|rewrite Rcmp_Lt|rewrite Rcmp_Gt|rewrite Rcmp_Eq];
      (reflexivity || lra).
  - pose proof (pos_value my ey). pose proof (valid_lt_emax sy my ey Hy).
    destruct sx, sy; cbn [cond_Zopp]; [rewrite Rcmp_Lt|rewrite Rcmp_Lt|rewrite Rcmp_Gt|rewrite Rcmp_Gt];
      try reflexivity; try (rewrite opp_IZR); lra.
  - pose proof (pos_value mx ex).
    destruct sx; cbn [cond_Zopp]; [rewrite Rcmp_Lt | rewrite Rcmp_Gt];
      try reflexivity; try (rewrite opp_IZR); lra.
  - pose proof (pos_value mx ex). pose proof (valid_lt_emax sx mx ex Hx).
    destruct sx, sy; cbn [cond_Zopp]; [rewrite Rcmp_Gt|rewrite Rcmp_Lt|rewrite Rcmp_Gt|rewrite Rcmp_Lt];
      try reflexivity; try (rewrite opp_IZR); lra.
  - pose proof (pos_value mx ex). pose proof (pos_value my ey).
    destruct sx, sy; cbn [cond_Zopp].
    + rewrite !opp_IZR.
      replace (- IZR (Z.pos mx) * bpow ex) with (- (IZR (Z.pos mx) * bpow ex)) by ring.
      replace (- IZR (Z.pos my) * bpow ey) with (- (IZR (Z.pos my) * bpow ey)) by ring.
      rewrite Rcmp_opp. f_equal.
      rewrite <- (SFcompare_finite_pos mx my ex ey); [|exact Hx|exact Hy].
      destruct (ex ?= ey)%Z; reflexivity.
    + rewrite Rcmp_Lt; [reflexivity|]. rewrite opp_IZR. lra.
    + rewrite Rcmp_Gt; [reflexivity|]. rewrite opp_IZR. lra.
    + f_equal. apply SFcompare_finite_pos; assumption.
Qed.

End Compare.

Section Operations.
Import JS Binary64.
Local Open Scope R_scope.

Lemma bra_value (mx ex : Z) (lx : location) (v : R) :
  (0 <= mx)%Z -> located mx lx v -> 0 < v ->
  (ex <= cexp (Zdigits2 mx + ex))%Z ->
  let z := binary_round_aux prec emax false mx ex lx in
  is_number z /\ SF2R z = RN (v * bpow ex) /\ 0 <= SF2R z.
Proof.
  intros Hm Hl Hv He z.
  assert (HV : 0 < v * bpow ex) by (pose proof (bpow_gt_0 ex); nra).
  apply (rounds_to_value _ (mag (v * bpow ex))); [apply mag_spec, HV|].
  apply binary_round_aux_correct; auto. apply mag_spec, HV.
Qed.

Lemma digits_mul (mx my : positive) :
  (Z.pos (digits2_pos mx) + Z.pos (digits2_pos my) - 1
   <= Z.pos (digits2_pos (mx * my)))%Z.
Proof.
  pose proof (digits2_bounds mx) as [Hx _].
  pose proof (digits2_bounds my) as [Hy _].
  pose proof (digits2_bounds (mx * my)) as [_ Hp].
  set (dx := Z.pos (digits2_pos mx)) in *. set (dy := Z.pos (digits2_pos my)) in *.
  set (D := Z.pos (digits2_pos (mx * my))) in *.
  assert (Hdx : (0 < dx)%Z) by (unfold dx; lia).
  assert (Hdy : (0 < dy)%Z) by (unfold dy; lia).
  assert (H : (2 ^ (dx - 1 + (dy - 1)) < 2 ^ D)%Z).
  { rewrite Z.pow_add_r by lia. rewrite Pos2Z.inj_mul in Hp.
    pose proof (Z.pow_pos_nonneg 2 (dx - 1) ltac:(lia) ltac:(lia)).
    pose proof (Z.pow_pos_nonneg 2 (dy - 1) ltac:(lia) ltac:(lia)). nia. }
  apply Z.pow_lt_mono_r_iff in H; [lia | lia | unfold D; lia].
Qed.

Lemma SFmul_pos (mx my : positive) (ex ey : Z) :
  valid_binary (S754_finite false mx ex) = true ->
  valid_binary (S754_finite false my ey) = true ->
  let z := SFmul prec emax (S754_finite false mx ex) (S754_finite false my ey) in
  is_number z /\
  SF2R z = RN (SF2R (S754_finite false mx ex) * SF2R (S754_finite false my ey)) /\
  0 <= SF2R z.
Proof.
  intros (Hex & Hdx & Hnx)%valid_finite (Hey & Hdy & Hny)%valid_finite.
  cbn [SFmul xorb SF2R cond_Zopp].
  replace (IZR (Z.pos mx) * bpow ex * (IZR (Z.pos my) * bpow ey))
    with (IZR (Z.pos (mx * my)) * bpow (ex + ey)).
  2:{ rewrite Pos2Z.inj_mul, mult_IZR, bpow_plus. ring. }
  apply bra_value; [lia | reflexivity | apply IZR_lt; lia |].
  cbn [Zdigits2]. rewrite cexp_def. pose proof (digits_mul mx my).
  assert (0 < Z.pos (digits2_pos mx))%Z by lia.
  assert (0 < Z.pos (digits2_pos my))%Z by lia.
  destruct (Z.eq_dec ex (-1074)%Z), (Z.eq_dec ey (-1074)%Z); lia.
Qed.

Lemma new_location_located (nb r q : Z) :
  (0 < nb)%Z -> (0 <= r < nb)%Z ->
  located q (new_location nb r) (IZR q + IZR r / IZR nb).
Proof.
  intros Hnb Hr. assert (Hn : 0 < IZR nb) by (apply IZR_lt; lia).
  assert (Hdiv : forall a : R, a / IZR nb * IZR nb = a) by (intros; field; lra).
  assert (Hexact : r = 0%Z -> located q loc_Exact (IZR q + IZR r / IZR nb)).
  { intros ->. cbn. replace (0 / IZR nb) with 0 by (field; lra). lra. }
  assert (Hhalf : forall c : comparison,
             r <> 0%Z -> (2 * r ?= nb)%Z = c ->
             located q (loc_Inexact c) (IZR q + IZR r / IZR nb)).
  { intros c Hr0 Hc.
    assert (H0 : 0 < IZR r) by (apply IZR_lt; lia).
    assert (Hlt : IZR r < IZR nb) by (apply IZR_lt; lia).
    assert (Hq0 : 0 < IZR r / IZR nb) by (apply Rdiv_lt_0_compat; lra).
    assert (Hq1 : IZR r / IZR nb < 1).
    { apply Rmult_lt_reg_r with (IZR nb); [lra|]. rewrite Hdiv. lra. }
    destruct (Z.compare_spec (2 * r) nb) as [E|L|G]; subst c; cbn.
    - apply (f_equal IZR) in E. rewrite mult_IZR in E.
      f_equal. apply Rmult_eq_reg_r with (IZR nb); [|lra]. rewrite Hdiv. lra.
    - apply IZR_lt in L. rewrite mult_IZR in L.
      split; [lra|]. apply Rplus_lt_compat_l.
      apply Rmult_lt_reg_r with (IZR nb); [lra|]. rewrite Hdiv. lra.
    - apply IZR_lt in G. rewrite mult_IZR in G.
      split; [|lra]. apply Rplus_lt_compat_l.
      apply Rmult_lt_reg_r with (IZR nb); [lra|]. rewrite Hdiv. lra. }
  unfold new_location. destruct (Z.even nb) eqn:Heven.
  - unfold new_location_even.
    destruct (Z.eqb_spec r 0%Z) as [E|N]; [apply Hexact, E|].
    apply Hhalf; [exact N | reflexivity].
  - unfold new_location_odd.
    destruct (Z.eqb_spec r 0%Z) as [E|N]; [apply Hexact, E|].
    apply Hhalf; [exact N|].
    assert (Hodd : Z.odd nb = true) by (rewrite <- Z.negb_even, Heven; reflexivity).
    apply Z.odd_spec in Hodd as [half Hhalf'].
    destruct (Z.compare_spec (2 * r + 1) nb) as [E|L|G];
      [apply Z.compare_lt_iff | apply Z.compare_lt_iff | apply Z.compare_gt_iff];
      lia.
Qed.

Lemma SFdiv_core_correct (mx my : positive) (ex ey : Z) :
  let X := IZR (Z.pos mx) * bpow ex in
  let Y := IZR (Z.pos my) * bpow ey in
  let '(q, e', l) := SFdiv_core_binary prec emax (Z.pos mx) ex (Z.pos my) ey in
  (0 <= q)%Z /\ located q l (X / Y * bpow (- e')) /\
  (e' <= cexp (Zdigits2 q + e'))%Z.
Proof.
  intros X Y. unfold SFdiv_core_binary.
  set (d1 := Zdigits2 (Z.pos mx)). set (d2 := Zdigits2 (Z.pos my)).
  set (k0 := (d1 + ex - (d2 + ey))%Z).
  fold (cexp k0). set (e' := Z.min (cexp k0) (ex - ey)).
  set (s := (ex - ey - e')%Z).
  assert (Hs : (0 <= s)%Z) by (unfold s, e'; lia).
  set (m' := match s with
             | 0%Z => Z.pos mx
             | Z.pos _ => Z.shiftl (Z.pos mx) s
             | Z.neg _ => 0%Z
             end).
  assert (Hm' : m' = (Z.pos mx * 2 ^ s)%Z).
  { unfold m'. destruct s as [|p|p] eqn:Es; [cbn; lia| |lia].
    rewrite Z.shiftl_mul_pow2 by lia. reflexivity. }
  pose proof (Z.div_eucl_eq m' (Z.pos my) ltac:(lia)) as Hdiv.
  pose proof (Z.mod_pos_bound m' (Z.pos my) ltac:(lia)) as Hmod.
  unfold Z.modulo in Hmod. 
  destruct (Z.div_eucl m' (Z.pos my)) as [q r].
  assert (Hq : (0 <= q)%Z).
  { pose proof (Z.pow_pos_nonneg 2 s ltac:(lia) Hs). nia. }
  assert (HY : 0 < Y) by apply pos_value.
  assert (HX : 0 < X) by apply pos_value.
  assert (Hv : X / Y * bpow (- e') = IZR q + IZR r / IZR (Z.pos my)).
  { assert (Hmy : 0 < IZR (Z.pos my)) by (apply IZR_lt; lia).
    replace (IZR q + IZR r / IZR (Z.pos my))
      with (IZR m' / IZR (Z.pos my)).
    2:{ rewrite Hdiv, plus_IZR, mult_IZR. field. lra. }
    rewrite Hm', mult_IZR, <- bpow_IZR by lia. unfold X, Y, s.
    replace (ex - ey - e')%Z with (ex + (- ey) + (- e'))%Z by lia.
    rewrite !bpow_plus, (bpow_opp ey). field.
    pose proof (bpow_gt_0 ey). lra. }
  split; [exact Hq|]. split.
  { rewrite Hv. apply new_location_located; lia. }
  (* the quotient has at least the digits of a significand *)
  assert (HV : bpow (k0 - 1) < X / Y).
  { pose proof (mantissa_bounds mx) as [Hlo _].
    pose proof (mantissa_bounds my) as [_ Hhi].
    assert (H1 : bpow (d1 - 1 + ex) <= X).
    { unfold d1. cbn [Zdigits2]. rewrite bpow_plus. unfold X.
      pose proof (bpow_gt_0 ex). nra. }
    assert (H2 : Y < bpow (d2 + ey)).
    { unfold d2. cbn [Zdigits2]. rewrite bpow_plus. unfold Y.
      pose proof (bpow_gt_0 ey). nra. }
    apply Rmult_lt_reg_r with Y; [exact HY|].
    replace (X / Y * Y) with X by (field; lra).
    apply Rlt_le_trans with (bpow (k0 - 1) * bpow (d2 + ey)).
    - pose proof (bpow_gt_0 (k0 - 1)). nra.
    - rewrite <- bpow_plus. replace (k0 - 1 + (d2 + ey))%Z with (d1 - 1 + ex)%Z
        by (unfold k0; lia). exact H1. }
  assert (Hloc : located q (new_location (Z.pos my) r) (X / Y * bpow (- e'))).
  { rewrite Hv. apply new_location_located; lia. }
  assert (HVe : X / Y = X / Y * bpow (- e') * bpow e').
  { rewrite Rmult_assoc, <- bpow_plus.
    replace (- e' + e')%Z with 0%Z by lia. rewrite bpow_0. ring. }
  destruct (Z.eq_dec q 0%Z) as [->|Hq0].
  - cbn [Zdigits2]. rewrite cexp_def.
    assert (Hlt : X / Y * bpow (- e') < 1).
    { destruct (new_location (Z.pos my) r) as [|[]]; cbn in Hloc; lra. }
    assert (k0 - 1 < e')%Z.
    { apply bpow_lt_inv. rewrite HVe in HV. pose proof (bpow_gt_0 e'). nra. }
    assert (e' <= cexp k0)%Z by (unfold e'; lia). rewrite cexp_def in H0. lia.
  - pose proof (mag_of_digits q e' _ _ ltac:(lia) Hloc) as [_ Hhi].
    rewrite <- HVe in Hhi.
    assert (k0 - 1 < Zdigits2 q + e')%Z by (apply bpow_lt_inv; lra).
    assert (e' <= cexp k0)%Z by (unfold e'; lia).
    pose proof (cexp_monotone k0 (Zdigits2 q + e') ltac:(lia)). lia.
Qed.

Lemma SFdiv_pos (mx my : positive) (ex ey : Z) :
  let z := SFdiv prec emax (S754_finite false mx ex) (S754_finite false my ey) in
  is_number z /\
  SF2R z = RN (SF2R (S754_finite false mx ex) / SF2R (S754_finite false my ey)) /\
  0 <= SF2R z.
Proof.
  cbn [SFdiv xorb SF2R cond_Zopp].
  pose proof (SFdiv_core_correct mx my ex ey) as H. cbv zeta in H.
  destruct (SFdiv_core_binary prec emax (Z.pos mx) ex (Z.pos my) ey) as [[q e'] l].
  destruct H as (Hq & Hloc & He).
  set (X := IZR (Z.pos mx) * bpow ex) in *.
  set (Y := IZR (Z.pos my) * bpow ey) in *.
  replace (X / Y) with (X / Y * bpow (- e') * bpow e').
  2:{ rewrite Rmult_assoc, <- bpow_plus.
      replace (- e' + e')%Z with 0%Z by lia. rewrite bpow_0. ring. }
  apply bra_value; auto.
  assert (0 < X) by apply pos_value. assert (0 < Y) by apply pos_value.
  pose proof (bpow_gt_0 (- e')).
  assert (0 < X / Y) by (apply Rdiv_lt_0_compat; lra). nra.
Qed.

End Operations.

Section PrimitiveFloats.
Import JS Binary64.
Local Open Scope R_scope.

Lemma Rcmp_refl (a : R) : Rcmp a a = Eq.
Proof. apply Rcmp_Eq. reflexivity. Qed.

Lemma is_nan_false (x : float) : is_nan x = false <-> number_ok x.
Proof.
  unfold is_nan, number_ok. rewrite FloatAxioms.eqb_spec. unfold SFeqb. split.
  - intros H N. rewrite N in H. discriminate.
  - intros N. rewrite (SFcompare_value _ _ (Prim2SF_valid x) (Prim2SF_valid x) N N).
    rewrite Rcmp_refl. reflexivity.
Qed.

Lemma is_nan_true (x : float) : is_nan x = true <-> Prim2SF x = S754_nan.
Proof.
  split.
  - intros H. destruct (Prim2SF x) eqn:E; try reflexivity;
      assert (N : number_ok x) by (unfold number_ok; rewrite E; discriminate);
      apply is_nan_false in N; congruence.
  - intros E. unfold is_nan. rewrite FloatAxioms.eqb_spec, E. reflexivity.
Qed.

Lemma compare_number (x y : float) (c : comparison) :
  SFcompare (Prim2SF x) (Prim2SF y) = Some c -> number_ok x /\ number_ok y.
Proof.
  unfold number_ok, is_number.
  destruct (Prim2SF x), (Prim2SF y); cbn; intros H; split; congruence.
Qed.

Lemma leb_true (x y : float) :
  (x <=? y)%float = true <-> number_ok x /\ number_ok y /\ value x <= value y.
Proof.
  rewrite FloatAxioms.leb_spec. unfold SFleb. split.
  - destruct (SFcompare (Prim2SF x) (Prim2SF y)) as [c|] eqn:E; [|discriminate].
    destruct (compare_number x y c E) as [Nx Ny]. intros H.
    split; [exact Nx|]. split; [exact Ny|].
    rewrite (SFcompare_value _ _ (Prim2SF_valid x) (Prim2SF_valid y) Nx Ny) in E.
    injection E as <-. unfold value, Rcmp in *.
    destruct (Rlt_dec _ _); [lra|]. destruct (Rlt_dec _ _); [discriminate | lra].
  - intros (Nx & Ny & H).
    rewrite (SFcompare_value _ _ (Prim2SF_valid x) (Prim2SF_valid y) Nx Ny).
    unfold value, Rcmp in *.
    destruct (Rlt_dec _ _); [reflexivity|]. destruct (Rlt_dec _ _); [lra | reflexivity].
Qed.

Lemma ltb_true (x y : float) :
  (x <? y)%float = true <-> number_ok x /\ number_ok y /\ value x < value y.
Proof.
  rewrite FloatAxioms.ltb_spec. unfold SFltb. split.
  - destruct (SFcompare (Prim2SF x) (Prim2SF y)) as [c|] eqn:E; [|discriminate].
    destruct (compare_number x y c E) as [Nx Ny]. intros H.
    split; [exact Nx|]. split; [exact Ny|].
    rewrite (SFcompare_value _ _ (Prim2SF_valid x) (Prim2SF_valid y) Nx Ny) in E.
    injection E as <-. unfold value, Rcmp in *.
    destruct (Rlt_dec _ _); [lra|]. destruct (Rlt_dec _ _); discriminate.
  - intros (Nx & Ny & H).
    rewrite (SFcompare_value _ _ (Prim2SF_valid x) (Prim2SF_valid y) Nx Ny).
    unfold value, Rcmp in *.
    destruct (Rlt_dec _ _); [reflexivity | lra].
Qed.

Lemma value_zero : value 0%float = 0.
Proof. reflexivity. Qed.

(** The shape of a number that is not below zero. *)
Lemma nonneg_shape (x : spec_float) :
  valid_binary x = true -> is_number x -> 0 <= SF2R x ->
  (exists s, x = S754_zero s) \/ x = S754_infinity false \/
  exists m e, x = S754_finite false m e.
Proof.
  intros Hv N H. pose proof (bpow_gt_0 emax).
  destruct x as [s|[]| |[] m e]; cbn [SF2R cond_Zopp] in H; eauto.
  - lra.
  - exfalso. apply N. reflexivity.
  - pose proof (pos_value m e). rewrite opp_IZR in H. lra.
Qed.

Lemma RN_0 : RN 0 = 0.
Proof. unfold RN. destruct (Rle_dec 0 0); [reflexivity | lra]. Qed.

Lemma RN_le_emax (V : R) : RN V <= bpow emax.
Proof.
  unfold RN. destruct (Rle_dec V 0); [|apply Rmin_r].
  pose proof (bpow_gt_0 emax). lra.
Qed.

Lemma finite_lt_emax (x : spec_float) :
  valid_binary x = true -> is_number x -> x <> S754_infinity false ->
  SF2R x < bpow emax.
Proof.
  intros Hv N Hinf. pose proof (bpow_gt_0 emax).
  destruct x as [s|[]| |[] m e]; cbn [SF2R cond_Zopp]; try lra.
  - congruence.
  - pose proof (pos_value m e). rewrite opp_IZR. lra.
  - apply (valid_lt_emax false m e Hv).
Qed.

(** Division by a positive finite number keeps the order of numbers that
    are not below zero. *)
Lemma SFdiv_nonneg_monotone (x1 x2 : spec_float) (my : positive) (ey : Z) :
  valid_binary x1 = true -> valid_binary x2 = true ->
  is_number x1 -> is_number x2 -> 0 <= SF2R x1 -> SF2R x1 <= SF2R x2 ->
  let y := S754_finite false my ey in
  is_number (SFdiv prec emax x1 y) /\ is_number (SFdiv prec emax x2 y) /\
  0 <= SF2R (SFdiv prec emax x1 y) <= SF2R (SFdiv prec emax x2 y).
Proof.
  intros V1 V2 N1 N2 H0 H12 y.
  assert (HY : 0 < SF2R y) by apply pos_value.
  assert (Hone : forall x, valid_binary x = true -> is_number x -> 0 <= SF2R x ->
            is_number (SFdiv prec emax x y) /\
            (x = S754_infinity false /\ SF2R (SFdiv prec emax x y) = bpow emax \/
             x <> S754_infinity false /\
             SF2R (SFdiv prec emax x y) = RN (SF2R x / SF2R y))).
  { intros x Vx Nx Hx.
    destruct (nonneg_shape x Vx Nx Hx) as [[s ->]|[->|(m & e & ->)]].
    - split; [discriminate|]. right. split; [discriminate|].
      cbn [SFdiv SF2R y]. unfold Rdiv. rewrite Rmult_0_l, RN_0. reflexivity.
    - split; [discriminate|]. left. split; reflexivity.
    - destruct (SFdiv_pos m my e ey) as (Hn & Hval & _).
      split; [exact Hn|]. right. split; [discriminate | exact Hval]. }
  destruct (Hone x1 V1 N1 H0) as [M1 C1].
  destruct (Hone x2 V2 N2 ltac:(lra)) as [M2 C2].
  split; [exact M1|]. split; [exact M2|].
  destruct C1 as [[-> E1]|[I1 E1]], C2 as [[-> E2]|[I2 E2]]; rewrite ?E1, ?E2.
  - pose proof (bpow_gt_0 emax). lra.
  - exfalso. pose proof (finite_lt_emax x2 V2 N2 I2). cbn [SF2R] in H12. lra.
  - split; [apply RN_nonneg | apply RN_le_emax].
  - split; [apply RN_nonneg|]. apply RN_monotone.
    unfold Rdiv. apply Rmult_le_compat_r; [|exact H12].
    apply Rlt_le, Rinv_0_lt_compat, HY.
Qed.

Lemma SFmul_nonneg_monotone (x1 x2 : spec_float) (my : positive) (ey : Z) :
  valid_binary x1 = true -> valid_binary x2 = true ->
  valid_binary (S754_finite false my ey) = true ->
  is_number x1 -> is_number x2 -> 0 <= SF2R x1 -> SF2R x1 <= SF2R x2 ->
  let y := S754_finite false my ey in
  is_number (SFmul prec emax x1 y) /\ is_number (SFmul prec emax x2 y) /\
  0 <= SF2R (SFmul prec emax x1 y) <= SF2R (SFmul prec emax x2 y).
Proof.
  intros V1 V2 Vy N1 N2 H0 H12 y.
  assert (HY : 0 < SF2R y) by apply pos_value.
  assert (Hone : forall x, valid_binary x = true -> is_number x -> 0 <= SF2R x ->
            is_number (SFmul prec emax x y) /\
            (x = S754_infinity false /\ SF2R (SFmul prec emax x y) = bpow emax \/
             x <> S754_infinity false /\
             SF2R (SFmul prec emax x y) = RN (SF2R x * SF2R y))).
  { intros x Vx Nx Hx.
    destruct (nonneg_shape x Vx Nx Hx) as [[s ->]|[->|(m & e & ->)]].
    - split; [discriminate|]. right. split; [discriminate|].
      cbn [SFmul SF2R y]. rewrite Rmult_0_l, RN_0. reflexivity.
    - split; [discriminate|]. left. split; reflexivity.
    - destruct (SFmul_pos m my e ey Vx Vy) as (Hn & Hval & _).
      split; [exact Hn|]. right. split; [discriminate | exact Hval]. }
  destruct (Hone x1 V1 N1 H0) as [M1 C1].
  destruct (Hone x2 V2 N2 ltac:(lra)) as [M2 C2].
  split; [exact M1|]. split; [exact M2|].
  destruct C1 as [[-> E1]|[I1 E1]], C2 as [[-> E2]|[I2 E2]]; rewrite ?E1, ?E2.
  - pose proof (bpow_gt_0 emax). lra.
  - exfalso. pose proof (finite_lt_emax x2 V2 N2 I2). cbn [SF2R] in H12. lra.
  - split; [apply RN_nonneg | apply RN_le_emax].
  - split; [apply RN_nonneg|]. apply RN_monotone.
    apply Rmult_le_compat_r; [lra | exact H12].
Qed.

End PrimitiveFloats.

Section MathRound.
Import JS Binary64.
Local Open Scope R_scope.

Lemma iter_xO (p d : positive) :
  Z.pos (PosDef.Pos.iter xO p d) = (Z.pos p * 2 ^ Z.pos d)%Z.
Proof.
  change (PosDef.Pos.iter xO p d) with (Pos.iter xO p d).
  induction d as [|d IH] using Pos.peano_ind.
  - cbn. lia.
  - rewrite Pos.iter_succ, Pos2Z.inj_xO, IH, Pos2Z.inj_succ, Z.pow_succ_r by lia.
    lia.
Qed.

Lemma digits_shift (p : positive) (d : Z) :
  (0 <= d)%Z -> Zdigits2 (Z.pos p * 2 ^ d) = (Zdigits2 (Z.pos p) + d)%Z.
Proof.
  intros Hd. pose proof (Zdigits2_bounds (Z.pos p) ltac:(lia)) as [Hlo Hhi].
  pose proof (Zdigits2_pos (Z.pos p) ltac:(lia)).
  pose proof (Z.pow_pos_nonneg 2 d ltac:(lia) Hd).
  apply Zdigits2_unique; [nia|].
  replace (Zdigits2 (Z.pos p) + d - 1)%Z with ((Zdigits2 (Z.pos p) - 1) + d)%Z by lia.
  rewrite !Z.pow_add_r by lia. nia.
Qed.

Lemma binary_round_value (p : positive) (e : Z) :
  let z := binary_round prec emax false p e in
  is_number z /\ SF2R z = RN (IZR (Z.pos p) * bpow e) /\ 0 <= SF2R z.
Proof.
  unfold binary_round, shl_align.
  fold (cexp (Z.pos (digits2_pos p) + e)).
  set (c := cexp (Z.pos (digits2_pos p) + e)).
  destruct (c - e)%Z as [|d|d] eqn:Ed.
  - apply (bra_value (Z.pos p) e loc_Exact (IZR (Z.pos p)));
      [lia | reflexivity | apply IZR_lt; lia |].
    cbn [Zdigits2]. fold c. lia.
  - apply (bra_value (Z.pos p) e loc_Exact (IZR (Z.pos p)));
      [lia | reflexivity | apply IZR_lt; lia |].
    cbn [Zdigits2]. fold c. lia.
  - replace (IZR (Z.pos p) * bpow e)
      with (IZR (Z.pos (PosDef.Pos.iter xO p d)) * bpow c).
    2:{ rewrite iter_xO, mult_IZR, <- bpow_IZR by lia.
        rewrite Rmult_assoc, <- bpow_plus. do 2 f_equal. lia. }
    apply bra_value; [lia | reflexivity | apply IZR_lt; lia |].
    rewrite iter_xO, digits_shift by lia. cbn [Zdigits2].
    replace (Z.pos (digits2_pos p) + Z.pos d + c)%Z
      with (Z.pos (digits2_pos p) + e)%Z by lia.
    fold c. lia.
Qed.

Lemma RN_int (n : Z) : (0 < n < 2 ^ 53)%Z -> RN (IZR n) = IZR n.
Proof.
  intros [Hlo Hhi]. assert (Hpos : 0 < IZR n) by (apply IZR_lt; lia).
  unfold RN. destruct (Rle_dec (IZR n) 0); [lra|].
  pose proof (mag_spec (IZR n) Hpos) as [H1 H2].
  set (k := mag (IZR n)) in *.
  assert (Hk1 : (k - 1 < 53)%Z).
  { apply bpow_lt_inv. apply Rle_lt_trans with (IZR n); [exact H1|].
    rewrite bpow_IZR by lia. apply IZR_lt. exact Hhi. }
  assert (Hk0 : (0 < k)%Z).
  { apply bpow_lt_inv. apply Rle_lt_trans with (IZR n); [|exact H2].
    rewrite bpow_0. apply IZR_le. lia. }
  unfold rounding. rewrite cexp_def, Z.max_l by lia.
  replace (IZR n * bpow (- (k - 53))) with (IZR (n * 2 ^ (53 - k))).
  2:{ rewrite mult_IZR, <- bpow_IZR by lia. do 2 f_equal. lia. }
  rewrite rne_IZR, mult_IZR, <- bpow_IZR by lia.
  rewrite Rmult_assoc, <- bpow_plus.
  replace (53 - k + (k - 53))%Z with 0%Z by lia. rewrite bpow_0, Rmult_1_r.
  apply Rmin_left. apply Rle_trans with (bpow 53).
  - rewrite bpow_IZR by lia. apply IZR_le. lia.
  - apply bpow_le. change emax with 1024%Z. lia.
Qed.

Lemma of_uint63_value (n : Z) :
  (0 < n < 2 ^ 53)%Z ->
  number_ok (of_uint63 (Uint63.of_Z n)) /\ value (of_uint63 (Uint63.of_Z n)) = IZR n.
Proof.
  intros Hn. unfold number_ok, value. rewrite of_uint63_spec, Uint63.of_Z_spec.
  rewrite Z.mod_small.
  2:{ split; [lia|]. apply Z.lt_trans with (2 ^ 53)%Z; [lia | reflexivity]. }
  destruct n as [|p|p]; try lia. cbn [binary_normalize].
  destruct (binary_round_value p 0) as (H1 & H2 & _).
  split; [exact H1|]. rewrite H2, bpow_0, Rmult_1_r. apply RN_int. exact Hn.
Qed.

Lemma SF2R_opp (z : spec_float) : SF2R (SFopp z) = - SF2R z.
Proof.
  destruct z as [s|[]| |[] m e]; cbn [SFopp SF2R negb cond_Zopp];
    try rewrite opp_IZR; lra.
Qed.

Lemma Zfloor_div (a b : Z) : (0 < b)%Z -> Zfloor (IZR a / IZR b) = (a / b)%Z.
Proof.
  intros Hb. apply Zfloor_eq.
  pose proof (Z.div_mod a b ltac:(lia)) as Hdm.
  pose proof (Z.mod_pos_bound a b Hb) as [Hlo Hhi].
  assert (HB : 0 < IZR b) by (apply IZR_lt; lia).
  apply IZR_le in Hlo. apply IZR_lt in Hhi.
  apply (f_equal IZR) in Hdm. rewrite plus_IZR, mult_IZR in Hdm.
  split.
  - apply Rmult_le_reg_r with (IZR b); [exact HB|].
    replace (IZR a / IZR b * IZR b) with (IZR a) by (field; lra). lra.
  - apply Rmult_lt_reg_r with (IZR b); [exact HB|].
    replace (IZR a / IZR b * IZR b) with (IZR a) by (field; lra). nra.
Qed.

Lemma Zfloor_int_half (z : Z) : Zfloor (IZR z + / 2) = z.
Proof. apply Zfloor_eq. lra. Qed.

Lemma Math_round_value (x : float) :
  number_ok x ->
  number_ok (Math_round x) /\
  value (Math_round x) = IZR (Zfloor (value x + / 2)).
Proof.
  intros N. unfold Math_round, number_ok, value in *.
  pose proof (Prim2SF_valid x) as Hv.
  destruct (Prim2SF x) as [s|s| |s m e] eqn:E.
  - rewrite E. split; [discriminate|]. cbn [SF2R].
    rewrite (Zfloor_int_half 0). reflexivity.
  - rewrite E. split; [discriminate|]. cbn [SF2R].
    change emax with 1024%Z. rewrite bpow_IZR by lia.
    destruct s; [rewrite <- opp_IZR|]; rewrite Zfloor_int_half; reflexivity.
  - exfalso. apply N. reflexivity.
  - destruct (valid_finite s m e Hv) as (He & Hd & _).
    pose proof (digits2_bounds m) as [_ Hm].
    assert (Hm53 : (Z.pos m < 2 ^ 53)%Z).
    { apply Z.lt_le_trans with (2 ^ Z.pos (digits2_pos m))%Z; [exact Hm|].
      apply Z.pow_le_mono_r; lia. }
    destruct (Z.leb_spec 0 e) as [Hpos|Hneg].
    + rewrite E. split; [discriminate|]. cbn [SF2R].
      rewrite bpow_IZR, <- mult_IZR by lia.
      rewrite Zfloor_int_half. reflexivity.
    + set (M := cond_Zopp s (Z.pos m)).
      set (n := ((2 * M + 2 ^ (- e)) / 2 ^ (1 - e))%Z).
      assert (Hfloor : Zfloor (SF2R (S754_finite s m e) + / 2) = n).
      { cbn [SF2R]. fold M. unfold n.
        rewrite <- Zfloor_div by (apply Z.pow_pos_nonneg; lia).
        f_equal. rewrite plus_IZR, mult_IZR, <- !bpow_IZR by lia.
        replace (1 - e)%Z with (1 + - e)%Z by lia.
        rewrite bpow_plus, bpow_1, (bpow_opp e).
        pose proof (bpow_gt_0 e). field. lra. }
      rewrite Hfloor.
      assert (Hn : (- 2 ^ 53 < n < 2 ^ 53)%Z).
      { assert (HM : (- 2 ^ 53 < M < 2 ^ 53)%Z) by (unfold M; destruct s; cbn; lia).
        pose proof (Z.pow_pos_nonneg 2 (- e) ltac:(lia) ltac:(lia)) as Hp.
        assert (Hp2 : (2 ^ (1 - e) = 2 * 2 ^ (- e))%Z).
        { replace (1 - e)%Z with (Z.succ (- e)) by lia.
          rewrite Z.pow_succ_r by lia. reflexivity. }
        assert (Hp1 : (2 <= 2 ^ (- e))%Z).
        { replace (- e)%Z with (Z.succ (- e - 1)) by lia.
          rewrite Z.pow_succ_r by lia.
          pose proof (Z.pow_pos_nonneg 2 (- e - 1) ltac:(lia) ltac:(lia)). lia. }
        unfold n. rewrite Hp2. split.
        - apply Z.lt_le_trans with (- 2 ^ 53 + 1)%Z; [lia|].
          apply Z.div_le_lower_bound; [lia|]. nia.
        - apply Z.div_lt_upper_bound; [lia|]. nia. }
      destruct (Z.eqb_spec n 0) as [Hz|Hnz].
      * rewrite Hz. destruct s; split; try discriminate; reflexivity.
      * destruct (Z.ltb_spec 0 n) as [Hp|Hnp].
        -- apply of_uint63_value. lia.
        -- destruct (of_uint63_value (- n) ltac:(lia)) as [H1 H2].
           unfold number_ok, value in H1, H2.
           rewrite FloatAxioms.opp_spec. split.
           ++ destruct (Prim2SF (of_uint63 (Uint63.of_Z (- n)))); try discriminate.
              exfalso. apply H1. reflexivity.
           ++ rewrite SF2R_opp, H2, opp_IZR. ring.
Qed.

End MathRound.

Section FloatOrder.
Import JS Binary64.
Local Open Scope R_scope.

Lemma div_nonneg_monotone (x1 x2 y : float) (my : positive) (ey : Z) :
  Prim2SF y = S754_finite false my ey ->
  (0 <=? x1)%float = true -> (x1 <=? x2)%float = true ->
  (0 <=? x1 / y)%float = true /\ (x1 / y <=? x2 / y)%float = true.
Proof.
  intros Hy (_ & N1 & H0)%leb_true (_ & N2 & H12)%leb_true.
  rewrite value_zero in H0. unfold value, number_ok in *.
  destruct (SFdiv_nonneg_monotone (Prim2SF x1) (Prim2SF x2) my ey
              (Prim2SF_valid _) (Prim2SF_valid _) N1 N2 H0 H12)
    as (M1 & M2 & Hlo & Hhi).
  pose proof (FloatAxioms.div_spec x1 y) as D1. pose proof (FloatAxioms.div_spec x2 y) as D2.
  unfold SF64div in D1, D2. rewrite Hy in D1, D2. rewrite <- D1, <- D2 in *.
  split; apply leb_true; unfold number_ok, value; rewrite ?value_zero;
    repeat split; auto; discriminate.
Qed.

Lemma mul_nonneg_monotone (x1 x2 y : float) (my : positive) (ey : Z) :
  Prim2SF y = S754_finite false my ey ->
  (0 <=? x1)%float = true -> (x1 <=? x2)%float = true ->
  (0 <=? x1 * y)%float = true /\ (x1 * y <=? x2 * y)%float = true.
Proof.
  intros Hy (_ & N1 & H0)%leb_true (_ & N2 & H12)%leb_true.
  rewrite value_zero in H0. unfold value, number_ok in *.
  pose proof (Prim2SF_valid y) as Vy. rewrite Hy in Vy.
  destruct (SFmul_nonneg_monotone (Prim2SF x1) (Prim2SF x2) my ey
              (Prim2SF_valid _) (Prim2SF_valid _) Vy N1 N2 H0 H12)
    as (M1 & M2 & Hlo & Hhi).
  pose proof (FloatAxioms.mul_spec x1 y) as D1. pose proof (FloatAxioms.mul_spec x2 y) as D2.
  unfold SF64mul in D1, D2. rewrite Hy in D1, D2. rewrite <- D1, <- D2 in *.
  split; apply leb_true; unfold number_ok, value; rewrite ?value_zero;
    repeat split; auto; discriminate.
Qed.

Lemma Math_round_monotone (t1 t2 : float) :
  (t1 <=? t2)%float = true -> (Math_round t1 <=? Math_round t2)%float = true.
Proof.
  intros (N1 & N2 & H)%leb_true.
  destruct (Math_round_value t1 N1) as [M1 E1].
  destruct (Math_round_value t2 N2) as [M2 E2].
  apply leb_true. split; [exact M1|]. split; [exact M2|].
  rewrite E1, E2. apply IZR_le, Zfloor_le. lra.
Qed.

Lemma ltb_leb (x y : float) : (x <? y)%float = true -> (x <=? y)%float = true.
Proof.
  intros (N1 & N2 & H)%ltb_true. apply leb_true. repeat split; auto. lra.
Qed.

End FloatOrder.

Section Subtraction.
Import JS Binary64.
Local Open Scope R_scope.

(** What [rounds_to] says, as a value, for both signs. *)
Lemma rounds_to_signed (sx : bool) (V : R) (k : Z) (z : spec_float) :
  mag_of V k -> rounds_to sx (rounding V k) z ->
  is_number z /\ SF2R z = if sx then - RN V else RN V.
Proof.
  intros Hmag H.
  assert (HV : 0 < V).
  { destruct Hmag as [Hlo _]. pose proof (bpow_gt_0 (k - 1)). lra. }
  rewrite (mag_of_unique V k (mag V) Hmag (mag_spec V HV)) in H.
  pose proof (bpow_gt_0 emax) as HB.
  split; [destruct z; (discriminate || contradiction)|].
  unfold RN. destruct (Rle_dec V 0); [lra|].
  destruct z as [s|s| |s m e]; cbn [rounds_to SF2R] in *.
  - destruct H as [_ H]. rewrite H, Rmin_left by lra. destruct sx; lra.
  - destruct H as [-> H]. rewrite Rmin_right by exact H. reflexivity.
  - contradiction.
  - destruct H as (-> & H1 & H2). rewrite Rmin_left by lra.
    destruct sx; cbn [cond_Zopp]; [rewrite opp_IZR|]; lra.
Qed.

Lemma bra_signed (sx : bool) (mx ex : Z) (lx : location) (v : R) :
  (0 <= mx)%Z -> located mx lx v -> 0 < v ->
  (ex <= cexp (Zdigits2 mx + ex))%Z ->
  let z := binary_round_aux prec emax sx mx ex lx in
  is_number z /\ SF2R z = if sx then - RN (v * bpow ex) else RN (v * bpow ex).
Proof.
  intros Hm Hl Hv He z.
  assert (HV : 0 < v * bpow ex) by (pose proof (bpow_gt_0 ex); nra).
  apply (rounds_to_signed _ _ (mag (v * bpow ex))); [apply mag_spec, HV|].
  apply binary_round_aux_correct; auto. apply mag_spec, HV.
Qed.

Lemma binary_round_signed (s : bool) (p : positive) (e : Z) :
  let z := binary_round prec emax s p e in
  is_number z /\
  SF2R z = if s then - RN (IZR (Z.pos p) * bpow e) else RN (IZR (Z.pos p) * bpow e).
Proof.
  unfold binary_round, shl_align.
  fold (cexp (Z.pos (digits2_pos p) + e)).
  set (c := cexp (Z.pos (digits2_pos p) + e)).
  destruct (c - e)%Z as [|d|d] eqn:Ed.
  - apply (bra_signed s (Z.pos p) e loc_Exact (IZR (Z.pos p)));
      [lia | reflexivity | apply IZR_lt; lia |].
    cbn [Zdigits2]. fold c. lia.
  - apply (bra_signed s (Z.pos p) e loc_Exact (IZR (Z.pos p)));
      [lia | reflexivity | apply IZR_lt; lia |].
    cbn [Zdigits2]. fold c. lia.
  - replace (IZR (Z.pos p) * bpow e)
      with (IZR (Z.pos (PosDef.Pos.iter xO p d)) * bpow c).
    2:{ rewrite iter_xO, mult_IZR, <- bpow_IZR by lia.
        rewrite Rmult_assoc, <- bpow_plus. do 2 f_equal. lia. }
    apply bra_signed; [lia | reflexivity | apply IZR_lt; lia |].
    rewrite iter_xO, digits_shift by lia. cbn [Zdigits2].
    replace (Z.pos (digits2_pos p) + Z.pos d + c)%Z
      with (Z.pos (digits2_pos p) + e)%Z by lia.
    fold c. lia.
Qed.

(** The least positive number is a number. *)
Lemma RN_least : RN (bpow (-1074)) = bpow (-1074).
Proof.
  pose proof (bpow_gt_0 (-1074)) as H0.
  unfold RN. destruct (Rle_dec (bpow (-1074)) 0); [lra|].
  assert (Hm : mag (bpow (-1074)) = (-1073)%Z).
  { apply (mag_of_unique (bpow (-1074))); [apply mag_spec, H0|].
    split; [apply Rle_refl | apply bpow_lt; lia]. }
  rewrite Hm. unfold rounding. rewrite cexp_def.
  change (Z.max (-1073 - 53) (-1074)) with (-1074)%Z.
  rewrite <- bpow_plus. change (-1074 + - -1074)%Z with 0%Z.
  rewrite bpow_0, (rne_IZR 1), Rmult_1_l.
  apply Rmin_left, bpow_le. change emax with 1024%Z. lia.
Qed.

Lemma RN_positive (p : positive) (e : Z) :
  (-1074 <= e)%Z -> 0 < RN (IZR (Z.pos p) * bpow e).
Proof.
  intros He. pose proof (bpow_gt_0 (-1074)) as H0.
  apply Rlt_le_trans with (RN (bpow (-1074))); [rewrite RN_least; exact H0|].
  apply RN_monotone.
  apply Rle_trans with (1 * bpow e).
  - rewrite Rmult_1_l. apply bpow_le, He.
  - apply Rmult_le_compat_r; [pose proof (bpow_gt_0 e); lra|].
    apply IZR_le. lia.
Qed.

Lemma Rcmp_0 (a : R) :
  Rcmp a 0 = if Rlt_dec a 0 then Lt else if Rlt_dec 0 a then Gt else Eq.
Proof. reflexivity. Qed.

(** The sign of the number [binary_normalize] makes of an integer. *)
Lemma binary_normalize_sign (m e : Z) (sz : bool) :
  (-1074 <= e)%Z ->
  let z := binary_normalize prec emax m e sz in
  is_number z /\ Rcmp (SF2R z) 0 = Rcmp (IZR m) 0.
Proof.
  intros He. destruct m as [|p|p]; cbn [binary_normalize].
  - split; [discriminate | reflexivity].
  - destruct (binary_round_signed false p e) as [N E].
    split; [exact N|]. rewrite E.
    pose proof (RN_positive p e He).
    assert (0 < IZR (Z.pos p)) by (apply IZR_lt; lia).
    rewrite !Rcmp_Gt; [reflexivity | lra | lra].
  - destruct (binary_round_signed true p e) as [N E].
    split; [exact N|]. rewrite E.
    pose proof (RN_positive p e He).
    assert (IZR (Z.neg p) < 0) by (apply IZR_lt; lia).
    rewrite !Rcmp_Lt; [reflexivity | lra | lra].
Qed.

Lemma shl_align_fst (mx : positive) (ex ez : Z) :
  (ez <= ex)%Z ->
  Z.pos (fst (shl_align mx ex ez)) = (Z.pos mx * 2 ^ (ex - ez))%Z.
Proof.
  intros H. unfold shl_align. destruct (ez - ex)%Z as [|d|d] eqn:E.
  - replace (ex - ez)%Z with 0%Z by lia. cbn [fst]. lia.
  - lia.
  - cbn [fst]. rewrite iter_xO. do 2 f_equal. lia.
Qed.

Lemma aligned_value (s : bool) (m : positive) (e ez : Z) :
  (ez <= e)%Z ->
  IZR (cond_Zopp s (Z.pos (fst (shl_align m e ez)))) * bpow ez =
  SF2R (S754_finite s m e).
Proof.
  intros H. rewrite shl_align_fst by exact H. cbn [SF2R].
  replace (cond_Zopp s (Z.pos m * 2 ^ (e - ez)))
    with (cond_Zopp s (Z.pos m) * 2 ^ (e - ez))%Z by (destruct s; cbn; lia).
  rewrite mult_IZR, <- bpow_IZR by lia.
  rewrite Rmult_assoc, <- bpow_plus. do 2 f_equal. lia.
Qed.

Lemma Rcmp_scale (a c : R) : 0 < c -> Rcmp (a * c) 0 = Rcmp a 0.
Proof.
  intros Hc. unfold Rcmp.
  destruct (Rlt_dec a 0), (Rlt_dec (a * c) 0); try reflexivity; try nra.
  destruct (Rlt_dec 0 a), (Rlt_dec 0 (a * c)); try reflexivity; nra.
Qed.

Lemma Rcmp_minus (a b : R) : Rcmp (a - b) 0 = Rcmp a b.
Proof.
  unfold Rcmp.
  destruct (Rlt_dec (a - b) 0), (Rlt_dec a b); try reflexivity; try lra.
  destruct (Rlt_dec 0 (a - b)), (Rlt_dec b a); try reflexivity; lra.
Qed.

(** The difference of two finite numbers has the sign of the difference of
    the reals: no difference of distinct numbers is rounded to zero. *)
Lemma SFsub_finite_sign (sx sy : bool) (mx my : positive) (ex ey : Z) :
  valid_binary (S754_finite sx mx ex) = true ->
  valid_binary (S754_finite sy my ey) = true ->
  let z := SFsub prec emax (S754_finite sx mx ex) (S754_finite sy my ey) in
  is_number z /\
  Rcmp (SF2R z) 0 =
  Rcmp (SF2R (S754_finite sx mx ex)) (SF2R (S754_finite sy my ey)).
Proof.
  intros (Hex & _)%valid_finite (Hey & _)%valid_finite.
  cbn [SFsub]. set (ez := Z.min ex ey).
  destruct (binary_normalize_sign
              (cond_Zopp sx (Z.pos (fst (shl_align mx ex ez))) -
               cond_Zopp sy (Z.pos (fst (shl_align my ey ez)))) ez false)
    as [N E]; [unfold ez; lia|].
  split; [exact N|]. rewrite E.
  rewrite <- (Rcmp_scale _ (bpow ez) (bpow_gt_0 ez)).
  rewrite minus_IZR, Rmult_minus_distr_r.
  rewrite !aligned_value by (unfold ez; lia).
  apply Rcmp_minus.
Qed.

Lemma SFsub_sign (x y : spec_float) :
  valid_binary x = true -> valid_binary y = true ->
  is_number x -> is_number y ->
  (SFsub prec emax x y = S754_nan /\ SF2R x = SF2R y) \/
  (is_number (SFsub prec emax x y) /\
   Rcmp (SF2R (SFsub prec emax x y)) 0 = Rcmp (SF2R x) (SF2R y)).
Proof.
  intros Vx Vy Nx Ny. pose proof (bpow_gt_0 emax) as HB.
  destruct x as [sx|sx| |sx mx ex]; [| | exfalso; apply Nx; reflexivity |];
  (destruct y as [sy|sy| |sy my ey]; [| | exfalso; apply Ny; reflexivity |]).
  - right. split; [destruct sx, sy; discriminate|].
    destruct sx, sy; reflexivity.
  - right. split; [discriminate|]. cbn [SFsub SF2R].
    destruct sy; cbn [negb]; [rewrite (Rcmp_Gt _ 0), (Rcmp_Gt 0) | rewrite (Rcmp_Lt _ 0), (Rcmp_Lt 0)];
      (reflexivity || lra).
  - right. split; [discriminate|]. cbn [SFsub].
    rewrite <- (Rcmp_minus (SF2R (S754_zero sx))).
    replace (SF2R (S754_zero sx) - SF2R (S754_finite sy my ey))
      with (SF2R (S754_finite (negb sy) my ey)); [reflexivity|].
    cbn [SF2R]. destruct sy; cbn [negb cond_Zopp]; rewrite ?opp_IZR; lra.
  - right. split; [discriminate|]. reflexivity.
  - destruct sx, sy; cbn [SFsub SF2R];
      try (left; split; reflexivity); right; (split; [discriminate|]).
    + rewrite (Rcmp_Lt _ 0), (Rcmp_Lt (- _)); (reflexivity || lra).
    + rewrite (Rcmp_Gt _ 0), (Rcmp_Gt _ (- _)); (reflexivity || lra).
  - right. split; [discriminate|]. cbn [SFsub].
    pose proof (valid_lt_emax sy my ey Vy) as Hy. pose proof (pos_value my ey).
    cbn [SF2R]. destruct sx, sy; cbn [cond_Zopp]; rewrite ?opp_IZR.
    all: try (rewrite (Rcmp_Lt _ 0), (Rcmp_Lt (- _)); (reflexivity || lra)).
    all: rewrite (Rcmp_Gt _ 0), (Rcmp_Gt (bpow _)); (reflexivity || lra).
  - right. split; [discriminate|]. cbn [SFsub]. reflexivity.
  - right. split; [discriminate|]. cbn [SFsub].
    pose proof (valid_lt_emax sx mx ex Vx) as Hx. pose proof (pos_value mx ex).
    cbn [SF2R]. destruct sx, sy; cbn [negb cond_Zopp]; rewrite ?opp_IZR.
    all: try (rewrite (Rcmp_Gt _ 0), (Rcmp_Gt _ (- _)); (reflexivity || lra)).
    all: rewrite (Rcmp_Lt _ 0), (Rcmp_Lt _ (bpow _)); (reflexivity || lra).
  - right. apply SFsub_finite_sign; assumption.
Qed.

End Subtraction.

Section Difference.
Import JS Binary64.
Local Open Scope R_scope.

Lemma eqb_true (x y : float) :
  (x =? y)%float = true <-> number_ok x /\ number_ok y /\ value x = value y.
Proof.
  rewrite FloatAxioms.eqb_spec. unfold SFeqb. split.
  - destruct (SFcompare (Prim2SF x) (Prim2SF y)) as [c|] eqn:E; [|discriminate].
    destruct (compare_number x y c E) as [Nx Ny]. intros H.
    split; [exact Nx|]. split; [exact Ny|].
    rewrite (SFcompare_value _ _ (Prim2SF_valid x) (Prim2SF_valid y) Nx Ny) in E.
    injection E as <-. unfold value, Rcmp in *.
    destruct (Rlt_dec _ _); [discriminate|].
    destruct (Rlt_dec _ _); [discriminate | lra].
  - intros (Nx & Ny & H).
    rewrite (SFcompare_value _ _ (Prim2SF_valid x) (Prim2SF_valid y) Nx Ny).
    unfold value in H. rewrite H, Rcmp_refl. reflexivity.
Qed.

Lemma eqb_common (x y k : float) :
  (x =? k)%float = true -> (y =? k)%float = true -> (x =? y)%float = true.
Proof.
  rewrite !eqb_true. intros (Nx & _ & E1) (Ny & _ & E2).
  split; [exact Nx|]. split; [exact Ny | lra].
Qed.

(** The difference of two numbers is NaN only for two infinities of one
    sign; otherwise it is below, at or above zero as the first number is
    below, at or above the second. *)
Lemma sub_sign (a b : float) :
  number_ok a -> number_ok b ->
  (is_nan (a - b) = true /\ value a = value b) \/
  (number_ok (a - b) /\ Rcmp (value (a - b)) 0 = Rcmp (value a) (value b)).
Proof.
  intros Na Nb. unfold number_ok, value in *.
  pose proof (FloatAxioms.sub_spec a b) as S. unfold SF64sub in S.
  destruct (SFsub_sign _ _ (Prim2SF_valid a) (Prim2SF_valid b) Na Nb)
    as [[E1 E2]|[N E]].
  - left. split; [|exact E2]. apply is_nan_true. rewrite S. exact E1.
  - right. rewrite S. split; assumption.
Qed.

Lemma Rcmp_iff (x a b : R) :
  Rcmp x 0 = Rcmp a b ->
  (0 < x <-> b < a) /\ (x < 0 <-> a < b) /\ (x = 0 <-> a = b).
Proof.
  unfold Rcmp.
  destruct (Rlt_dec x 0), (Rlt_dec 0 x), (Rlt_dec a b), (Rlt_dec b a);
    try discriminate; intros _; repeat split; intros; lra.
Qed.

Lemma SortCompare_number {A : Type} (comparefn : A -> A -> number) (x y : A) :
  is_nan (SortCompare comparefn x y) = false.
Proof.
  unfold SortCompare. cbv zeta.
  destruct (is_nan (comparefn x y)) eqn:E; [reflexivity | exact E].
Qed.

End Difference.

(** ** [Array.prototype.sort] *)

Section SortPermutation.
Import JS.

Lemma sort_insert_permutes {A : Type} (comparator : A -> A -> number)
    (a : A) (l : list A) :
  Permutation (a :: l) (sort_insert comparator a l).
Proof.
  induction l as [|b l IH]; cbn [sort_insert]; [reflexivity|].
  destruct (gt_C comparator a b); [|reflexivity].
  rewrite perm_swap. apply perm_skip, IH.
Qed.

(** Whatever the comparator, the sorted array holds the elements it held. *)
Lemma Array_sort_permutes {A : Type} (engine : Engine)
    (comparefn : A -> A -> number) (items : list A) :
  Permutation items (Array_sort engine comparefn items).
Proof.
  unfold Array_sort.
  destruct (consistent (SortCompare comparefn) items);
    [|apply sort_order_permutes].
  induction items as [|a l IH]; cbn [fold_right]; [reflexivity|].
  rewrite <- sort_insert_permutes. apply perm_skip, IH.
Qed.

End SortPermutation.

(** ** Sorting by a key *)

Section SortByKey.
Import JS Binary64.
Context {A : Type}.
Variable key : A -> number.

Local Open Scope R_scope.

Local Abbreviation by_key := (SortCompare (fun a b : A => (key a - key b)%float)).

(** The comparator of the ranking on two elements whose keys are numbers. *)
Lemma by_key_sign (a b : A) :
  number_ok (key a) -> number_ok (key b) ->
  (gt_C by_key a b = true <-> value (key b) < value (key a)) /\
  (lt_C by_key a b = true <-> value (key a) < value (key b)) /\
  (eq_C by_key a b = true <-> value (key a) = value (key b)).
Proof.
  intros Na Nb. unfold gt_C, lt_C, eq_C, SortCompare. cbv zeta.
  destruct (sub_sign (key a) (key b) Na Nb) as [[E1 E2]|[N E]].
  - rewrite E1, E2.
    change (0 <? zero)%float with false. change (zero <? 0)%float with false.
    change (zero =? 0)%float with true.
    repeat split; intros; (discriminate || lra || reflexivity).
  - pose proof N as N'. apply is_nan_false in N'. rewrite N'.
    rewrite !ltb_true, eqb_true, value_zero.
    assert (N0 : number_ok 0%float) by (apply is_nan_false; reflexivity).
    destruct (Rcmp_iff _ _ _ E) as (H1 & H2 & H3).
    rewrite <- H1, <- H2, <- H3. tauto.
Qed.

Local Abbreviation numbers := (Forall (fun x : A => number_ok (key x))).
Local Abbreviation le_key := (fun x y : A => (key x <=? key y)%float = true).
Local Abbreviation stable_sort := (fold_right (sort_insert by_key) []).

Lemma by_key_le (a b : A) :
  number_ok (key a) -> number_ok (key b) ->
  gt_C by_key a b = false <-> le_key a b.
Proof.
  intros Na Nb. destruct (by_key_sign a b Na Nb) as (H & _).
  rewrite leb_true. destruct (gt_C by_key a b).
  - split; [discriminate|]. intros (_ & _ & Hle). exfalso.
    apply (Rlt_not_le _ _ (proj1 H eq_refl) Hle).
  - split; [|reflexivity]. intros _. split; [exact Na|]. split; [exact Nb|].
    apply Rnot_lt_le. intros Hlt. apply H in Hlt. discriminate.
Qed.

Lemma le_key_trans (a b c : A) : le_key a b -> le_key b c -> le_key a c.
Proof.
  rewrite !leb_true. intros (Na & _ & H1) (_ & Nc & H2).
  split; [exact Na|]. split; [exact Nc | lra].
Qed.

(** Without a NaN key the comparator of the ranking is consistent. *)
Lemma by_key_consistent (l : list A) : numbers l -> consistent by_key l = true.
Proof.
  intros Hn. rewrite List.Forall_forall in Hn. unfold consistent.
  apply forallb_forall. intros a Ha%Hn.
  apply andb_true_iff. split; [apply (by_key_sign a a Ha Ha); reflexivity|].
  apply forallb_forall. intros b Hb%Hn.
  destruct (by_key_sign a b Ha Hb) as (Gab & Lab & Eab).
  destruct (by_key_sign b a Hb Ha) as (_ & _ & Eba).
  rewrite !andb_true_iff. split; [split|].
  - rewrite SortCompare_number. reflexivity.
  - apply Bool.implb_true_iff. rewrite Eab, Eba. intros ->. reflexivity.
  - apply forallb_forall. intros c Hc%Hn.
    destruct (by_key_sign b c Hb Hc) as (Gbc & Lbc & Ebc).
    destruct (by_key_sign a c Ha Hc) as (Gac & Lac & Eac).
    rewrite !andb_true_iff, !Bool.implb_true_iff, !andb_true_iff.
    rewrite Gab, Lab, Eab, Gbc, Lbc, Ebc, Gac, Lac, Eac.
    repeat split; intros [? ?]; (congruence || lra).
Qed.

Lemma sort_insert_numbers (a : A) (l : list A) :
  number_ok (key a) -> numbers l -> numbers (sort_insert by_key a l).
Proof.
  intros Na Hn. eapply Permutation_Forall; [apply sort_insert_permutes|].
  constructor; assumption.
Qed.

Lemma stable_sort_permutes (l : list A) : Permutation l (stable_sort l).
Proof.
  induction l as [|a l IH]; cbn [fold_right]; [reflexivity|].
  rewrite <- sort_insert_permutes. apply perm_skip, IH.
Qed.

Lemma sort_insert_sorted (a : A) (l : list A) :
  number_ok (key a) -> numbers l ->
  StronglySorted le_key l -> StronglySorted le_key (sort_insert by_key a l).
Proof.
  intros Na Hn Hs. induction Hs as [|b l Hl IH Hb]; cbn [sort_insert].
  - constructor; constructor.
  - apply Forall_cons_iff in Hn as [Nb Hn].
    destruct (gt_C by_key a b) eqn:G.
    + constructor; [apply IH, Hn|].
      eapply Permutation_Forall; [apply sort_insert_permutes|].
      constructor; [|exact Hb].
      apply (by_key_sign a b Na Nb) in G. apply leb_true.
      split; [exact Nb|]. split; [exact Na | lra].
    + apply (by_key_le a b Na Nb) in G.
      constructor; [constructor; assumption|].
      constructor; [exact G|].
      eapply List.Forall_impl; [|exact Hb]. cbv beta. intros c Hc.
      apply (le_key_trans a b c G Hc).
Qed.

Lemma stable_sort_sorted (l : list A) :
  numbers l -> StronglySorted le_key (stable_sort l).
Proof.
  induction l as [|a l IH]; cbn [fold_right]; intros Hn; [constructor|].
  apply Forall_cons_iff in Hn as [Na Hn].
  apply sort_insert_sorted; [exact Na | | apply IH, Hn].
  eapply Permutation_Forall; [apply stable_sort_permutes | exact Hn].
Qed.

(** The elements of one key keep their order. *)
Lemma sort_insert_stable (k : number) (a : A) (l : list A) :
  number_ok (key a) -> numbers l ->
  List.filter (fun x => (key x =? k)%float) (sort_insert by_key a l) =
  List.filter (fun x => (key x =? k)%float) (a :: l).
Proof.
  intros Na Hn. induction l as [|b l IH]; [reflexivity|].
  apply Forall_cons_iff in Hn as [Nb Hn].
  cbn [sort_insert]. destruct (gt_C by_key a b) eqn:G; [|reflexivity].
  apply (by_key_sign a b Na Nb) in G.
  cbn [List.filter] in *. rewrite (IH Hn).
  destruct (key a =? k)%float eqn:Ea, (key b =? k)%float eqn:Eb; try reflexivity.
  apply eqb_true in Ea as (_ & _ & Ea). apply eqb_true in Eb as (_ & _ & Eb).
  lra.
Qed.

Lemma stable_sort_stable (k : number) (l : list A) :
  numbers l ->
  List.filter (fun x => (key x =? k)%float) (stable_sort l) =
  List.filter (fun x => (key x =? k)%float) l.
Proof.
  induction l as [|a l IH]; intros Hn; [reflexivity|].
  apply Forall_cons_iff in Hn as [Na Hn].
  cbn [fold_right]. rewrite sort_insert_stable.
  - cbn [List.filter]. rewrite (IH Hn). reflexivity.
  - exact Na.
  - eapply Permutation_Forall; [apply stable_sort_permutes | exact Hn].
Qed.

(** The first element of the sorted array is the first of the least key. *)
Lemma stable_sort_head (a : A) (l : list A) :
  numbers (a :: l) ->
  exists x l1 l2,
    head (stable_sort (a :: l)) = Some x /\
    a :: l = l1 ++ x :: l2 /\
    Forall (fun y => (key x <? key y)%float = true) l1 /\
    Forall (fun y => (key x <=? key y)%float = true) l2.
Proof.
  revert a. induction l as [|b l IH]; intros a Hn.
  - exists a, [], []. repeat split; constructor.
  - apply Forall_cons_iff in Hn as [Na Hn].
    destruct (IH b Hn) as (x & l1 & l2 & Hx & E & H1 & H2).
    assert (Nx : number_ok (key x)).
    { rewrite List.Forall_forall in Hn. apply Hn. rewrite E.
      apply in_elt. }
    change (stable_sort (a :: b :: l))
      with (sort_insert by_key a (stable_sort (b :: l))).
    destruct (stable_sort (b :: l)) as [|x' s]; [discriminate Hx|].
    injection Hx as ->. cbn [sort_insert].
    destruct (gt_C by_key a x) eqn:G.
    + exists x, (a :: l1), l2. split; [reflexivity|].
      split; [cbn [app]; rewrite E; reflexivity|].
      split; [|exact H2]. constructor; [|exact H1].
      apply (by_key_sign a x Na Nx) in G. apply ltb_true. auto.
    + apply (by_key_le a x Na Nx) in G.
      exists a, [], (b :: l). split; [reflexivity|].
      split; [reflexivity|]. split; [constructor|].
      rewrite E. apply Forall_app. split.
      * eapply List.Forall_impl; [|exact H1]. cbv beta. intros y Hy.
        apply (le_key_trans a x y G). apply ltb_leb, Hy.
      * constructor; [exact G|].
        eapply List.Forall_impl; [|exact H2]. cbv beta. intros y Hy.
        apply (le_key_trans a x y G Hy).
Qed.

Lemma eqb_self (x : float) : number_ok x -> (x =? x)%float = true.
Proof. intros N. apply eqb_true. auto. Qed.

Lemma sorted_head_least (a : A) (l : list A) (x : A) :
  number_ok (key a) ->
  StronglySorted le_key (a :: l) -> In x (a :: l) -> le_key a x.
Proof.
  intros Na Hs Hin. apply StronglySorted_inv in Hs as [_ Hall].
  destruct Hin as [<-|Hin].
  - apply leb_true. split; [exact Na|]. split; [exact Na | lra].
  - rewrite List.Forall_forall in Hall. apply Hall, Hin.
Qed.

Lemma filter_key_In (x : A) (l1 l2 : list A) :
  number_ok (key x) ->
  List.filter (fun y => (key y =? key x)%float) l1 =
  List.filter (fun y => (key y =? key x)%float) l2 ->
  In x l1 -> In x l2.
Proof.
  intros Nx E Hin.
  assert (H : In x (List.filter (fun y => (key y =? key x)%float) l1)).
  { apply List.filter_In. split; [exact Hin | apply eqb_self, Nx]. }
  rewrite E in H. apply List.filter_In in H. tauto.
Qed.

(** Two sorted arrays that keep the elements of each key in one order are
    the same array. *)
Lemma sorted_same_order_eq (l1 l2 : list A) :
  numbers l1 -> numbers l2 ->
  StronglySorted le_key l1 -> StronglySorted le_key l2 ->
  (forall k : number,
     List.filter (fun y => (key y =? k)%float) l1 =
     List.filter (fun y => (key y =? k)%float) l2) ->
  l1 = l2.
Proof.
  revert l2. induction l1 as [|a l1 IH]; intros l2 N1 N2 H1 H2 E.
  - destruct l2 as [|b l2]; [reflexivity|].
    apply Forall_cons_iff in N2 as [Nb _].
    specialize (E (key b)). cbn [List.filter] in E.
    rewrite (eqb_self _ Nb) in E. discriminate E.
  - apply Forall_cons_iff in N1 as [Na N1].
    destruct l2 as [|b l2].
    + specialize (E (key a)). cbn [List.filter] in E.
      rewrite (eqb_self _ Na) in E. discriminate E.
    + apply Forall_cons_iff in N2 as [Nb N2].
      assert (Hab : (key b =? key a)%float = true).
      { apply eqb_true. split; [exact Nb|]. split; [exact Na|].
        assert (Hba : le_key b a).
        { apply (sorted_head_least b l2 a Nb H2).
          apply (filter_key_In a (a :: l1));
            [exact Na | apply E | left; reflexivity]. }
        assert (Hab : le_key a b).
        { apply (sorted_head_least a l1 b Na H1).
          apply (filter_key_In b (b :: l2));
            [exact Nb | symmetry; apply E | left; reflexivity]. }
        apply leb_true in Hba as (_ & _ & Hba).
        apply leb_true in Hab as (_ & _ & Hab). lra. }
      pose proof (E (key a)) as Ea. cbn [List.filter] in Ea.
      rewrite (eqb_self _ Na), Hab in Ea. injection Ea as -> Ea.
      f_equal. apply IH.
      * exact N1.
      * exact N2.
      * apply StronglySorted_inv in H1. tauto.
      * apply StronglySorted_inv in H2. tauto.
      * intros k. specialize (E k). cbn [List.filter] in E.
        destruct (key b =? k)%float; [injection E as E|]; exact E.
Qed.

(** Without a NaN key ECMAScript fixes the sorted array. *)
Lemma Array_sort_by_key (engine : Engine) (l : list A) :
  numbers l ->
  Array_sort engine (fun a b => (key a - key b)%float) l = stable_sort l.
Proof.
  intros Hn. unfold Array_sort. rewrite (by_key_consistent l Hn). reflexivity.
Qed.

End SortByKey.

Section SortMap.
Import JS Binary64.
Context {A B : Type}.
Variable f : A -> B.
Variable key : B -> number.

Local Abbreviation by_key := (SortCompare (fun a b : B => (key a - key b)%float)).
Local Abbreviation by_key_f :=
  (SortCompare (fun a b : A => (key (f a) - key (f b))%float)).

(** Sorting the images by their keys is sorting by the keys of the
    images. *)
Lemma sort_insert_map (a : A) (l : list A) :
  sort_insert by_key (f a) (map f l) = map f (sort_insert by_key_f a l).
Proof.
  induction l as [|b l IH]; [reflexivity|].
  cbn [map sort_insert]. unfold gt_C, SortCompare. cbv zeta beta.
  destruct (0 <? _)%float; [|reflexivity].
  cbn [map]. f_equal. exact IH.
Qed.

Lemma stable_sort_map (l : list A) :
  fold_right (sort_insert by_key) [] (map f l) =
  map f (fold_right (sort_insert by_key_f) [] l).
Proof.
  induction l as [|a l IH]; [reflexivity|].
  cbn [map fold_right]. rewrite IH. apply sort_insert_map.
Qed.

End SortMap.

(** ** The scorer *)

Section ScorerProperties.
Import JS Binary64 Scorer.
Local Open Scope float_scope.

Lemma findRecommendedHospital_cons (engine : Engine) (h : Hospital)
    (l : list Hospital) (u : UserLocation) :
  exists x, findRecommendedHospital engine (h :: l) (Some u) = Return (Some x).
Proof.
  cbn [findRecommendedHospital]. unfold hospitalsWithScores.
  pose proof (Array_sort_permutes engine (fun a b => score a - score b)
                (map (withScore engine u) (h :: l))) as P.
  destruct (Array_sort engine _ _) as [|x s].
  - symmetry in P. apply Permutation_nil in P. discriminate P.
  - exists x. reflexivity.
Qed.

Lemma eqb_nan (x y : float) : is_nan x = true -> (x =? y) = false.
Proof.
  intros H%is_nan_true. rewrite FloatAxioms.eqb_spec, H. reflexivity.
Qed.

(** The distance from the user of the example to the antipode, on an engine
    that rounds correctly there: the term [a] is above 1 and [1 - a] has no
    square root. *)
Lemma far_distance (engine : Engine) :
  rounds_at_sample engine ->
  haversine_a engine (-8) (-90) 8 90 = 0x1.0000000000001p+0 /\
  calculateDistance engine (-8) (-90) 8 90 = nan.
Proof.
  intros (H1 & H2 & H3 & H4).
  assert (Ha : haversine_a engine (-8) (-90) 8 90 = 0x1.0000000000001p+0).
  { unfold haversine_a, Math_sin, Math_cos.
    change (((8 - -8) * Math_PI / 180) / 2) with 0x1.1df46a2529d39p-3.
    change (((90 - -90) * Math_PI / 180) / 2) with 0x1.921fb54442d18p+0.
    change (-8 * Math_PI / 180) with (-0x1.1df46a2529d39p-3).
    change (8 * Math_PI / 180) with 0x1.1df46a2529d39p-3.
    cbn [orb]. vm_compute is_nan. cbn.
    rewrite H1, H2, H3, H4. reflexivity. }
  split; [exact Ha|].
  unfold calculateDistance. cbv zeta. rewrite Ha. reflexivity.
Qed.

Lemma near_distance (engine : Engine) :
  rounds_at_sample engine ->
  calculateDistance engine (-8) (-90) (-8) (-90) = 0.
Proof.
  intros (H1 & H2 & H3 & H4).
  unfold calculateDistance, haversine_a, Math_sin, Math_cos. cbv zeta.
  change (((-8 - -8) * Math_PI / 180) / 2) with 0.
  change (((-90 - -90) * Math_PI / 180) / 2) with 0.
  change (-8 * Math_PI / 180) with (-0x1.1df46a2529d39p-3).
  cbn. rewrite H4. reflexivity.
Qed.

End ScorerProperties.

Section ScorerTheorems.
Import JS Binary64 Scorer.
Local Open Scope float_scope.

Lemma withScore_far (engine : Engine) (wait : number) :
  rounds_at_sample engine ->
  withScore engine south (far wait) =
  {| hospital := far wait; score := nan + wait; travel_time := nan |}.
Proof.
  intros H. unfold withScore.
  cbn [user_latitude user_longitude south latitude longitude far
       current_wait_time].
  rewrite (proj2 (far_distance engine H)). reflexivity.
Qed.

Lemma withScore_near (engine : Engine) (wait : number) :
  rounds_at_sample engine ->
  withScore engine south (near wait) =
  {| hospital := near wait; score := 0 + wait; travel_time := 0 |}.
Proof.
  intros H. unfold withScore.
  cbn [user_latitude user_longitude south latitude longitude near
       current_wait_time].
  rewrite (near_distance engine H). reflexivity.
Qed.

(** C1, at the failing input.  The user is at 8 degrees south, 90 degrees
    west; the first hospital is at the antipode and waits 10 minutes, the
    second is at the user's own position and waits 5.  The distance to the
    first is NaN, so is its score, the comparator returns NaN and the sort
    leaves the array as it is: the hospital returned is the first, whose
    score is not less than or equal to the score 5 of the second. *)
Theorem findRecommendedHospital_nan_first (engine : Engine) :
  rounds_at_sample engine ->
  findRecommendedHospital engine [far 10; near 5] (Some south) =
    Return (Some (withScore engine south (far 10))) /\
  is_nan (score (withScore engine south (far 10))) = true /\
  score (withScore engine south (near 5)) = 5 /\
  (score (withScore engine south (far 10)) <=?
   score (withScore engine south (near 5))) = false.
Proof.
  intros H. cbn [findRecommendedHospital]. unfold hospitalsWithScores.
  cbn [map]. rewrite (withScore_far engine 10 H), (withScore_near engine 5 H).
  unfold Array_sort.
  replace (consistent _ _) with true by (vm_compute; reflexivity).
  repeat split; reflexivity.
Qed.

Lemma findRecommendedHospital_nan_first_witness :
  findRecommendedHospital sample_engine [far 10; near 5] (Some south) =
    Return (Some (withScore sample_engine south (far 10))) /\
  is_nan (score (withScore sample_engine south (far 10))) = true /\
  score (withScore sample_engine south (near 5)) = 5 /\
  (score (withScore sample_engine south (far 10)) <=?
   score (withScore sample_engine south (near 5))) = false.
Proof.
  apply (findRecommendedHospital_nan_first sample_engine).
  repeat split; reflexivity.
Defined.

(** C2, at the failing input of C1.  The array [hospitalsWithScores] after
    its sort holds the NaN score before the score 5: it is not in ascending
    order of score. *)
Theorem hospitalsWithScores_nan_unsorted (engine : Engine) :
  rounds_at_sample engine ->
  map score (hospitalsWithScores engine [far 10; near 5] south) = [nan; 5] /\
  ~ StronglySorted (fun x y => (score x <=? score y) = true)
      (hospitalsWithScores engine [far 10; near 5] south).
Proof.
  intros H.
  assert (E : hospitalsWithScores engine [far 10; near 5] south =
              [withScore engine south (far 10); withScore engine south (near 5)]).
  { unfold hospitalsWithScores. cbn [map].
    rewrite (withScore_far engine 10 H), (withScore_near engine 5 H).
    unfold Array_sort.
    replace (consistent _ _) with true by (vm_compute; reflexivity).
    reflexivity. }
  rewrite E, (withScore_far engine 10 H), (withScore_near engine 5 H).
  split; [reflexivity|].
  intros S. apply StronglySorted_inv in S as [_ S].
  apply Forall_inv in S. cbn [score] in S. vm_compute in S. discriminate S.
Qed.

Lemma hospitalsWithScores_nan_unsorted_witness :
  map score (hospitalsWithScores sample_engine [far 10; near 5] south) =
    [nan; 5] /\
  ~ StronglySorted (fun x y => (score x <=? score y) = true)
      (hospitalsWithScores sample_engine [far 10; near 5] south).
Proof.
  apply (hospitalsWithScores_nan_unsorted sample_engine).
  repeat split; reflexivity.
Defined.

(** C3, as stated: on an empty list the scorer raises [EmptyInput].  It does
    not: the call returns [null]. *)
Lemma findRecommendedHospital_empty_no_error :
  findRecommendedHospital sample_engine [] (Some scenario_user) = Return None /\
  ~ raises "EmptyInput"
      (findRecommendedHospital sample_engine [] (Some scenario_user)).
Proof. split; [reflexivity | discriminate]. Qed.

(** C3, amended.  [findRecommendedHospital] never raises: it returns [null]
    exactly when the hospital list is empty or the user location is missing,
    and a scored hospital otherwise.  The ranking is internal to it; the
    caller sees the recommendation or [null]. *)
Theorem findRecommendedHospital_null_iff (engine : Engine)
    (hospitalList : list Hospital) (userLoc : option UserLocation) :
  exists r : option HospitalWithScore,
    findRecommendedHospital engine hospitalList userLoc = Return r /\
    (r = None <-> hospitalList = [] \/ userLoc = None).
Proof.
  destruct userLoc as [u|].
  - destruct hospitalList as [|h l].
    + exists None. split; [reflexivity|]. split; auto.
    + destruct (findRecommendedHospital_cons engine h l u) as (x & E).
      exists (Some x). split; [exact E|].
      split; [discriminate|]. intros [?|?]; discriminate.
  - exists None. split; [destruct hospitalList; reflexivity|]. split; auto.
Qed.

(** C8, as stated: the travel time is the whole minute nearest to
    [d / 40 * 60].  At [d = 6.999999999999999] the quotient is below 10.5,
    the two roundings of the division and the multiplication make it 10.5,
    and the result is 11. *)
Lemma calculateTravelTime_not_nearest :
  calculateTravelTime 0x1.bffffffffffffp+2 = 11 /\
  (value 0x1.bffffffffffffp+2 / 40 * 60 < 11 - / 2)%R.
Proof.
  split; [reflexivity|].
  change (value 0x1.bffffffffffffp+2)
    with (IZR 7881299347898367 * bpow (-50))%R.
  replace (bpow (-50)) with (/ IZR (2 ^ 50))%R.
  2:{ rewrite <- bpow_IZR by lia. symmetry. apply (bpow_opp 50). }
  change (2 ^ 50)%Z with 1125899906842624%Z. lra.
Qed.

(** C8, amended.  [calculateTravelTime] computes [(d / 40) * 60] in binary64
    and returns the whole number nearest to that double, a tie going up; it
    is monotone on the distances that are not below zero. *)
Theorem calculateTravelTime_rounds_monotone (d1 d2 : number) :
  (0 <=? d1) = true -> (d1 <? d2) = true ->
  value (calculateTravelTime d1) =
    IZR (Zfloor (value (d1 / 40 * 60) + / 2)) /\
  value (calculateTravelTime d2) =
    IZR (Zfloor (value (d2 / 40 * 60) + / 2)) /\
  (calculateTravelTime d1 <=? calculateTravelTime d2) = true.
Proof.
  intros H0 H12%ltb_leb. unfold calculateTravelTime. cbv zeta.
  destruct (div_nonneg_monotone d1 d2 40 _ _ eq_refl H0 H12) as [Hq0 Hq].
  destruct (mul_nonneg_monotone _ _ 60 _ _ eq_refl Hq0 Hq) as [Hm0 Hm].
  pose proof Hm as (N1 & N2 & _)%leb_true.
  split; [apply Math_round_value, N1|].
  split; [apply Math_round_value, N2|].
  apply Math_round_monotone, Hm.
Qed.

Lemma calculateTravelTime_rounds_monotone_witness :
  value (calculateTravelTime 7) = IZR (Zfloor (value (7 / 40 * 60) + / 2)) /\
  value (calculateTravelTime 41) = IZR (Zfloor (value (41 / 40 * 60) + / 2)) /\
  (calculateTravelTime 7 <=? calculateTravelTime 41) = true.
Proof.
  apply (calculateTravelTime_rounds_monotone 7 41); reflexivity.
Defined.

(** C9, at the failing input.  From 8 degrees south, 90 degrees west to the
    antipode, on an engine that rounds the sines and cosines correctly:
    rounding takes the term [a] above 1, [Math.sqrt(1 - a)] is NaN and so is
    the distance, which equals nothing, the distance of the way back
    included. *)
Theorem calculateDistance_antipodal_nan (engine : Engine) :
  rounds_at_sample engine ->
  haversine_a engine (-8) (-90) 8 90 = 0x1.0000000000001p+0 /\
  is_nan (calculateDistance engine (-8) (-90) 8 90) = true /\
  (calculateDistance engine (-8) (-90) 8 90 =?
   calculateDistance engine 8 90 (-8) (-90)) = false.
Proof.
  intros H. destruct (far_distance engine H) as [Ha Hd].
  split; [exact Ha|]. rewrite Hd. split; [reflexivity|].
  apply eqb_nan. reflexivity.
Qed.

Lemma calculateDistance_antipodal_nan_witness :
  is_nan (calculateDistance sample_engine (-8) (-90) 8 90) = true.
Proof.
  apply (calculateDistance_antipodal_nan sample_engine).
  repeat split; reflexivity.
Defined.

Lemma calculateDistance_regular_pair_value (engine : Engine) :
  rounds_at_sample engine ->
  approx_atan2 engine 0x1.1d06c968d9e19p-3 0x1.fb046a930947ap-1 =
    0x1.1df46a2529d39p-3 ->
  haversine_a engine (-8) (-90) 8 (-90) = 0x1.3d581ca184804p-6 /\
  calculateDistance engine (-8) (-90) 8 (-90) = 0x1.bcc79ad9adfecp+10.
Proof.
  intros (H1 & H2 & H3 & H4) H5.
  assert (Ha : haversine_a engine (-8) (-90) 8 (-90) = 0x1.3d581ca184804p-6).
  { unfold haversine_a, Math_sin, Math_cos.
    change (((8 - -8) * Math_PI / 180) / 2) with 0x1.1df46a2529d39p-3.
    change (((-90 - -90) * Math_PI / 180) / 2) with 0.
    change (-8 * Math_PI / 180) with (-0x1.1df46a2529d39p-3).
    change (8 * Math_PI / 180) with 0x1.1df46a2529d39p-3.
    cbn [orb]. vm_compute is_nan. cbn.
    rewrite H1, H3, H4. reflexivity. }
  split; [exact Ha|].
  unfold calculateDistance. cbv zeta. rewrite Ha.
  change (Math_sqrt 0x1.3d581ca184804p-6) with 0x1.1d06c968d9e19p-3.
  change (Math_sqrt (1 - 0x1.3d581ca184804p-6)) with 0x1.fb046a930947ap-1.
  change (Math_atan2 engine 0x1.1d06c968d9e19p-3 0x1.fb046a930947ap-1)
    with (approx_atan2 engine 0x1.1d06c968d9e19p-3 0x1.fb046a930947ap-1).
  rewrite H5. reflexivity.
Qed.

(** The formula at a regular pair.  From 8 degrees south to 8 degrees north
    on one meridian, on an engine that rounds the sine, the cosines and the
    arc tangent correctly there, the distance is 1779.1188263129397 km, 16
    degrees of a circle of radius 6371 km, and the travel time at 40 km/h is
    2669 minutes. *)
Theorem calculateDistance_regular_pair (engine : Engine) :
  rounds_at_sample engine ->
  approx_atan2 engine 0x1.1d06c968d9e19p-3 0x1.fb046a930947ap-1 =
    0x1.1df46a2529d39p-3 ->
  calculateDistance engine (-8) (-90) 8 (-90) = 0x1.bcc79ad9adfecp+10 /\
  calculateTravelTime (calculateDistance engine (-8) (-90) 8 (-90)) = 2669.
Proof.
  intros H H5.
  rewrite (proj2 (calculateDistance_regular_pair_value engine H H5)).
  split; reflexivity.
Qed.

Lemma calculateDistance_regular_pair_witness :
  calculateDistance sample_engine (-8) (-90) 8 (-90) = 0x1.bcc79ad9adfecp+10 /\
  calculateTravelTime (calculateDistance sample_engine (-8) (-90) 8 (-90)) =
    2669.
Proof.
  apply (calculateDistance_regular_pair sample_engine);
    repeat split; reflexivity.
Defined.

Lemma withScore_north (engine : Engine) (wait : number) :
  rounds_at_sample engine ->
  approx_atan2 engine 0x1.1d06c968d9e19p-3 0x1.fb046a930947ap-1 =
    0x1.1df46a2529d39p-3 ->
  withScore engine south (north wait) =
  {| hospital := north wait; score := 2669 + wait; travel_time := 2669 |}.
Proof.
  intros H H5. unfold withScore.
  cbn [user_latitude user_longitude south latitude longitude north
       current_wait_time].
  rewrite (proj2 (calculateDistance_regular_pair_value engine H H5)).
  reflexivity.
Qed.

(** With a NaN score among three hospitals the order is the engine's.  The
    scores are 2674, NaN and 20: the comparator answers NaN, read as [+0],
    for the NaN score and either of the others, and a number above zero for
    2674 and 20, so it is not a consistent comparator and ECMAScript leaves
    the sorted array, and with it the recommendation, to the sorting
    algorithm of the engine. *)
Theorem hospitalsWithScores_engine_order (engine : Engine) :
  rounds_at_sample engine ->
  approx_atan2 engine 0x1.1d06c968d9e19p-3 0x1.fb046a930947ap-1 =
    0x1.1df46a2529d39p-3 ->
  map score (map (withScore engine south) [north 5; far 10; near 20]) =
    [2674; nan; 20] /\
  consistent (SortCompare (fun a b => score a - score b))
    (map (withScore engine south) [north 5; far 10; near 20]) = false /\
  hospitalsWithScores engine [north 5; far 10; near 20] south =
    sort_order engine HospitalWithScore
      (SortCompare (fun a b => score a - score b))
      (map (withScore engine south) [north 5; far 10; near 20]).
Proof.
  intros H H5.
  assert (E : consistent (SortCompare (fun a b => score a - score b))
                (map (withScore engine south) [north 5; far 10; near 20]) =
              false).
  { cbn [map].
    rewrite (withScore_north engine 5 H H5), (withScore_far engine 10 H),
      (withScore_near engine 20 H).
    vm_compute. reflexivity. }
  split; [|split; [exact E|]].
  - cbn [map].
    rewrite (withScore_north engine 5 H H5), (withScore_far engine 10 H),
      (withScore_near engine 20 H).
    reflexivity.
  - unfold hospitalsWithScores, Array_sort. rewrite E. reflexivity.
Qed.

Lemma hospitalsWithScores_engine_order_witness :
  map score (map (withScore sample_engine south) [north 5; far 10; near 20]) =
    [2674; nan; 20] /\
  consistent (SortCompare (fun a b => score a - score b))
    (map (withScore sample_engine south) [north 5; far 10; near 20]) = false.
Proof.
  destruct (hospitalsWithScores_engine_order sample_engine) as (E1 & E2 & _).
  - repeat split; reflexivity.
  - reflexivity.
  - split; [exact E1 | exact E2].
Defined.

End ScorerTheorems.

(** ** The ranking without a NaN score *)

Section Ranking.
Import JS Binary64 Scorer.
Variable engine : Engine.
Variable userLoc : UserLocation.

Local Open Scope float_scope.

(** The travel time and the score of a hospital, as the callback of
    [hospitalList.map] computes them. *)
Local Abbreviation travel :=
  (fun h : Hospital =>
     calculateTravelTime
       (calculateDistance engine (user_latitude userLoc)
          (user_longitude userLoc) (latitude h) (longitude h))).
Local Abbreviation total :=
  (fun h : Hospital => travel h + current_wait_time h).
Local Abbreviation scored :=
  (fun h : Hospital =>
     {| hospital := h; score := total h; travel_time := travel h |}).
Local Abbreviation by_score :=
  (SortCompare (fun a b : HospitalWithScore => score a - score b)).
Local Abbreviation by_total :=
  (SortCompare (fun a b : Hospital => total a - total b)).

Local Abbreviation numbers :=
  (Forall (fun h : Hospital => is_nan (total h) = false)).

Lemma numbers_ok (l : list Hospital) :
  numbers l -> Forall (fun h => number_ok (total h)) l.
Proof.
  intros H. eapply List.Forall_impl; [|exact H]. intros h. apply is_nan_false.
Qed.

(** Without a NaN score the array is the stable ascending arrangement of
    the scored hospitals. *)
Lemma hospitalsWithScores_stable_sort (l : list Hospital) :
  numbers l ->
  hospitalsWithScores engine l userLoc =
  map scored (fold_right (sort_insert by_total) [] l).
Proof.
  intros H%numbers_ok. unfold hospitalsWithScores.
  rewrite (Array_sort_by_key score engine (map (withScore engine userLoc) l)).
  - exact (stable_sort_map (withScore engine userLoc) score l).
  - apply List.Forall_map. exact H.
Qed.

(** On every input the sorted array holds the hospitals of the list, each
    once and each with its two computed fields: the travel time of the
    distance from the user, and that travel time plus the wait time. *)
Theorem hospitalsWithScores_scores (hospitalList : list Hospital) :
  exists ranked : list Hospital,
    Permutation hospitalList ranked /\
    hospitalsWithScores engine hospitalList userLoc = map scored ranked.
Proof.
  pose proof (Array_sort_permutes engine (fun a b => score a - score b)
                (map (withScore engine userLoc) hospitalList)) as P.
  symmetry in P. apply Permutation_map_inv in P as (ranked & E & P).
  exists ranked. split; [exact P | exact E].
Qed.

(** When no score is NaN the array is in ascending order of score, and the
    hospitals of one score are in the order of the list. *)
Theorem hospitalsWithScores_sorted (hospitalList : list Hospital) :
  numbers hospitalList ->
  exists ranked : list Hospital,
    Permutation hospitalList ranked /\
    hospitalsWithScores engine hospitalList userLoc = map scored ranked /\
    StronglySorted (fun x y => (total x <=? total y) = true) ranked /\
    forall k : number,
      List.filter (fun h => total h =? k) ranked =
      List.filter (fun h => total h =? k) hospitalList.
Proof.
  intros H. exists (fold_right (sort_insert by_total) [] hospitalList).
  pose proof (numbers_ok _ H) as Hn.
  split; [apply (stable_sort_permutes total)|].
  split; [apply hospitalsWithScores_stable_sort, H|].
  split; [apply (stable_sort_sorted total), Hn|].
  intros k. apply (stable_sort_stable total), Hn.
Qed.

(** When no score is NaN the order is the only one that is ascending and
    keeps the hospitals of one score in the order of the list: it does not
    depend on the engine. *)
Theorem hospitalsWithScores_unique (hospitalList ranked : list Hospital) :
  numbers hospitalList ->
  Permutation hospitalList ranked ->
  StronglySorted (fun x y => (total x <=? total y) = true) ranked ->
  (forall k : number,
     List.filter (fun h => total h =? k) ranked =
     List.filter (fun h => total h =? k) hospitalList) ->
  hospitalsWithScores engine hospitalList userLoc = map scored ranked.
Proof.
  intros H P Hs Hst. pose proof (numbers_ok _ H) as Hn.
  rewrite (hospitalsWithScores_stable_sort _ H). f_equal.
  apply (sorted_same_order_eq total).
  - eapply Permutation_Forall; [apply (stable_sort_permutes total) | exact Hn].
  - eapply Permutation_Forall; [exact P | exact Hn].
  - apply (stable_sort_sorted total), Hn.
  - exact Hs.
  - intros k. rewrite (Hst k). apply (stable_sort_stable total), Hn.
Qed.

(** When no score is NaN the recommendation is the first hospital of the
    list with the least score: every hospital before it scores more, every
    hospital after it scores as much or more.  The score is the travel time
    of the distance from the user plus the wait time. *)
Theorem findRecommendedHospital_first_least (hospitalList : list Hospital) :
  hospitalList <> [] ->
  numbers hospitalList ->
  exists (l1 : list Hospital) (h : Hospital) (l2 : list Hospital),
    hospitalList = l1 ++ h :: l2 /\
    findRecommendedHospital engine hospitalList (Some userLoc) =
      Return (Some (scored h)) /\
    Forall (fun y => (total h <? total y) = true) l1 /\
    Forall (fun y => (total h <=? total y) = true) l2.
Proof.
  intros Hne H. destruct hospitalList as [|a l]; [congruence|].
  cbn [findRecommendedHospital].
  rewrite (hospitalsWithScores_stable_sort _ H).
  destruct (stable_sort_head total a l (numbers_ok _ H))
    as (x & l1 & l2 & Hx & E & H1 & H2).
  exists l1, x, l2. split; [exact E|]. split; [|split; assumption].
  destruct (fold_right _ _ _) as [|x' s]; [discriminate Hx|].
  injection Hx as ->. reflexivity.
Qed.

End Ranking.

Section RankingExamples.
Import JS Binary64 Scorer.
Local Open Scope float_scope.

Lemma hospitalsWithScores_sorted_witness :
  exists ranked : list Hospital,
    Permutation [north 5; near 20; near 30; near 20] ranked /\
    map score
      (hospitalsWithScores sample_engine
         [north 5; near 20; near 30; near 20] south) =
    map (fun h => score (withScore sample_engine south h)) ranked /\
    StronglySorted
      (fun x y => (score (withScore sample_engine south x) <=?
                   score (withScore sample_engine south y)) = true) ranked.
Proof.
  destruct (hospitalsWithScores_sorted sample_engine south
              [north 5; near 20; near 30; near 20])
    as (ranked & P & E & S & _).
  - repeat constructor.
  - exists ranked. split; [exact P|]. split; [|exact S].
    rewrite E, map_map. reflexivity.
Defined.

Lemma hospitalsWithScores_unique_witness :
  hospitalsWithScores sample_engine [north 5; near 20] south =
  map (withScore sample_engine south) [near 20; north 5].
Proof.
  apply (hospitalsWithScores_unique sample_engine south
           [north 5; near 20] [near 20; north 5]).
  - repeat constructor.
  - apply perm_swap.
  - repeat constructor.
  - intros k. cbn [List.filter].
    set (t1 := (_ + current_wait_time (north 5))).
    set (t2 := (_ + current_wait_time (near 20))).
    destruct (t1 =? k) eqn:E1, (t2 =? k) eqn:E2; try reflexivity.
    pose proof (eqb_common t1 t2 k E1 E2) as C. vm_compute in C.
    discriminate C.
Defined.

Lemma findRecommendedHospital_first_least_witness :
  exists (l1 : list Hospital) (h : Hospital) (l2 : list Hospital),
    [north 5; near 20; near 20] = l1 ++ h :: l2 /\
    findRecommendedHospital sample_engine [north 5; near 20; near 20]
      (Some south) = Return (Some (withScore sample_engine south h)) /\
    Forall (fun y => (score (withScore sample_engine south h) <?
                      score (withScore sample_engine south y)) = true) l1 /\
    Forall (fun y => (score (withScore sample_engine south h) <=?
                      score (withScore sample_engine south y)) = true) l2.
Proof.
  apply (findRecommendedHospital_first_least sample_engine south
           [north 5; near 20; near 20]).
  - discriminate.
  - repeat constructor.
Defined.

End RankingExamples.

Section SamePoint.
Import JS Binary64 Scorer.
Local Open Scope float_scope.

(** A finite number is a zero or has a significand. *)
Lemma is_finite_shape (x : float) :
  is_finite x = true ->
  (exists s, Prim2SF x = S754_zero s) \/
  (exists s m e, Prim2SF x = S754_finite s m e).
Proof.
  unfold is_finite, is_infinity. intros H%negb_true_iff.
  apply orb_false_iff in H as [H1 H2].
  destruct (Prim2SF x) as [s|s| |s m e] eqn:E; eauto.
  - exfalso. rewrite FloatAxioms.eqb_spec, FloatAxioms.abs_spec, E in H2.
    discriminate H2.
  - exfalso. apply is_nan_false in H1. apply H1, E.
Qed.

(** The difference of a finite number and itself is [+0]. *)
Lemma sub_self (x : float) : is_finite x = true -> x - x = 0.
Proof.
  intros H. apply Prim2SF_inj. rewrite FloatAxioms.sub_spec. unfold SF64sub.
  destruct (is_finite_shape x H) as [[s ->]|(s & m & e & ->)].
  - destruct s; reflexivity.
  - cbn [SFsub]. rewrite Z.sub_diag. reflexivity.
Qed.

(** The square of a number of magnitude at most 1, times zero. *)
Lemma square_times_zero (c : float) :
  (abs c <=? 1) = true -> 0 * 0 + c * c * 0 * 0 = 0.
Proof.
  intros (N & _ & H)%leb_true. unfold number_ok, value in *.
  rewrite FloatAxioms.abs_spec in N, H.
  change (SF2R (Prim2SF 1)) with (IZR 4503599627370496 * bpow (-52))%R in H.
  assert (H1 : (SF2R (SFabs (Prim2SF c)) <= 1)%R).
  { replace 1%R with (IZR 4503599627370496 * bpow (-52))%R; [exact H|].
    replace (bpow (-52)) with (/ IZR (2 ^ 52))%R.
    2:{ rewrite <- bpow_IZR by lia. symmetry. apply (bpow_opp 52). }
    change (2 ^ 52)%Z with 4503599627370496%Z. lra. }
  clear H.
  assert (T : exists s, Prim2SF (c * c * 0) = S754_zero s).
  { rewrite FloatAxioms.mul_spec. unfold SF64mul.
    change (Prim2SF 0) with (S754_zero false).
    rewrite FloatAxioms.mul_spec. unfold SF64mul.
    pose proof (Prim2SF_valid c) as V.
    destruct (Prim2SF c) as [s|s| |s m e].
    - cbn [SFmul]. eauto.
    - exfalso. cbn [SFabs SF2R] in H1.
      assert (bpow 0 < bpow emax)%R by (apply bpow_lt; reflexivity).
      rewrite bpow_0 in *. lra.
    - exfalso. apply N. reflexivity.
    - cbn [SFabs SF2R cond_Zopp] in H1.
      assert (E : SFmul prec emax (S754_finite s m e) (S754_finite s m e) =
                  SFmul prec emax (S754_finite false m e) (S754_finite false m e)).
      { cbn [SFmul]. destruct s; reflexivity. }
      rewrite E.
      destruct (SFmul_pos m m e e V V) as (Nz & Ez & Pz).
      set (z := SFmul prec emax (S754_finite false m e) (S754_finite false m e)) in *.
      cbn [SF2R cond_Zopp] in Ez.
      assert (Hz : (SF2R z <= 1)%R).
      { rewrite Ez. rewrite <- (RN_int 1) by lia. apply RN_monotone.
        pose proof (pos_value m e). nra. }
      assert (Vz : valid_binary z = true).
      { pose proof (FloatAxioms.mul_spec (SF2Prim (S754_finite false m e))
                      (SF2Prim (S754_finite false m e))) as M.
        unfold SF64mul in M.
        rewrite (Prim2SF_SF2Prim (S754_finite false m e) V) in M.
        unfold z. rewrite <- M. apply Prim2SF_valid. }
      destruct (nonneg_shape z Vz Nz Pz) as [[sz ->]|[->|(mz & ez & ->)]].
      + cbn [SFmul]. eauto.
      + exfalso. cbn [SF2R] in Hz.
        assert (bpow 0 < bpow emax)%R by (apply bpow_lt; reflexivity).
        rewrite bpow_0 in *. lra.
      + cbn [SFmul]. eauto. }
  destruct T as [s T].
  apply Prim2SF_inj.
  rewrite FloatAxioms.add_spec. unfold SF64add.
  rewrite (FloatAxioms.mul_spec (c * c * 0)). unfold SF64mul. rewrite T.
  destruct s; reflexivity.
Qed.

(** The distance from a point to itself is 0, for finite coordinates and
    an engine whose cosine of the latitude is at most 1 in magnitude. *)
Theorem calculateDistance_same_point (engine : Engine) (lat lon : number) :
  is_finite lat = true -> is_finite lon = true ->
  (abs (Math_cos engine (lat * Math_PI / 180)) <=? 1) = true ->
  calculateDistance engine lat lon lat lon = 0.
Proof.
  intros Hlat Hlon Hcos. unfold calculateDistance, haversine_a. cbv zeta.
  rewrite (sub_self lat Hlat), (sub_self lon Hlon).
  change (0 * Math_PI / 180 / 2) with 0.
  change (Math_sin engine 0) with 0.
  rewrite (square_times_zero _ Hcos). reflexivity.
Qed.

Lemma calculateDistance_same_point_witness :
  calculateDistance sample_engine (-8) (-90) (-8) (-90) = 0.
Proof.
  apply (calculateDistance_same_point sample_engine (-8) (-90));
    reflexivity.
Defined.

End SamePoint.

Section TravelTime.
Import JS Binary64 Scorer.
Local Open Scope R_scope.

(** A binary64 number rounds to itself. *)
Lemma RN_representable (s : bool) (m : positive) (e : Z) :
  valid_binary (S754_finite s m e) = true ->
  RN (IZR (Z.pos m) * bpow e) = IZR (Z.pos m) * bpow e.
Proof.
  intros V. pose proof (valid_lt_emax s m e V) as Hlt.
  pose proof (pos_value m e) as Hpos.
  revert V. cbn [SpecFloat.valid_binary]. unfold bounded, canonical_mantissa.
  intros [H1 _]%andb_true_iff. apply Z.eqb_eq in H1.
  fold (cexp (Z.pos (digits2_pos m) + e)) in H1.
  unfold RN. destruct (Rle_dec _ 0); [lra|].
  assert (Hm : mag (IZR (Z.pos m) * bpow e) = (Z.pos (digits2_pos m) + e)%Z).
  { apply (mag_of_unique (IZR (Z.pos m) * bpow e)); [apply mag_spec, Hpos|].
    pose proof (mantissa_bounds m) as [Hlo Hhi]. pose proof (bpow_gt_0 e).
    unfold mag_of.
    replace (Z.pos (digits2_pos m) + e - 1)%Z
      with (Z.pos (digits2_pos m) - 1 + e)%Z by lia.
    rewrite !bpow_plus. nra. }
  rewrite Hm. unfold rounding. rewrite H1.
  rewrite Rmult_assoc, <- bpow_plus.
  replace (e + - e)%Z with 0%Z by lia.
  rewrite bpow_0, Rmult_1_r, rne_IZR. apply Rmin_left. lra.
Qed.

Lemma value_40 : value 40%float = 40.
Proof.
  change (value 40%float) with (IZR 5629499534213120 * bpow (-47)).
  replace (bpow (-47)) with (/ IZR (2 ^ 47)).
  2:{ rewrite <- bpow_IZR by lia. symmetry. apply (bpow_opp 47). }
  change (2 ^ 47)%Z with 140737488355328%Z. lra.
Qed.

Lemma value_60 : value 60%float = 60.
Proof.
  change (value 60%float) with (IZR 8444249301319680 * bpow (-47)).
  replace (bpow (-47)) with (/ IZR (2 ^ 47)).
  2:{ rewrite <- bpow_IZR by lia. symmetry. apply (bpow_opp 47). }
  change (2 ^ 47)%Z with 140737488355328%Z. lra.
Qed.

(** The minutes before [Math.round], for a finite distance that is not
    below zero: the quotient by 40 rounded, times 60, rounded. *)
Lemma minutes_value (d : float) :
  is_finite d = true -> (0 <=? d)%float = true ->
  number_ok (d / 40 * 60)%float /\
  value (d / 40 * 60)%float = RN (RN (value d / 40) * 60).
Proof.
  intros Hfin (_ & Nd & H0)%leb_true. rewrite value_zero in H0.
  assert (E40 : SF2R (S754_finite false 5629499534213120 (-47)) = 40)
    by apply value_40.
  assert (E60 : SF2R (S754_finite false 8444249301319680 (-47)) = 60)
    by apply value_60.
  unfold number_ok, value in *.
  rewrite FloatAxioms.mul_spec, FloatAxioms.div_spec.
  unfold SF64mul, SF64div.
  pose proof (FloatAxioms.div_spec d 40) as D. unfold SF64div in D.
  pose proof (Prim2SF_valid (d / 40)) as Vq. rewrite D in Vq. clear D.
  change (Prim2SF 40) with (S754_finite false 5629499534213120 (-47)) in *.
  change (Prim2SF 60) with (S754_finite false 8444249301319680 (-47)) in *.
  pose proof (Prim2SF_valid d) as Vd.
  destruct (is_finite_shape d Hfin) as [[s E]|(s & m & e & E)]; rewrite E in *.
  - cbn [SFdiv SFmul SF2R]. unfold Rdiv. rewrite !Rmult_0_l, RN_0, Rmult_0_l, RN_0.
    split; [discriminate | reflexivity].
  - destruct s.
    { exfalso. pose proof (pos_value m e). cbn [SF2R cond_Zopp] in H0.
      rewrite opp_IZR in H0. lra. }
    destruct (SFdiv_pos m 5629499534213120 e (-47)) as (Nq & Eq & Pq).
    set (q := SFdiv prec emax (S754_finite false m e)
                (S754_finite false 5629499534213120 (-47))) in *.
    rewrite E40 in Eq. rewrite <- Eq.
    assert (Hq : SF2R q < bpow emax).
    { rewrite Eq. apply Rle_lt_trans with (SF2R (S754_finite false m e)).
      - cbn [SF2R cond_Zopp]. rewrite <- (RN_representable false m e Vd) at 2.
        apply RN_monotone. pose proof (pos_value m e). lra.
      - apply (valid_lt_emax false m e Vd). }
    destruct (nonneg_shape q Vq Nq Pq) as [[sq ->]|[->|(mq & eq & Eq')]].
    + cbn [SFmul SF2R]. rewrite Rmult_0_l, RN_0.
      split; [discriminate | reflexivity].
    + exfalso. cbn [SF2R] in Hq. lra.
    + rewrite Eq' in *.
      destruct (SFmul_pos mq 8444249301319680 eq (-47) Vq eq_refl) as (Np & Ep & _).
      rewrite E60 in Ep. split; [exact Np | exact Ep].
Qed.

(** The travel time of a finite distance that is not below zero, in real
    numbers: the quotient by 40 is rounded to binary64, the product by 60 is
    rounded to binary64, and the result is the whole number nearest to that,
    a tie going up. *)
Theorem calculateTravelTime_value (d : number) :
  is_finite d = true -> (0 <=? d)%float = true ->
  value (calculateTravelTime d) =
  IZR (Zfloor (RN (RN (value d / 40) * 60) + / 2)).
Proof.
  intros Hfin H0. destruct (minutes_value d Hfin H0) as [N E].
  unfold calculateTravelTime. cbv zeta.
  rewrite (proj2 (Math_round_value _ N)), E. reflexivity.
Qed.

Lemma calculateTravelTime_value_witness :
  value (calculateTravelTime 41) =
  IZR (Zfloor (RN (RN (value 41%float / 40) * 60) + / 2)).
Proof.
  apply (calculateTravelTime_value 41); reflexivity.
Defined.

End TravelTime.

(** ** The request client *)

Section Counting.
Import Client.

Lemma authorized_retry (s : gmap string string) (c : Config) :
  _retry (authorized s c) = _retry c.
Proof. unfold authorized. destruct (truthy (s !! "accessToken")); reflexivity. Qed.

Lemma authorized_endpoint (s : gmap string string) (c : Config) :
  url (authorized s c) = url c /\ method (authorized s c) = method c /\
  data (authorized s c) = data c.
Proof. unfold authorized. destruct (truthy _); repeat split. Qed.

Lemma new_events_app (w : World) (s : gmap string string) (t : list Event) :
  new_events w {| store := s; trace := trace w ++ t |} = t.
Proof. unfold new_events. simpl. apply drop_app_length. Qed.

Lemma is_send_of_authorized (s : gmap string string) (config : Config) :
  is_send_of config (Http apiClient (authorized s config)) = true.
Proof.
  destruct (authorized_endpoint s config) as (Hu & Hm & _).
  simpl. rewrite Hu, Hm. rewrite !bool_decide_eq_true_2; reflexivity.
Qed.

Lemma is_send_of_retried (s : gmap string string) (config : Config)
    (header : string) :
  is_send_of config
    (Http apiClient (with_Authorization header (with_retry (authorized s config)))) =
  true.
Proof.
  destruct (authorized_endpoint s config) as (Hu & Hm & _).
  simpl. rewrite Hu, Hm. rewrite !bool_decide_eq_true_2; reflexivity.
Qed.

Lemma is_refresh_post_refresh (s : gmap string string) :
  is_refresh_post (Http axios (refresh_post s)) = true.
Proof. reflexivity. Qed.

Lemma sends_of_cons (config : Config) (e : Event) (t : list Event) :
  sends_of config (e :: t) =
  if is_send_of config e then S (sends_of config t) else sends_of config t.
Proof. unfold sends_of. simpl. destruct (is_send_of config e); reflexivity. Qed.

Lemma refresh_posts_cons (e : Event) (t : list Event) :
  refresh_posts (e :: t) =
  if is_refresh_post e then S (refresh_posts t) else refresh_posts t.
Proof. unfold refresh_posts. simpl. destruct (is_refresh_post e); reflexivity. Qed.

End Counting.

(** Counts the calls of an explicit trace. *)
Ltac count_calls :=
  rewrite ?sends_of_cons, ?refresh_posts_cons;
  rewrite ?is_send_of_authorized, ?is_send_of_retried, ?is_refresh_post_refresh;
  cbn [Client.is_send_of Client.is_refresh_post];
  change (Client.sends_of ?c []) with 0%nat;
  change (Client.refresh_posts []) with 0%nat.

Section ClientProperties.
Import Client.
Variable network : list Event -> Instance -> Config -> option Response.

Local Arguments request : simpl never.

Lemma wire_app (t1 t2 : list Event) : wire (t1 ++ t2) = wire t1 ++ wire t2.
Proof. apply List.filter_app. Qed.

Lemma wire_get (t : list Event) (key : string) :
  wire (t ++ [GetItem key]) = wire t.
Proof. rewrite wire_app. simpl. apply app_nil_r. Qed.

Lemma requestInterceptor_run (c : Config) (w : World) :
  requestInterceptor c w =
  (Fulfilled (authorized (store w) c), log (GetItem "accessToken") w).
Proof.
  unfold requestInterceptor, mbind, Async_bind, getItemAsync, authorized.
  destruct (truthy (store w !! "accessToken")); reflexivity.
Qed.

(** The global [axios] has no interceptor: its request is the transport. *)
Lemma request_axios (fuel : nat) (c : Config) (w : World) :
  request network (S fuel) axios c w =
  (settle c (network (wire (trace w)) axios c), log (Http axios c) w).
Proof.
  change (request network (S fuel) axios c)
    with (request_with network (request network fuel) axios c).
  unfold request_with, interceptors_request, interceptors_response.
  unfold mbind, Async_bind, mret, Async_ret, try_catch, adapter, reject.
  destruct (settle c _); reflexivity.
Qed.

(** A request that carries the flag is sent once, whatever the answer. *)
Lemma request_retried (fuel : nat) (c : Config) (w : World) :
  _retry c = true ->
  request network (S fuel) apiClient c w =
  (settle (authorized (store w) c)
     (network (wire (trace w)) apiClient (authorized (store w) c)),
   {| store := store w;
      trace := trace w ++
        [GetItem "accessToken"; Http apiClient (authorized (store w) c)] |}).
Proof.
  intros Hretry.
  change (request network (S fuel) apiClient c)
    with (request_with network (request network fuel) apiClient c).
  unfold request_with, interceptors_request, interceptors_response.
  unfold mbind, Async_bind. rewrite requestInterceptor_run.
  unfold try_catch, adapter, log. simpl.
  rewrite wire_get, <- app_assoc. simpl.
  pose proof (authorized_retry (store w) c) as Hr. rewrite Hretry in Hr.
  unfold settle, responseRejected, reject.
  destruct (network _ _ _) as [r|]; [|reflexivity].
  destruct (validateStatus (status r)); [reflexivity|].
  rewrite Hr, andb_false_r. reflexivity.
Qed.

Lemma authorized_again (s : gmap string string) (a r : string) (c : Config) :
  authorized (<["refreshToken" := r]> (<["accessToken" := a]> s))
    (with_Authorization ("Bearer " ++ a) c) =
  with_Authorization ("Bearer " ++ a) c.
Proof.
  unfold authorized.
  rewrite lookup_insert_ne by discriminate. rewrite lookup_insert_eq.
  destruct (truthy (Some a)); reflexivity.
Qed.

(** The run of a request with fuel for the refresh and the retry, branch
    by branch. *)
Lemma request_unfold (fuel : nat) (config : Config) (w : World) :
  request network (S (S fuel)) apiClient config w =
  let c1 := authorized (store w) config in
  let sent := [GetItem "accessToken"; Http apiClient c1] in
  let rq := refresh_post (store w) in
  match network (wire (trace w)) apiClient c1 with
  | None =>
      (Rejected (AxiosError c1 None),
       {| store := store w; trace := trace w ++ sent |})
  | Some r1 =>
    if validateStatus (status r1) then
      (Fulfilled r1, {| store := store w; trace := trace w ++ sent |})
    else if (status r1 =? 401)%Z && negb (_retry config) then
      if negb (truthy (store w !! "refreshToken")) then
        (Rejected (AxiosError (with_retry c1) (Some r1)),
         {| store := store w;
            trace := trace w ++ sent ++ [GetItem "refreshToken"] |})
      else
        match network (wire (trace w) ++ [Http apiClient c1]) axios rq with
        | None =>
            (Rejected (AxiosError rq None),
             {| store := store w;
                trace := trace w ++ sent ++ [GetItem "refreshToken"; Http axios rq] |})
        | Some r2 =>
          if validateStatus (status r2) then
            match response_data r2 !! "access" with
            | Some (JString a) =>
              match response_data r2 !! "refresh" with
              | Some (JString r) =>
                let c2 := with_Authorization ("Bearer " ++ a) (with_retry c1) in
                (settle c2
                   (network
                      (wire (trace w) ++ [Http apiClient c1; Http axios rq])
                      apiClient c2),
                 {| store := <["refreshToken" := r]> (<["accessToken" := a]> (store w));
                    trace := trace w ++ sent ++
                      [GetItem "refreshToken"; Http axios rq;
                       SetItem "accessToken" a; SetItem "refreshToken" r;
                       GetItem "accessToken"; Http apiClient c2] |})
              | _ =>
                (Rejected InvalidValue,
                 {| store := <["accessToken" := a]> (store w);
                    trace := trace w ++ sent ++
                      [GetItem "refreshToken"; Http axios rq;
                       SetItem "accessToken" a] |})
              end
            | _ =>
              (Rejected InvalidValue,
               {| store := store w;
                  trace := trace w ++ sent ++
                    [GetItem "refreshToken"; Http axios rq] |})
            end
          else
            (Rejected (AxiosError rq (Some r2)),
             {| store := store w;
                trace := trace w ++ sent ++ [GetItem "refreshToken"; Http axios rq] |})
        end
    else
      (Rejected (AxiosError c1 (Some r1)),
       {| store := store w; trace := trace w ++ sent |})
  end.
Proof.
  cbv zeta.
  change (request network (S (S fuel)) apiClient config)
    with (request_with network (request network (S fuel)) apiClient config).
  unfold request_with, interceptors_request, interceptors_response.
  unfold mbind, Async_bind. rewrite requestInterceptor_run.
  set (c1 := authorized (store w) config).
  unfold try_catch at 1. unfold adapter, log. simpl.
  rewrite wire_get, <- app_assoc. simpl.
  unfold settle at 1.
  destruct (network (wire (trace w)) apiClient c1) as [r1|];
    [|reflexivity].
  destruct (validateStatus (status r1)); [reflexivity|].
  unfold responseRejected. unfold c1 at 1. rewrite authorized_retry. fold c1.
  destruct ((status r1 =? 401)%Z && negb (_retry config)) eqn:Hcond;
    [|reflexivity].
  apply andb_prop in Hcond as [_ Hretry]. apply negb_true_iff in Hretry.
  unfold try_catch, mbind, Async_bind, getItemAsync, log, reject. simpl.
  rewrite <- app_assoc. simpl.
  destruct (truthy (store w !! "refreshToken")); simpl; [|reflexivity].
  rewrite request_axios. unfold log. simpl.
  rewrite wire_app, <- app_assoc. simpl.
  fold (refresh_post (store w)). set (rq := refresh_post (store w)).
  unfold settle at 1.
  destruct (network (wire (trace w) ++ [Http apiClient c1]) axios rq) as [r2|];
    [|reflexivity].
  destruct (validateStatus (status r2)); [|reflexivity].
  unfold setItemAsync at 1.
  destruct (response_data r2 !! "access") as [[a|]|]; [|reflexivity..].
  unfold setItemAsync. simpl.
  destruct (response_data r2 !! "refresh") as [[r|]|];
    [|rewrite <- app_assoc; reflexivity..].
  rewrite request_retried by reflexivity. simpl.
  rewrite authorized_again.
  rewrite <- !app_assoc. simpl. rewrite wire_app. simpl.
  destruct (settle _ _); reflexivity.
Qed.

(** The run in which the first answer is a 401, a refresh token is stored
    and the refresh answers with a new pair. *)
Lemma run_refreshed (fuel : nat) (config : Config) (w : World)
    (r1 r2 : Response) (a r : string) :
  _retry config = false ->
  network (wire (trace w)) apiClient (authorized (store w) config) = Some r1 ->
  status r1 = 401%Z ->
  truthy (store w !! "refreshToken") = true ->
  network (wire (trace w) ++ [Http apiClient (authorized (store w) config)])
    axios (refresh_post (store w)) = Some r2 ->
  validateStatus (status r2) = true ->
  response_data r2 !! "access" = Some (JString a) ->
  response_data r2 !! "refresh" = Some (JString r) ->
  request network (S (S fuel)) apiClient config w =
  (settle (with_Authorization ("Bearer " ++ a) (with_retry (authorized (store w) config)))
     (network
        (wire (trace w) ++
         [Http apiClient (authorized (store w) config);
          Http axios (refresh_post (store w))])
        apiClient
        (with_Authorization ("Bearer " ++ a) (with_retry (authorized (store w) config)))),
   {| store := <["refreshToken" := r]> (<["accessToken" := a]> (store w));
      trace := trace w ++
        [GetItem "accessToken"; Http apiClient (authorized (store w) config);
         GetItem "refreshToken"; Http axios (refresh_post (store w));
         SetItem "accessToken" a; SetItem "refreshToken" r;
         GetItem "accessToken";
         Http apiClient
           (with_Authorization ("Bearer " ++ a)
              (with_retry (authorized (store w) config)))] |}).
Proof.
  intros Hretry H1 Hs1 Hrt H2 Hs2 Ha Hr.
  rewrite request_unfold. cbv zeta.
  rewrite H1, Hs1, Hretry, Hrt, H2, Hs2, Ha, Hr. reflexivity.
Qed.

(** The run in which the first answer is a 401 and no refresh token is
    stored. *)
Lemma run_no_refresh_token (fuel : nat) (config : Config) (w : World)
    (r1 : Response) :
  _retry config = false ->
  network (wire (trace w)) apiClient (authorized (store w) config) = Some r1 ->
  status r1 = 401%Z ->
  truthy (store w !! "refreshToken") = false ->
  request network (S (S fuel)) apiClient config w =
  (Rejected (AxiosError (with_retry (authorized (store w) config)) (Some r1)),
   {| store := store w;
      trace := trace w ++
        [GetItem "accessToken"; Http apiClient (authorized (store w) config);
         GetItem "refreshToken"] |}).
Proof.
  intros Hretry H1 Hs1 Hrt.
  rewrite request_unfold. cbv zeta.
  rewrite H1, Hs1, Hretry, Hrt. reflexivity.
Qed.

(** The run in which the first answer is a 401, a refresh token is stored
    and the refresh request is rejected. *)
Lemma run_refresh_rejected (fuel : nat) (config : Config) (w : World)
    (r1 : Response) (e : Error) :
  _retry config = false ->
  network (wire (trace w)) apiClient (authorized (store w) config) = Some r1 ->
  status r1 = 401%Z ->
  truthy (store w !! "refreshToken") = true ->
  settle (refresh_post (store w))
    (network (wire (trace w) ++ [Http apiClient (authorized (store w) config)])
       axios (refresh_post (store w))) = Rejected e ->
  request network (S (S fuel)) apiClient config w =
  (Rejected e,
   {| store := store w;
      trace := trace w ++
        [GetItem "accessToken"; Http apiClient (authorized (store w) config);
         GetItem "refreshToken"; Http axios (refresh_post (store w))] |}).
Proof.
  intros Hretry H1 Hs1 Hrt He.
  rewrite request_unfold. cbv zeta.
  rewrite H1, Hs1, Hretry, Hrt. simpl.
  unfold settle in He.
  destruct (network _ axios _) as [r2|]; [|congruence].
  destruct (validateStatus (status r2)); congruence.
Qed.

(** Bounds that hold for every run of a request. *)
Lemma run_bounds (fuel : nat) (config : Config) (w : World) :
  let run := request network (S (S fuel)) apiClient config w in
  refresh_posts (new_events w (snd run)) <= 1 /\
  sends_of config (new_events w (snd run)) <= 2 /\
  length (wire (new_events w (snd run))) <= 3 /\
  fst run <> Pending /\
  Forall (fun e => forall c, e = Http axios c ->
                   c = refresh_post (store w) /\ Authorization c = None)
    (new_events w (snd run)).
Proof.
  cbv zeta. rewrite request_unfold. cbv zeta.
  repeat case_match; cbn [fst snd app]; rewrite !new_events_app;
    count_calls; cbn [List.filter is_http wire app length];
    (split; [lia|]); (split; [lia|]); (split; [lia|]);
    (split; [unfold settle; repeat case_match; congruence|]);
    repeat (constructor; [intros c' E; try discriminate E;
                          injection E as <-; split; reflexivity|]);
    constructor.
Qed.

End ClientProperties.

Section ClientTheorems.
Import Client.

(** C4.  When the first send of a request is answered 401, a refresh token
    is stored and the refresh call succeeds with a new pair, the run puts
    exactly three requests on the wire: the original, one POST to the
    refresh endpoint, and one retry of the original to the same path and
    method with the same body; and the promise settles as the answer to the
    retry settles it. *)
Theorem refresh_then_retry_once
    (network : list Event -> Instance -> Config -> option Response) (fuel : nat) (config : Config) (w : World)
    (r1 r2 : Response) (a r : string) :
  2 <= fuel ->
  _retry config = false ->
  network (wire (trace w)) apiClient (authorized (store w) config) = Some r1 ->
  status r1 = 401%Z ->
  truthy (store w !! "refreshToken") = true ->
  network (wire (trace w) ++ [Http apiClient (authorized (store w) config)])
    axios (refresh_post (store w)) = Some r2 ->
  validateStatus (status r2) = true ->
  response_data r2 !! "access" = Some (JString a) ->
  response_data r2 !! "refresh" = Some (JString r) ->
  let first := authorized (store w) config in
  let retried := with_Authorization ("Bearer " ++ a) (with_retry first) in
  let run := request network fuel apiClient config w in
  wire (new_events w (snd run)) =
    [Http apiClient first; Http axios (refresh_post (store w));
     Http apiClient retried] /\
  url retried = url config /\ method retried = method config /\
  data retried = data config /\
  sends_of config (new_events w (snd run)) = 2 /\
  refresh_posts (new_events w (snd run)) = 1 /\
  fst run =
    settle retried
      (network
         (wire (trace w) ++ [Http apiClient first; Http axios (refresh_post (store w))])
         apiClient retried).
Proof.
  intros Hfuel Hretry H1 Hs1 Hrt H2 Hs2 Ha Hr. cbv zeta.
  destruct fuel as [|[|fuel]]; [lia..|].
  rewrite (run_refreshed network fuel config w r1 r2 a r) by assumption.
  cbn [fst snd]. rewrite new_events_app.
  destruct (authorized_endpoint (store w) config) as (Hu & Hm & Hd).
  split; [reflexivity|]. do 3 (split; [assumption|]).
  split; [count_calls; reflexivity|].
  split; [count_calls; reflexivity | reflexivity].
Qed.

Lemma refresh_then_retry_once_witness :
  sends_of get_hospitals
    (new_events logged_in
       (snd (request token_server 2 apiClient get_hospitals logged_in))) = 2 /\
  refresh_posts
    (new_events logged_in
       (snd (request token_server 2 apiClient get_hospitals logged_in))) = 1 /\
  fst (request token_server 2 apiClient get_hospitals logged_in) =
    Fulfilled {| status := 200; response_data := {[ "hospitals" := JOther ]} |}.
Proof.
  destruct (refresh_then_retry_once token_server 2 get_hospitals logged_in
              {| status := 401; response_data := ∅ |}
              {| status := 200;
                 response_data :=
                   {[ "access" := JString "A2"; "refresh" := JString "R2" ]} |}
              "A2" "R2")
    as (_ & _ & _ & _ & Hsends & Hposts & Hresult);
    [lia | reflexivity..|].
  split; [exact Hsends|]. split; [exact Hposts|].
  rewrite Hresult. reflexivity.
Defined.

(** C5.  A run makes at most one call to the refresh endpoint and sends the
    request at most twice, and it settles.  When the retry after a
    successful refresh is answered 401 again, the promise is rejected with
    that 401 error after exactly one refresh call: three requests in all. *)
Theorem retry_rejected_no_second_refresh
    (network : list Event -> Instance -> Config -> option Response) (fuel : nat) (config : Config)
    (w : World) :
  2 <= fuel ->
  let first := authorized (store w) config in
  let run := request network fuel apiClient config w in
  refresh_posts (new_events w (snd run)) <= 1 /\
  sends_of config (new_events w (snd run)) <= 2 /\
  fst run <> Pending /\
  forall (r1 r2 r3 : Response) (a r : string),
    _retry config = false ->
    network (wire (trace w)) apiClient first = Some r1 ->
    status r1 = 401%Z ->
    truthy (store w !! "refreshToken") = true ->
    network (wire (trace w) ++ [Http apiClient first]) axios
      (refresh_post (store w)) = Some r2 ->
    validateStatus (status r2) = true ->
    response_data r2 !! "access" = Some (JString a) ->
    response_data r2 !! "refresh" = Some (JString r) ->
    let retried := with_Authorization ("Bearer " ++ a) (with_retry first) in
    network
      (wire (trace w) ++ [Http apiClient first; Http axios (refresh_post (store w))])
      apiClient retried = Some r3 ->
    status r3 = 401%Z ->
    fst run = Rejected (AxiosError retried (Some r3)) /\
    Unauthenticated (fst run) /\
    refresh_posts (new_events w (snd run)) = 1 /\
    wire (new_events w (snd run)) =
      [Http apiClient first; Http axios (refresh_post (store w));
       Http apiClient retried].
Proof.
  intros Hfuel. cbv zeta.
  destruct fuel as [|[|fuel]]; [lia..|].
  destruct (run_bounds network fuel config w) as (Hposts & Hsends & _ & Hset & _).
  do 3 (split; [assumption|]).
  intros r1 r2 r3 a r Hretry H1 Hs1 Hrt H2 Hs2 Ha Hr H3 Hs3.
  rewrite (run_refreshed network fuel config w r1 r2 a r) by assumption.
  cbn [fst snd]. rewrite new_events_app, H3.
  unfold settle. rewrite Hs3. change (validateStatus 401) with false. cbv iota.
  split; [reflexivity|].
  split; [eexists _, r3; split; [reflexivity | assumption]|].
  split; [count_calls; reflexivity | reflexivity].
Qed.

Lemma retry_rejected_no_second_refresh_witness :
  Unauthenticated (fst (request rejecting_server 2 apiClient get_hospitals logged_in)) /\
  refresh_posts
    (new_events logged_in
       (snd (request rejecting_server 2 apiClient get_hospitals logged_in))) = 1.
Proof.
  destruct (retry_rejected_no_second_refresh rejecting_server 2 get_hospitals
              logged_in) as (_ & _ & _ & H); [lia|].
  destruct (H {| status := 401; response_data := ∅ |}
              {| status := 200;
                 response_data :=
                   {[ "access" := JString "A2"; "refresh" := JString "R2" ]} |}
              {| status := 401; response_data := ∅ |} "A2" "R2")
    as (_ & Hun & Hposts & _); try reflexivity.
  split; [exact Hun | exact Hposts].
Defined.

(** C6.  When the first send is answered 401 and no refresh token is stored
    (none, or an empty one), the promise is rejected with that 401 error at
    once: the only request of the run is the original one, no call goes to
    the refresh endpoint, and the store is left as it was. *)
Theorem no_refresh_token_no_refresh
    (network : list Event -> Instance -> Config -> option Response) (fuel : nat) (config : Config) (w : World)
    (r1 : Response) :
  2 <= fuel ->
  _retry config = false ->
  network (wire (trace w)) apiClient (authorized (store w) config) = Some r1 ->
  status r1 = 401%Z ->
  truthy (store w !! "refreshToken") = false ->
  let first := authorized (store w) config in
  let run := request network fuel apiClient config w in
  fst run = Rejected (AxiosError (with_retry first) (Some r1)) /\
  Unauthenticated (fst run) /\
  new_events w (snd run) =
    [GetItem "accessToken"; Http apiClient first; GetItem "refreshToken"] /\
  refresh_posts (new_events w (snd run)) = 0 /\
  sends_of config (new_events w (snd run)) = 1 /\
  store (snd run) = store w.
Proof.
  intros Hfuel Hretry H1 Hs1 Hrt. cbv zeta.
  destruct fuel as [|[|fuel]]; [lia..|].
  rewrite (run_no_refresh_token network fuel config w r1) by assumption.
  cbn [fst snd]. rewrite new_events_app.
  split; [reflexivity|].
  split; [eexists _, r1; split; [reflexivity | assumption]|].
  split; [reflexivity|].
  split; [count_calls; reflexivity|].
  split; [count_calls; reflexivity | reflexivity].
Qed.

Lemma no_refresh_token_no_refresh_witness :
  Unauthenticated
    (fst (request token_server 2 apiClient get_hospitals no_refresh_token)) /\
  refresh_posts
    (new_events no_refresh_token
       (snd (request token_server 2 apiClient get_hospitals no_refresh_token))) = 0.
Proof.
  destruct (no_refresh_token_no_refresh token_server 2 get_hospitals
              no_refresh_token {| status := 401; response_data := ∅ |})
    as (_ & Hun & _ & Hposts & _); [lia | reflexivity..|].
  split; [exact Hun | exact Hposts].
Defined.

(** C7, as stated: a successful refresh overwrites the two tokens
    atomically.  It does not: in the run of a request on [token_server] the
    store holds, after the fifth event, the new access token with the old
    refresh token. *)
Lemma refresh_update_not_atomic :
  credentials
    (replay (store logged_in)
       (take 5
          (new_events logged_in
             (snd (request token_server 2 apiClient get_hospitals logged_in))))) =
    (Some "A2", Some "R1") /\
  ~ atomic_pair_update (store logged_in)
      (new_events logged_in
         (snd (request token_server 2 apiClient get_hospitals logged_in))).
Proof.
  split; [reflexivity|].
  intros H. specialize (H 5). vm_compute in H.
  destruct H as [H|H]; discriminate H.
Qed.

(** C7, amended.  On a successful refresh the new access token and then the
    new refresh token are written to the store, by two separate writes, both
    before the request is retried; at the end the store holds the new pair,
    and between the two writes it holds the new access token with the
    refresh token it had. *)
Theorem refresh_writes_then_retry
    (network : list Event -> Instance -> Config -> option Response) (fuel : nat)
    (config : Config) (w : World) (r1 r2 : Response) (a r : string) :
  2 <= fuel ->
  _retry config = false ->
  network (wire (trace w)) apiClient (authorized (store w) config) = Some r1 ->
  status r1 = 401%Z ->
  truthy (store w !! "refreshToken") = true ->
  network (wire (trace w) ++ [Http apiClient (authorized (store w) config)])
    axios (refresh_post (store w)) = Some r2 ->
  validateStatus (status r2) = true ->
  response_data r2 !! "access" = Some (JString a) ->
  response_data r2 !! "refresh" = Some (JString r) ->
  let first := authorized (store w) config in
  let retried := with_Authorization ("Bearer " ++ a) (with_retry first) in
  let run := request network fuel apiClient config w in
  let until_refresh :=
    [GetItem "accessToken"; Http apiClient first;
     GetItem "refreshToken"; Http axios (refresh_post (store w))] in
  new_events w (snd run) =
    until_refresh ++
    [SetItem "accessToken" a; SetItem "refreshToken" r] ++
    [GetItem "accessToken"; Http apiClient retried] /\
  store (snd run) = replay (store w) (new_events w (snd run)) /\
  credentials (store (snd run)) = (Some a, Some r) /\
  credentials (replay (store w) (until_refresh ++ [SetItem "accessToken" a])) =
    (Some a, store w !! "refreshToken").
Proof.
  intros Hfuel Hretry H1 Hs1 Hrt H2 Hs2 Ha Hr. cbv zeta.
  destruct fuel as [|[|fuel]]; [lia..|].
  rewrite (run_refreshed network fuel config w r1 r2 a r) by assumption.
  cbn [fst snd]. rewrite new_events_app.
  split; [reflexivity|]. split; [reflexivity|].
  unfold credentials. cbn [replay fold_left app apply_event store].
  split.
  - rewrite lookup_insert_ne by discriminate.
    rewrite !lookup_insert_eq. reflexivity.
  - rewrite lookup_insert_eq.
    rewrite lookup_insert_ne by discriminate. reflexivity.
Qed.

Lemma refresh_writes_then_retry_witness :
  credentials
    (store (snd (request token_server 2 apiClient get_hospitals logged_in))) =
  (Some "A2", Some "R2").
Proof.
  destruct (refresh_writes_then_retry token_server 2 get_hospitals logged_in
              {| status := 401; response_data := ∅ |}
              {| status := 200;
                 response_data :=
                   {[ "access" := JString "A2"; "refresh" := JString "R2" ]} |}
              "A2" "R2")
    as (_ & _ & Hpair & _); [lia | reflexivity..|].
  exact Hpair.
Defined.

(** C10.  The global [axios] runs no interceptor: its request is the
    transport alone, the configuration going out as it came in and a
    rejection going back as it is.  In a run of [apiClient] the only request
    through it is the refresh POST, which carries no [Authorization] header
    whatever the store holds, and there is at most one.  When that request
    is rejected (a 401 or any other error), the promise is rejected with its
    error and nothing follows it: no second refresh and no retry. *)
Theorem refresh_call_bypasses_interceptors
    (network : list Event -> Instance -> Config -> option Response) (fuel : nat)
    (config : Config) (w : World) :
  2 <= fuel ->
  let first := authorized (store w) config in
  let run := request network fuel apiClient config w in
  (forall (c : Config) (w0 : World),
     request network fuel axios c w0 =
     (settle c (network (wire (trace w0)) axios c), log (Http axios c) w0)) /\
  Forall (fun e => forall c, e = Http axios c ->
                   c = refresh_post (store w) /\ Authorization c = None)
    (new_events w (snd run)) /\
  refresh_posts (new_events w (snd run)) <= 1 /\
  forall (r1 : Response) (e : Error),
    _retry config = false ->
    network (wire (trace w)) apiClient first = Some r1 ->
    status r1 = 401%Z ->
    truthy (store w !! "refreshToken") = true ->
    settle (refresh_post (store w))
      (network (wire (trace w) ++ [Http apiClient first]) axios
         (refresh_post (store w))) = Rejected e ->
    fst run = Rejected e /\
    new_events w (snd run) =
      [GetItem "accessToken"; Http apiClient first;
       GetItem "refreshToken"; Http axios (refresh_post (store w))] /\
    refresh_posts (new_events w (snd run)) = 1 /\
    sends_of config (new_events w (snd run)) = 1.
Proof.
  intros Hfuel. cbv zeta.
  destruct fuel as [|[|fuel]]; [lia..|].
  destruct (run_bounds network fuel config w) as (Hposts & _ & _ & _ & Hall).
  split; [intros c w0; apply request_axios|].
  do 2 (split; [assumption|]).
  intros r1 e Hretry H1 Hs1 Hrt He.
  rewrite (run_refresh_rejected network fuel config w r1 e) by assumption.
  cbn [fst snd]. rewrite new_events_app.
  do 2 (split; [reflexivity|]).
  split; count_calls; reflexivity.
Qed.

Lemma refresh_call_bypasses_interceptors_witness :
  fst (request expired_server 2 apiClient get_hospitals logged_in) =
    Rejected
      (AxiosError (refresh_post (store logged_in))
         (Some {| status := 401; response_data := ∅ |})) /\
  refresh_posts
    (new_events logged_in
       (snd (request expired_server 2 apiClient get_hospitals logged_in))) = 1.
Proof.
  destruct (refresh_call_bypasses_interceptors expired_server 2 get_hospitals
              logged_in) as (_ & _ & _ & H); [lia|].
  destruct (H {| status := 401; response_data := ∅ |}
              (AxiosError (refresh_post (store logged_in))
                 (Some {| status := 401; response_data := ∅ |})))
    as (Hresult & _ & Hposts & _); try reflexivity.
  split; [exact Hresult | exact Hposts].
Defined.

(** *** Further properties of the request client *)

(** The request settles: with fuel for the refresh and the retry its result
    no longer depends on the fuel, and its promise is not left pending.  The
    flag [_retry] ends the recursion through the response interceptor. *)
Theorem request_settles
    (network : list Event -> Instance -> Config -> option Response) (fuel : nat)
    (config : Config) (w : World) :
  2 <= fuel ->
  request network fuel apiClient config w = request network 2 apiClient config w /\
  fst (request network fuel apiClient config w) <> Pending.
Proof.
  intros Hfuel. destruct fuel as [|[|fuel]]; [lia..|].
  split.
  - rewrite (request_unfold network fuel), (request_unfold network 0).
    reflexivity.
  - apply (run_bounds network fuel config w).
Qed.

Lemma request_settles_witness :
  request token_server 5 apiClient get_hospitals logged_in =
  request token_server 2 apiClient get_hospitals logged_in.
Proof.
  apply (request_settles token_server 5 get_hospitals logged_in). lia.
Defined.

(** Every run starts by reading the access token and sending the request
    with it: [Authorization: Bearer <accessToken>] when a token is stored.
    An answer that is not a 401 (a success, any other status, no answer at
    all), and a 401 to a request that already carries the flag, settles the
    promise as it is, with no refresh and no retry. *)
Theorem request_sends_bearer_and_surfaces
    (network : list Event -> Instance -> Config -> option Response) (fuel : nat)
    (config : Config) (w : World) (token : string) :
  2 <= fuel ->
  store w !! "accessToken" = Some token -> token <> EmptyString ->
  let first := authorized (store w) config in
  let run := request network fuel apiClient config w in
  Authorization first = Some ("Bearer " ++ token)%string /\
  (exists rest,
     new_events w (snd run) = GetItem "accessToken" :: Http apiClient first :: rest) /\
  ((forall r, network (wire (trace w)) apiClient first = Some r ->
              status r <> 401%Z \/ _retry config = true) ->
   fst run = settle first (network (wire (trace w)) apiClient first) /\
   new_events w (snd run) = [GetItem "accessToken"; Http apiClient first] /\
   store (snd run) = store w).
Proof.
  intros Hfuel Htok Hne. cbv zeta.
  destruct fuel as [|[|fuel]]; [lia..|].
  split.
  { unfold authorized. rewrite Htok.
    destruct token; [congruence | reflexivity]. }
  rewrite request_unfold. cbv zeta.
  split.
  - repeat case_match; cbn [fst snd app]; rewrite new_events_app;
      eexists; reflexivity.
  - intros Hother. unfold settle.
    destruct (network (wire (trace w)) apiClient _) as [r1|];
      [|cbn [fst snd]; rewrite new_events_app; repeat split].
    destruct (validateStatus (status r1));
      [cbn [fst snd]; rewrite new_events_app; repeat split|].
    assert (Hcond : (status r1 =? 401)%Z && negb (_retry config) = false).
    { destruct (Hother r1 eq_refl) as [Hs|Hr].
      - apply Z.eqb_neq in Hs. rewrite Hs. reflexivity.
      - rewrite Hr. apply andb_false_r. }
    rewrite Hcond. cbn [fst snd]. rewrite new_events_app. repeat split.
Qed.

Lemma request_sends_bearer_and_surfaces_witness :
  Authorization (authorized (store logged_in) get_hospitals) = Some "Bearer A1".
Proof.
  apply (request_sends_bearer_and_surfaces token_server 2 get_hospitals
           logged_in "A1"); [lia | reflexivity | discriminate].
Defined.

(** A rejected refresh leaves the stored tokens as they were: the client
    clears nothing. *)
Theorem rejected_refresh_keeps_tokens
    (network : list Event -> Instance -> Config -> option Response) (fuel : nat)
    (config : Config) (w : World) (r1 : Response) (e : Error) :
  2 <= fuel ->
  _retry config = false ->
  network (wire (trace w)) apiClient (authorized (store w) config) = Some r1 ->
  status r1 = 401%Z ->
  truthy (store w !! "refreshToken") = true ->
  settle (refresh_post (store w))
    (network (wire (trace w) ++ [Http apiClient (authorized (store w) config)])
       axios (refresh_post (store w))) = Rejected e ->
  store (snd (request network fuel apiClient config w)) = store w.
Proof.
  intros Hfuel Hretry H1 Hs1 Hrt He.
  destruct fuel as [|[|fuel]]; [lia..|].
  rewrite (run_refresh_rejected network fuel config w r1 e) by assumption.
  reflexivity.
Qed.

Lemma rejected_refresh_keeps_tokens_witness :
  store (snd (request expired_server 2 apiClient get_hospitals logged_in)) =
  store logged_in.
Proof.
  apply (rejected_refresh_keeps_tokens expired_server 2 get_hospitals logged_in
           {| status := 401; response_data := ∅ |}
           (AxiosError (refresh_post (store logged_in))
              (Some {| status := 401; response_data := ∅ |})));
    [lia | reflexivity..].
Defined.

(** A refresh answer that carries a new access token and no refresh token
    is not both-or-neither: the access token has been written when the
    write of the refresh token throws, the promise is rejected with that
    error, and the request is not retried. *)
Theorem refresh_answer_without_refresh_token
    (network : list Event -> Instance -> Config -> option Response) (fuel : nat)
    (config : Config) (w : World) (r1 r2 : Response) (a : string) :
  2 <= fuel ->
  _retry config = false ->
  network (wire (trace w)) apiClient (authorized (store w) config) = Some r1 ->
  status r1 = 401%Z ->
  truthy (store w !! "refreshToken") = true ->
  network (wire (trace w) ++ [Http apiClient (authorized (store w) config)])
    axios (refresh_post (store w)) = Some r2 ->
  validateStatus (status r2) = true ->
  response_data r2 !! "access" = Some (JString a) ->
  response_data r2 !! "refresh" = None ->
  let run := request network fuel apiClient config w in
  fst run = Rejected InvalidValue /\
  credentials (store (snd run)) = (Some a, store w !! "refreshToken") /\
  sends_of config (new_events w (snd run)) = 1.
Proof.
  intros Hfuel Hretry H1 Hs1 Hrt H2 Hs2 Ha Hr. cbv zeta.
  destruct fuel as [|[|fuel]]; [lia..|].
  rewrite request_unfold. cbv zeta.
  rewrite H1, Hs1, Hretry, Hrt, H2, Hs2, Ha, Hr.
  change (validateStatus 401) with false. cbn [fst snd andb negb app].
  change ((401 =? 401)%Z) with true. cbn [fst snd andb negb app].
  rewrite new_events_app.
  split; [reflexivity|]. split.
  - unfold credentials. cbn [store]. rewrite lookup_insert_eq.
    rewrite lookup_insert_ne by discriminate. reflexivity.
  - count_calls. reflexivity.
Qed.

Lemma refresh_answer_without_refresh_token_witness :
  credentials
    (store (snd (request access_only_server 2 apiClient get_hospitals logged_in))) =
  (Some "A2", Some "R1").
Proof.
  destruct (refresh_answer_without_refresh_token access_only_server 2
              get_hospitals logged_in
              {| status := 401; response_data := ∅ |}
              {| status := 200; response_data := {[ "access" := JString "A2" ]} |}
              "A2")
    as (_ & Hpair & _); [lia | reflexivity..|].
  exact Hpair.
Defined.

End ClientTheorems.

(** ** The session *)

Section SessionProperties.
Import Text Client Session.

Lemma trimStart_blank (s : string) : is_empty (trimStart s) = blank s.
Proof.
  induction s as [|c s IH]; [reflexivity|].
  cbn [trimStart blank]. destruct (is_space c); [exact IH | reflexivity].
Qed.

Lemma trimEnd_empty (s : string) : is_empty (trimEnd s) = blank s.
Proof.
  induction s as [|c s IH]; [reflexivity|].
  cbn [trimEnd blank]. rewrite IH.
  destruct (is_space c), (blank s); reflexivity.
Qed.

Lemma blank_trimStart (s : string) : blank (trimStart s) = blank s.
Proof.
  induction s as [|c s IH]; [reflexivity|].
  cbn [trimStart blank]. destruct (is_space c) eqn:Hc; [exact IH|].
  cbn [blank]. rewrite Hc. reflexivity.
Qed.

(** [!s.trim()] holds exactly of the strings of white space. *)
Lemma trim_empty (s : string) : is_empty (trim s) = blank s.
Proof. unfold trim. rewrite trimEnd_empty. apply blank_trimStart. Qed.

Lemma request_fulfilled
    (network : list Event -> Instance -> Config -> option Response)
    (fuel : nat) (config : Config) (w : World) (r : Response) :
  network (wire (trace w)) apiClient (authorized (store w) config) = Some r ->
  validateStatus (status r) = true ->
  request network (S (S fuel)) apiClient config w =
  (Fulfilled r,
   {| store := store w;
      trace := trace w ++
        [GetItem "accessToken"; Http apiClient (authorized (store w) config)] |}).
Proof.
  intros Hnet Hok. rewrite request_unfold. cbv zeta.
  rewrite Hnet, Hok. reflexivity.
Qed.

(** An answer that is neither a success nor a 401 that can be refreshed
    rejects the request after the one send. *)
Lemma request_rejected_once
    (network : list Event -> Instance -> Config -> option Response)
    (fuel : nat) (config : Config) (w : World) :
  (forall r,
     network (wire (trace w)) apiClient (authorized (store w) config) = Some r ->
     validateStatus (status r) = false /\
     (status r <> 401%Z \/ truthy (store w !! "refreshToken") = false)) ->
  exists e,
    request network (S (S fuel)) apiClient config w =
    (Rejected e,
     {| store := store w;
        trace := trace w ++
          GetItem "accessToken" :: Http apiClient (authorized (store w) config) ::
          (if truthy (store w !! "refreshToken") then []
           else match network (wire (trace w)) apiClient
                        (authorized (store w) config) with
                | Some r =>
                    if (status r =? 401)%Z && negb (_retry config)
                    then [GetItem "refreshToken"] else []
                | None => []
                end) |}).
Proof.
  intros Hanswer. rewrite request_unfold. cbv zeta.
  destruct (network (wire (trace w)) apiClient _) as [r|].
  - destruct (Hanswer r eq_refl) as [Hbad Hwhy]. rewrite Hbad.
    destruct ((status r =? 401)%Z && negb (_retry config)) eqn:Hcond.
    + apply andb_prop in Hcond as [H401 _]. apply Z.eqb_eq in H401.
      destruct Hwhy as [Hne|Hrt]; [congruence|]. rewrite Hrt.
      eexists. reflexivity.
    + destruct (truthy (store w !! "refreshToken")); eexists; reflexivity.
  - destruct (truthy (store w !! "refreshToken")); eexists; reflexivity.
Qed.

End SessionProperties.

Section SessionTheorems.
Import Text Client Session.

(** A sign-in that the server accepts stores the pair the server sent,
    with one request on the wire, and shows the main tabs; from then on the
    app starts on the main tabs and the request interceptor sends
    [Bearer <access>]. *)
Theorem handleLogin_stores_session
    (network : list Event -> Instance -> Config -> option Response) (fuel : nat)
    (username password : string) (w : World) (r : Response) (a rf : string) :
  2 <= fuel ->
  blank username = false -> blank password = false ->
  let login := post_config "/token/" (login_body username password) in
  network (wire (trace w)) apiClient (authorized (store w) login) = Some r ->
  validateStatus (status r) = true ->
  response_data r !! "access" = Some (JString a) ->
  response_data r !! "refresh" = Some (JString rf) ->
  a <> EmptyString ->
  let run := handleLogin network fuel username password w in
  fst run = Fulfilled (Replace "/(tabs)") /\
  store (snd run) = <["refreshToken" := rf]> (<["accessToken" := a]> (store w)) /\
  wire (new_events w (snd run)) = [Http apiClient (authorized (store w) login)] /\
  fst (checkAuthStatus (snd run)) = Fulfilled (Replace "/(tabs)") /\
  forall config,
    fst (requestInterceptor config (snd run)) =
    Fulfilled (with_Authorization ("Bearer " ++ a) config).
Proof.
  intros Hfuel Hu Hp login Hnet Hok Ha Hrf Hne. cbv zeta.
  destruct fuel as [|[|fuel]]; [lia..|].
  unfold handleLogin. rewrite !trim_empty, Hu, Hp. cbn [orb].
  unfold try_catch, mbind, Async_bind.
  fold login. rewrite (request_fulfilled network fuel login w r Hnet Hok).
  unfold setItemAsync. rewrite Ha, Hrf.
  unfold mret, Async_ret. cbn [fst snd store trace].
  assert (Hlook : <["refreshToken" := rf]> (<["accessToken" := a]> (store w))
                    !! "accessToken" = Some a).
  { rewrite lookup_insert_ne by discriminate. apply lookup_insert_eq. }
  split; [reflexivity|]. split; [reflexivity|]. split.
  { unfold new_events. cbn [trace]. rewrite <- !app_assoc, drop_app_length.
    reflexivity. }
  split.
  - unfold checkAuthStatus, try_catch, mbind, Async_bind, getItemAsync.
    cbn [store]. rewrite Hlook.
    destruct a; [congruence | reflexivity].
  - intros config. rewrite requestInterceptor_run. cbn [fst store].
    unfold authorized. rewrite Hlook.
    destruct a; [congruence | reflexivity].
Qed.

Lemma handleLogin_stores_session_witness :
  fst (handleLogin login_server 2 "ann" "secret" signed_out) =
    Fulfilled (Replace "/(tabs)") /\
  credentials (store (snd (handleLogin login_server 2 "ann" "secret" signed_out))) =
    (Some "A1", Some "R1").
Proof.
  destruct (handleLogin_stores_session login_server 2 "ann" "secret" signed_out
              {| status := 200;
                 response_data :=
                   {[ "access" := JString "A1"; "refresh" := JString "R1" ]} |}
              "A1" "R1")
    as (Hui & Hstore & _); [lia | reflexivity.. | discriminate |].
  split; [exact Hui | rewrite Hstore; reflexivity].
Defined.

(** A sign-in that is refused, answered with any error status or not
    answered at all shows the same "Login Failed" alert and leaves the store
    as it was, after one request; a 401 is taken here with no refresh token
    in store, so that the response interceptor has nothing to refresh. *)
Theorem handleLogin_failure_keeps_store
    (network : list Event -> Instance -> Config -> option Response) (fuel : nat)
    (username password : string) (w : World) :
  2 <= fuel ->
  blank username = false -> blank password = false ->
  let login := post_config "/token/" (login_body username password) in
  (forall r,
     network (wire (trace w)) apiClient (authorized (store w) login) = Some r ->
     validateStatus (status r) = false /\
     (status r <> 401%Z \/ truthy (store w !! "refreshToken") = false)) ->
  let run := handleLogin network fuel username password w in
  fst run =
    Fulfilled (Alert "Login Failed"
                 "Invalid username or password. Please try again.") /\
  store (snd run) = store w /\
  wire (new_events w (snd run)) = [Http apiClient (authorized (store w) login)].
Proof.
  intros Hfuel Hu Hp login Hanswer. cbv zeta.
  destruct fuel as [|[|fuel]]; [lia..|].
  unfold handleLogin. rewrite !trim_empty, Hu, Hp. cbn [orb].
  unfold try_catch, mbind, Async_bind. fold login.
  destruct (request_rejected_once network fuel login w Hanswer) as [e ->].
  unfold mret, Async_ret. cbn [fst snd store trace].
  split; [reflexivity|]. split; [reflexivity|].
  unfold new_events. cbn [trace]. rewrite drop_app_length.
  repeat case_match; reflexivity.
Qed.

Lemma handleLogin_failure_keeps_store_witness :
  fst (handleLogin login_server 2 "ann" "guess" signed_out) =
    Fulfilled (Alert "Login Failed"
                 "Invalid username or password. Please try again.") /\
  store (snd (handleLogin login_server 2 "ann" "guess" signed_out)) = ∅.
Proof.
  destruct (handleLogin_failure_keeps_store login_server 2 "ann" "guess"
              signed_out) as (Hui & Hstore & _); [lia | reflexivity.. | |].
  - intros r Hr. vm_compute in Hr. injection Hr as <-.
    split; [reflexivity | right; reflexivity].
  - split; [exact Hui | exact Hstore].
Defined.

(** [handleLogin] always comes back to the user, and it shows the main tabs
    only after it has stored an access token and a refresh token; with a
    blank user name or password it shows the "fill in all fields" alert
    and touches neither the network nor the store. *)
Theorem handleLogin_enters_only_with_tokens
    (network : list Event -> Instance -> Config -> option Response) (fuel : nat)
    (username password : string) (w : World) :
  2 <= fuel ->
  let run := handleLogin network fuel username password w in
  exists ui,
    fst run = Fulfilled ui /\
    (ui = Replace "/(tabs)" ->
     blank username = false /\ blank password = false /\
     exists a rf, credentials (store (snd run)) = (Some a, Some rf)) /\
    (blank username = true \/ blank password = true ->
     ui = Alert "Error" "Please fill in all fields" /\ snd run = w).
Proof.
  intros Hfuel. cbv zeta.
  destruct fuel as [|[|fuel]]; [lia..|].
  unfold handleLogin. rewrite !trim_empty.
  destruct (blank username) eqn:Hu; cbn [orb].
  { eexists. split; [reflexivity|]. split; [discriminate|]. intros _. split; reflexivity. }
  destruct (blank password) eqn:Hp; cbn [orb].
  { eexists. split; [reflexivity|]. split; [discriminate|]. intros _. split; reflexivity. }
  set (login := post_config "/token/" (login_body username password)).
  destruct (run_bounds network fuel login w) as (_ & _ & _ & Hset & _).
  unfold try_catch, mbind, Async_bind, mret, Async_ret.
  destruct (request network (S (S fuel)) apiClient login w) as [p w1].
  cbn [fst] in Hset.
  destruct p as [r|e|]; [| |congruence].
  - unfold setItemAsync.
    destruct (response_data r !! "access") as [[a|]|];
      [|eexists; (split; [reflexivity|]); (split; [discriminate|]);
        intros [?|?]; discriminate..].
    destruct (response_data r !! "refresh") as [[rf|]|];
      [|eexists; (split; [reflexivity|]); (split; [discriminate|]);
        intros [?|?]; discriminate..].
    eexists. split; [reflexivity|]. split; [|intros [?|?]; discriminate].
    intros _. do 2 (split; [reflexivity|]).
    exists a, rf. unfold credentials. cbn [snd store].
    rewrite lookup_insert_eq. rewrite lookup_insert_ne by discriminate.
    rewrite lookup_insert_eq. reflexivity.
  - eexists. split; [reflexivity|]. split; [discriminate|].
    intros [?|?]; discriminate.
Qed.

Lemma handleLogin_enters_only_with_tokens_witness :
  exists ui, fst (handleLogin login_server 2 "ann" "  " signed_out) = Fulfilled ui.
Proof.
  destruct (handleLogin_enters_only_with_tokens login_server 2 "ann" "  "
              signed_out) as (ui & Hui & _); [lia|].
  exists ui. exact Hui.
Defined.

(** Signing out removes both tokens and nothing else and shows the sign-in
    screen; "Cancel" changes nothing.  After signing out the app starts on
    the sign-in screen, and a request goes out once and as it was given: the
    interceptor adds no [Authorization] header, a 401 is rejected as
    unauthenticated with no call to the refresh endpoint, and nothing is
    written to the store. *)
Theorem handleLogout_ends_session
    (network : list Event -> Instance -> Config -> option Response) (fuel : nat)
    (config : Config) (w : World) :
  2 <= fuel ->
  let run := handleLogout true w in
  let after := request network fuel apiClient config (snd run) in
  handleLogout false w = (Fulfilled None, w) /\
  fst run = Fulfilled (Some (Replace "/auth/login")) /\
  credentials (store (snd run)) = (None, None) /\
  (forall key, key <> "accessToken" -> key <> "refreshToken" ->
               store (snd run) !! key = store w !! key) /\
  fst (checkAuthStatus (snd run)) = Fulfilled (Replace "/auth/login") /\
  wire (new_events (snd run) (snd after)) = [Http apiClient config] /\
  store (snd after) = store (snd run) /\
  (forall r,
     network (wire (trace w)) apiClient config = Some r -> status r = 401%Z ->
     Unauthenticated (fst after)).
Proof.
  intros Hfuel. cbv zeta.
  destruct fuel as [|[|fuel]]; [lia..|].
  unfold handleLogout, try_catch, mbind, Async_bind, deleteItemAsync,
    mret, Async_ret.
  cbn [fst snd store trace].
  set (s := delete "refreshToken" (delete "accessToken" (store w))).
  assert (Hat : s !! "accessToken" = None).
  { unfold s. rewrite lookup_delete_ne by discriminate. apply lookup_delete_eq. }
  assert (Hrt : s !! "refreshToken" = None) by apply lookup_delete_eq.
  split; [reflexivity|]. split; [reflexivity|].
  split; [unfold credentials; rewrite Hat, Hrt; reflexivity|].
  split.
  { intros key H1 H2. unfold s. rewrite !lookup_delete_ne by congruence.
    reflexivity. }
  split.
  { unfold checkAuthStatus, try_catch, mbind, Async_bind, getItemAsync.
    cbn [store]. rewrite Hat. reflexivity. }
  rewrite request_unfold. cbv zeta. cbn [store trace].
  assert (Hauth : authorized s config = config).
  { unfold authorized. rewrite Hat. reflexivity. }
  rewrite Hauth, Hrt. cbn [truthy negb].
  split; [|split].
  - unfold new_events.
    repeat case_match; cbn [fst snd app trace]; rewrite drop_app_length;
      reflexivity.
  - repeat case_match; reflexivity.
  - intros r Hr H401. rewrite Hr, H401.
    change (validateStatus 401) with false. change (401 =? 401)%Z with true.
    destruct (_retry config); cbn [andb negb fst];
      eexists _, r; (split; [reflexivity | exact H401]).
Qed.

Lemma handleLogout_ends_session_witness :
  credentials (store (snd (handleLogout true logged_in))) = (None, None) /\
  wire (new_events (snd (handleLogout true logged_in))
          (snd (request token_server 2 apiClient get_hospitals
                  (snd (handleLogout true logged_in))))) =
    [Http apiClient get_hospitals].
Proof.
  destruct (handleLogout_ends_session token_server 2 get_hospitals logged_in)
    as (_ & _ & Hpair & _ & _ & Hwire & _); [lia|].
  split; [exact Hpair | exact Hwire].
Defined.

End SessionTheorems.

(** ** Display helpers *)

Section DisplayProperties.
Import Text Display.

Lemma pretty_N_char_digit (x : N) : is_digit (pretty_N_char x) = true.
Proof. unfold pretty_N_char. repeat case_match; reflexivity. Qed.

Lemma pretty_N_go_digits (x : N) (s : string) :
  all_digits s = true -> all_digits (pretty_N_go x s) = true.
Proof.
  revert s. induction (N.lt_wf_0 x) as [x _ IH]; intros s Hs.
  assert (x = 0 \/ 0 < x)%N as [->|Hpos] by lia.
  - rewrite pretty_N_go_0. exact Hs.
  - rewrite pretty_N_go_step by exact Hpos. apply IH.
    + apply N.div_lt; [exact Hpos | reflexivity].
    + cbn [all_digits]. rewrite pretty_N_char_digit. exact Hs.
Qed.

Lemma pretty_N_digits (x : N) : all_digits (pretty x) = true.
Proof.
  unfold pretty, pretty_N. case_decide; [reflexivity|].
  apply pretty_N_go_digits. reflexivity.
Qed.

Lemma all_digits_sign_or_digit (s : string) :
  all_digits s = true ->
  span is_sign_or_digit s = (s, EmptyString).
Proof.
  induction s as [|c s IH]; [reflexivity|].
  cbn [all_digits span]. intros [Hc Hs]%andb_prop.
  unfold is_sign_or_digit at 1. rewrite Hc. cbn [orb].
  rewrite (IH Hs). reflexivity.
Qed.

Lemma span_app (p : Ascii.ascii -> bool) (s : string) (c : Ascii.ascii)
    (t : string) :
  span p s = (s, EmptyString) -> p c = false ->
  span p (s +:+ String c t) = (s, String c t).
Proof.
  intros Hs Hc. induction s as [|a s IH].
  - change (span p (String c t) = (EmptyString, String c t)).
    cbn [span]. rewrite Hc. reflexivity.
  - change (span p (String a (s +:+ String c t)) = (String a s, String c t)).
    cbn [span] in *. destruct (p a); [|discriminate].
    destruct (span p s) as [x y]. cbn [fst snd] in *.
    injection Hs as -> ->. rewrite IH by reflexivity. reflexivity.
Qed.

Lemma span_pretty_Z (z : Z) :
  span is_sign_or_digit (pretty z) = (pretty z, EmptyString).
Proof.
  unfold pretty, pretty_Z. destruct z as [|p|p].
  - reflexivity.
  - apply all_digits_sign_or_digit, pretty_N_digits.
  - pose proof (all_digits_sign_or_digit _ (pretty_N_digits (Npos p))) as H.
    change (pretty (N.pos p)) with (pretty p) in H.
    change (span is_sign_or_digit (String (Ascii.ascii_of_N 45) (pretty p)) =
            (String (Ascii.ascii_of_N 45) (pretty p), EmptyString)).
    cbn [span]. rewrite H. reflexivity.
Qed.

(** A number followed by a character that is no digit reads back. *)
Lemma pretty_Z_then (z1 z2 : Z) (c1 c2 : Ascii.ascii) (t1 t2 : string) :
  is_sign_or_digit c1 = false -> is_sign_or_digit c2 = false ->
  pretty z1 +:+ String c1 t1 = pretty z2 +:+ String c2 t2 ->
  z1 = z2 /\ c1 = c2 /\ t1 = t2.
Proof.
  intros H1 H2 E.
  apply (f_equal (span is_sign_or_digit)) in E.
  rewrite !span_app in E by (try apply span_pretty_Z; assumption).
  injection E as Ez Ec Et. split; [|split; assumption].
  apply (inj pretty). exact Ez.
Qed.

Lemma hours_minutes (m : Z) :
  (60 <= m)%Z -> m = (60 * (m / 60) + Z.rem m 60)%Z /\ (0 <= Z.rem m 60 < 60)%Z.
Proof.
  intros Hm. rewrite Z.rem_mod_nonneg by lia.
  pose proof (Z.div_mod m 60 ltac:(lia)).
  pose proof (Z.mod_pos_bound m 60 ltac:(lia)). lia.
Qed.

Lemma digits_all_digits (s : string) : all_digits (digits s) = true.
Proof.
  induction s as [|c s IH]; [reflexivity|].
  cbn [digits]. destruct (is_digit c) eqn:Hc; [|exact IH].
  cbn [all_digits]. rewrite Hc. exact IH.
Qed.

Lemma digits_fixed (d : string) : all_digits d = true -> digits d = d.
Proof.
  induction d as [|c d IH]; [reflexivity|].
  cbn [all_digits digits]. intros [Hc Hd]%andb_true_iff.
  rewrite Hc, (IH Hd). reflexivity.
Qed.

Lemma digit_not_T (c : Ascii.ascii) (d : string) :
  is_digit c = true -> String.prefix "Text" (String c d) = false.
Proof.
  destruct c as [[] [] [] [] [] [] [] []]; try discriminate; reflexivity.
Qed.

Lemma all_digits_no_Text (d : string) :
  all_digits d = true -> includes d "Text" = false.
Proof.
  induction d as [|c d IH]; [reflexivity|].
  cbn [all_digits]. intros [Hc Hd]%andb_true_iff.
  change (includes (String c d) "Text")
    with (String.prefix "Text" (String c d) || includes d "Text").
  rewrite (digit_not_T c d Hc), (IH Hd). reflexivity.
Qed.

Lemma prefix_spec (sub s : string) :
  String.prefix sub s = true <-> exists b : string, s = sub +:+ b.
Proof.
  revert s. induction sub as [|c sub IH]; intros s.
  - split; [intros _; exists s; reflexivity | intros _; destruct s; reflexivity].
  - destruct s as [|c' s].
    + split; [discriminate | intros [b Hb]; discriminate Hb].
    + change (String.prefix (String c sub) (String c' s))
        with (if Ascii.ascii_dec c c' then String.prefix sub s else false).
      destruct (Ascii.ascii_dec c c') as [->|N].
      * rewrite IH. split; intros [b Hb]; exists b.
        -- change (String c' s = String c' (sub +:+ b)). rewrite Hb. reflexivity.
        -- change (String c' s = String c' (sub +:+ b)) in Hb. congruence.
      * split; [discriminate|]. intros [b Hb].
        change (String c' s = String c (sub +:+ b)) in Hb. congruence.
Qed.

Lemma includes_spec (s sub : string) :
  includes s sub = true <-> exists a b : string, s = a +:+ sub +:+ b.
Proof.
  induction s as [|c s IH].
  - change (includes EmptyString sub) with (String.prefix sub EmptyString || false).
    rewrite orb_false_r, prefix_spec. split.
    + intros [b Hb]. exists EmptyString, b. exact Hb.
    + intros (a & b & H). destruct a as [|? ?]; [|discriminate H].
      exists b. exact H.
  - change (includes (String c s) sub)
      with (String.prefix sub (String c s) || includes s sub).
    rewrite orb_true_iff, prefix_spec, IH. split.
    + intros [[b Hb]|(a & b & H)].
      * exists EmptyString, b. exact Hb.
      * exists (String c a), b.
        change (String c s = String c (a +:+ sub +:+ b)). rewrite H. reflexivity.
    + intros (a & b & H). destruct a as [|c' a].
      * left. exists b. exact H.
      * right. exists a, b.
        change (String c s = String c' (a +:+ sub +:+ b)) in H. congruence.
Qed.

Lemma digits_filter (s : string) :
  String.list_ascii_of_string (digits s) =
  List.filter is_digit (String.list_ascii_of_string s).
Proof.
  induction s as [|c s IH]; [reflexivity|].
  cbn [digits String.list_ascii_of_string List.filter].
  destruct (is_digit c); cbn [String.list_ascii_of_string]; rewrite IH;
    reflexivity.
Qed.

End DisplayProperties.

Section DisplayTheorems.
Import Text Display.

(** Two different wait times are never displayed alike.  The wait times are
    the whole numbers of minutes that binary64 holds exactly, those below
    [2^53] in magnitude: on them the division of the code and the division
    of the model agree. *)
Theorem formatWaitTime_unambiguous (m1 m2 : Z) :
  (- 2 ^ 53 < m1 < 2 ^ 53)%Z -> (- 2 ^ 53 < m2 < 2 ^ 53)%Z ->
  m1 <> m2 -> formatWaitTime m1 <> formatWaitTime m2.
Proof.
  intros _ _ Hne E. apply Hne. clear Hne. unfold formatWaitTime in E.
  destruct (Z.ltb_spec m1 60) as [H1|H1], (Z.ltb_spec m2 60) as [H2|H2];
    cbv zeta in E.
  - apply (pretty_Z_then m1 m2 _ _ "min" "min") in E; [tauto | reflexivity..].
  - exfalso.
    destruct (0 <? Z.rem m2 60)%Z.
    + apply (pretty_Z_then m1 (m2 / 60) _ _ "min"
               (" " +:+ pretty (Z.rem m2 60) +:+ "m")) in E;
        [|reflexivity..].
      destruct E as (_ & E & _). discriminate E.
    + apply (pretty_Z_then m1 (m2 / 60) _ _ "min" "") in E; [|reflexivity..].
      destruct E as (_ & E & _). discriminate E.
  - exfalso.
    destruct (0 <? Z.rem m1 60)%Z.
    + apply (pretty_Z_then (m1 / 60) m2 _ _
               (" " +:+ pretty (Z.rem m1 60) +:+ "m") "min") in E;
        [|reflexivity..].
      destruct E as (_ & E & _). discriminate E.
    + apply (pretty_Z_then (m1 / 60) m2 _ _ "" "min") in E; [|reflexivity..].
      destruct E as (_ & E & _). discriminate E.
  - destruct (hours_minutes m1 H1) as [E1 B1], (hours_minutes m2 H2) as [E2 B2].
    destruct (Z.ltb_spec 0 (Z.rem m1 60)) as [R1|R1],
             (Z.ltb_spec 0 (Z.rem m2 60)) as [R2|R2].
    + apply (pretty_Z_then (m1 / 60) (m2 / 60) _ _
               (" " +:+ pretty (Z.rem m1 60) +:+ "m")
               (" " +:+ pretty (Z.rem m2 60) +:+ "m")) in E;
        [|reflexivity..].
      destruct E as (Eh & _ & Et). injection Et as Et.
      apply (pretty_Z_then _ _ _ _ "" "") in Et; [|reflexivity..].
      destruct Et as (Er & _). lia.
    + apply (pretty_Z_then (m1 / 60) (m2 / 60) _ _
               (" " +:+ pretty (Z.rem m1 60) +:+ "m") "") in E;
        [|reflexivity..].
      destruct E as (_ & _ & Et). discriminate Et.
    + apply (pretty_Z_then (m1 / 60) (m2 / 60) _ _ ""
               (" " +:+ pretty (Z.rem m2 60) +:+ "m")) in E;
        [|reflexivity..].
      destruct E as (_ & _ & Et). discriminate Et.
    + apply (pretty_Z_then (m1 / 60) (m2 / 60) _ _ "" "") in E;
        [|reflexivity..].
      destruct E as (Eh & _). lia.
Qed.

Lemma formatWaitTime_unambiguous_witness :
  formatWaitTime 59 <> formatWaitTime 60.
Proof. apply (formatWaitTime_unambiguous 59 60); lia. Defined.

(** A number that contains [Text] opens nothing.  Any other number opens
    [tel:] followed by its digits, in their order and nothing else, and
    dialling those digits opens the same. *)
Theorem callEmergencyNumber_dials_digits (number : string) :
  ((exists a b : string, number = a +:+ "Text" +:+ b) ->
   callEmergencyNumber number = None) /\
  (~ (exists a b : string, number = a +:+ "Text" +:+ b) ->
   exists d : string,
     callEmergencyNumber number = Some ("tel:" +:+ d) /\
     String.list_ascii_of_string d =
       List.filter is_digit (String.list_ascii_of_string number) /\
     callEmergencyNumber d = Some ("tel:" +:+ d)).
Proof.
  unfold callEmergencyNumber. split.
  - intros H%includes_spec. rewrite H. reflexivity.
  - intros H. destruct (includes number "Text") eqn:E.
    { exfalso. apply H, includes_spec, E. }
    exists (digits number). split; [reflexivity|].
    split; [apply digits_filter|].
    rewrite (all_digits_no_Text _ (digits_all_digits number)).
    rewrite (digits_fixed _ (digits_all_digits number)). reflexivity.
Qed.

Lemma callEmergencyNumber_dials_digits_witness :
  callEmergencyNumber "Text HOME to 741741" = None /\
  exists d : string,
    callEmergencyNumber "1-800-222-1222" = Some ("tel:" +:+ d) /\
    String.list_ascii_of_string d = String.list_ascii_of_string "18002221222".
Proof.
  split.
  - apply (proj1 (callEmergencyNumber_dials_digits "Text HOME to 741741")).
    exists EmptyString, " HOME to 741741". reflexivity.
  - destruct (proj2 (callEmergencyNumber_dials_digits "1-800-222-1222"))
      as (d & E & F & _).
    + intros H%includes_spec. discriminate H.
    + exists d. split; [exact E | exact F].
Defined.

End DisplayTheorems.

(** ** The registration forms *)

Section RegExpProperties.
Import Text RegExp.

Lemma append_empty (a b : string) :
  a +:+ b = EmptyString -> a = EmptyString /\ b = EmptyString.
Proof. destruct a; [tauto | discriminate]. Qed.

Lemma repeat_iff (i : Item) (k : string -> bool) (s : string) :
  forall n : nat,
    repeat i k n s = true <->
    exists a b : string,
      s = a +:+ b /\ all (class i) a = true /\
      least i <= n + String.length a /\
      (a = EmptyString \/
       match most i with
       | Some m => n + String.length a <= m
       | None => True
       end) /\
      k b = true.
Proof.
  induction s as [|c s IH]; intros n; cbn [repeat].
  - rewrite orb_false_r, andb_true_iff, Nat.leb_le. split.
    + intros [Hl Hk]. exists EmptyString, EmptyString.
      cbn. repeat split; auto; lia.
    + intros (a & b & E & _ & Hl & _ & Hk).
      symmetry in E. apply append_empty in E as [-> ->].
      cbn in Hl. split; [lia | exact Hk].
  - rewrite orb_true_iff, !andb_true_iff, Nat.leb_le, IH. split.
    + intros [[Hl Hk] | [[Hm Hc] (a & b & -> & Ha & Hl & Hmost & Hk)]].
      * exists EmptyString, (String c s). cbn. repeat split; auto; lia.
      * exists (String c a), b. cbn [all String.length].
        rewrite Hc, Ha. repeat split; auto; [lia|].
        right. unfold more_allowed in Hm.
        destruct (most i) as [m|]; [|exact I].
        apply Nat.ltb_lt in Hm.
        destruct Hmost as [-> | Hmost]; cbn [String.length] in *; lia.
    + intros (a & b & E & Ha & Hl & Hmost & Hk).
      destruct a as [|c' a].
      * change (String c s = b) in E. cbn in Hl. rewrite <- E in Hk.
        left. split; [lia | exact Hk].
      * change (String c s = String c' (a +:+ b)) in E.
        injection E as <- ->.
        cbn [all String.length] in *.
        apply andb_true_iff in Ha as [Hc Ha].
        destruct Hmost as [? | Hmost]; [discriminate|].
        right. split; [split; [|exact Hc]|].
        -- unfold more_allowed. destruct (most i) as [m|]; [|reflexivity].
           apply Nat.ltb_lt. lia.
        -- exists a, b. repeat split; auto; [lia|].
           right. destruct (most i); [lia | exact I].
Qed.

Lemma test_cons (i : Item) (r : list Item) (s : string) :
  test (i :: r) s = true <->
  exists a b : string, s = a +:+ b /\ within i a /\ test r b = true.
Proof.
  cbn [test]. rewrite repeat_iff. unfold within. split.
  - intros (a & b & E & Ha & Hl & Hmost & Hk). exists a, b.
    repeat split; auto.
    destruct Hmost as [-> | Hmost]; destruct (most i); cbn in *; auto; lia.
  - intros (a & b & E & (Ha & Hl & Hmost) & Hk). exists a, b.
    repeat split; auto.
Qed.

Lemma test_nil (s : string) : test [] s = true <-> s = EmptyString.
Proof. destruct s; cbn; split; congruence. Qed.

Lemma within_one (p : Ascii.ascii -> bool) (a : string) :
  within (one p) a <-> exists c, a = String c EmptyString /\ p c = true.
Proof.
  unfold within, one. cbn [class least most]. split.
  - intros (Ha & Hl & Hm). destruct a as [|c [|c' a]]; cbn in *; try lia.
    exists c. rewrite andb_true_r in Ha. auto.
  - intros (c & -> & Hc). cbn. rewrite Hc. auto.
Qed.

Lemma within_plus (p : Ascii.ascii -> bool) (a : string) :
  within (plus p) a <-> is_empty a = false /\ all p a = true.
Proof.
  unfold within, plus. cbn [class least most].
  destruct a as [|c a]; cbn [is_empty String.length]; split.
  - intros (_ & Hl & _). lia.
  - intros [? _]. discriminate.
  - intros (Ha & _). auto.
  - intros [_ Ha]. repeat split; auto; lia.
Qed.

Lemma within_exactly (n : nat) (p : Ascii.ascii -> bool) (a : string) :
  within (exactly n p) a <-> String.length a = n /\ all p a = true.
Proof.
  unfold within, exactly, between. cbn [class least most]. split.
  - intros (Ha & Hl & Hm). split; [lia | exact Ha].
  - intros [Hn Ha]. repeat split; auto; lia.
Qed.

Lemma is_char_eq (n : N) (c : Ascii.ascii) :
  is_char n c = true -> c = Ascii.ascii_of_N n.
Proof.
  unfold is_char. intros H%N.eqb_eq. rewrite <- H.
  symmetry. apply Ascii.ascii_N_embedding.
Qed.

Lemma within_char (n : N) (a : string) :
  (n < 256)%N ->
  within (one (is_char n)) a <-> a = String (Ascii.ascii_of_N n) EmptyString.
Proof.
  intros Hn. rewrite within_one. split.
  - intros (c & -> & Hc). rewrite (is_char_eq n c Hc). reflexivity.
  - intros ->. eexists. split; [reflexivity|].
    unfold is_char. rewrite Ascii.N_ascii_embedding by exact Hn.
    apply N.eqb_refl.
Qed.

Lemma append_empty_r (s : string) : s +:+ EmptyString = s.
Proof.
  induction s as [|c s IH]; [reflexivity|].
  change (String c (s +:+ EmptyString) = String c s). rewrite IH. reflexivity.
Qed.

End RegExpProperties.

Section RegistrationProperties.
Import Text RegExp Registration.

Lemma within_optional (p : Ascii.ascii -> bool) (a : string) :
  within (optional p) a <->
  a = EmptyString \/ exists c, a = String c EmptyString /\ p c = true.
Proof.
  unfold within, optional. cbn [class least most]. split.
  - intros (Ha & _ & Hm). destruct a as [|c [|c' a]]; cbn in *; try lia.
    + left. reflexivity.
    + right. exists c. rewrite andb_true_r in Ha. auto.
  - intros [-> | (c & -> & Hc)]; cbn; [|rewrite Hc]; repeat split; lia.
Qed.

Lemma within_between_0 (m : nat) (p : Ascii.ascii -> bool) (a : string) :
  within (between 0 m p) a <-> all p a = true /\ String.length a <= m.
Proof.
  unfold within, between. cbn [class least most]. split.
  - intros (Ha & _ & Hm). auto.
  - intros [Ha Hm]. repeat split; auto; lia.
Qed.

Lemma emailRegex_shape (s : string) :
  test emailRegex s = true <-> email_shape s.
Proof.
  unfold emailRegex, email_shape. split.
  - intros (a & s1 & -> & Ha%within_plus & H)%test_cons.
    apply test_cons in H as (x & s2 & -> & Hx%within_char & H); [|reflexivity].
    apply test_cons in H as (b & s3 & -> & Hb%within_plus & H).
    apply test_cons in H as (y & s4 & -> & Hy%within_char & H); [|reflexivity].
    apply test_cons in H as (c & s5 & -> & Hc%within_plus & ->%test_nil).
    subst x y. rewrite append_empty_r. exists a, b, c. auto.
  - intros (a & b & c & -> & Ha & Hb & Hc).
    apply test_cons. exists a, ("@" +:+ b +:+ "." +:+ c).
    split; [reflexivity|]. split; [apply within_plus, Ha|].
    apply test_cons. exists "@", (b +:+ "." +:+ c).
    split; [reflexivity|]. split; [apply within_char; reflexivity|].
    apply test_cons. exists b, ("." +:+ c).
    split; [reflexivity|]. split; [apply within_plus, Hb|].
    apply test_cons. exists ".", c.
    split; [reflexivity|]. split; [apply within_char; reflexivity|].
    apply test_cons. exists c, EmptyString.
    split; [symmetry; apply append_empty_r|].
    split; [apply within_plus, Hc | reflexivity].
Qed.

Lemma dateRegex_shape (s : string) :
  test dateRegex s = true <-> date_shape s.
Proof.
  unfold dateRegex, date_shape, numeral. split.
  - intros (y & s1 & -> & Hy%within_exactly & H)%test_cons.
    apply test_cons in H as (x1 & s2 & -> & Hx1%within_char & H);
      [|reflexivity].
    apply test_cons in H as (m & s3 & -> & Hm%within_exactly & H).
    apply test_cons in H as (x2 & s4 & -> & Hx2%within_char & H);
      [|reflexivity].
    apply test_cons in H as (d & s5 & -> & Hd%within_exactly & ->%test_nil).
    subst x1 x2. rewrite append_empty_r. exists y, m, d. auto.
  - intros (y & m & d & -> & Hy & Hm & Hd).
    apply test_cons. exists y, ("-" +:+ m +:+ "-" +:+ d).
    split; [reflexivity|]. split; [apply within_exactly, Hy|].
    apply test_cons. exists "-", (m +:+ "-" +:+ d).
    split; [reflexivity|]. split; [apply within_char; reflexivity|].
    apply test_cons. exists m, ("-" +:+ d).
    split; [reflexivity|]. split; [apply within_exactly, Hm|].
    apply test_cons. exists "-", d.
    split; [reflexivity|]. split; [apply within_char; reflexivity|].
    apply test_cons. exists d, EmptyString.
    split; [symmetry; apply append_empty_r|].
    split; [apply within_exactly, Hd | reflexivity].
Qed.

Lemma all_digits_all (s : string) : all_digits s = all is_digit s.
Proof.
  induction s as [|c s IH]; [reflexivity|].
  cbn [all_digits all]. rewrite IH. reflexivity.
Qed.

Lemma separator_not_digit (c : Ascii.ascii) :
  is_separator c = true -> is_digit c = false.
Proof.
  destruct c as [[] [] [] [] [] [] [] []]; try discriminate; reflexivity.
Qed.

Lemma digits_remove_separator (s : string) :
  digits (remove is_separator s) = digits s.
Proof.
  induction s as [|c s IH]; [reflexivity|].
  cbn [remove digits]. destruct (is_separator c) eqn:Hc.
  - rewrite (separator_not_digit c Hc). exact IH.
  - cbn [digits]. rewrite IH. reflexivity.
Qed.

Lemma digit_1_9_digit (c : Ascii.ascii) :
  is_digit_1_9 c = true -> is_digit c = true.
Proof.
  unfold is_digit_1_9, is_digit.
  intros [H1 H2]%andb_true_iff. apply N.leb_le in H1.
  apply andb_true_iff. split; [apply N.leb_le; lia | exact H2].
Qed.

Lemma phoneRegex_shape (s : string) :
  test phoneRegex (remove is_separator s) = true <-> phone_shape s.
Proof.
  unfold phoneRegex, phone_shape.
  rewrite <- (digits_remove_separator s).
  generalize (remove is_separator s) as u. clear s. intros u. split.
  - intros (a & s1 & -> & Ha%within_optional & H)%test_cons.
    apply test_cons in H as (x & s2 & -> & (c & -> & Hc)%within_one & H).
    apply test_cons in H
      as (t & s3 & -> & [Ht Hl]%within_between_0 & ->%test_nil).
    rewrite append_empty_r. exists c, t.
    assert (Hd : digits (String c t) = String c t).
    { apply digits_fixed. cbn [all_digits].
      rewrite (digit_1_9_digit c Hc), all_digits_all. exact Ht. }
    destruct Ha as [-> | (p & -> & ->%is_char_eq)].
    + split; [left; reflexivity|]. auto.
    + split; [right; reflexivity|]. split; [exact Hd | auto].
  - intros (c & t & Hu & _ & Hc & Ht & Hl).
    assert (Hrest : test [one is_digit_1_9; between 0 15 is_digit]
                      (String c t) = true).
    { apply test_cons. exists (String c EmptyString), t.
      split; [reflexivity|]. split; [apply within_one; eauto|].
      apply test_cons. exists t, EmptyString.
      split; [symmetry; apply append_empty_r|].
      split; [apply within_between_0; auto | reflexivity]. }
    apply test_cons. destruct Hu as [-> | ->].
    + exists EmptyString, (String c t). split; [reflexivity|].
      split; [apply within_optional; left; reflexivity | exact Hrest].
    + exists "+", (String c t). split; [reflexivity|].
      split; [|exact Hrest].
      apply within_optional. right. eexists. split; reflexivity.
Qed.

Lemma not_space_at_space (c : Ascii.ascii) :
  not_space_at c = true -> is_space c = false.
Proof.
  unfold not_space_at. intros H%negb_true_iff.
  apply orb_false_iff in H. tauto.
Qed.

Lemma digit_not_space (c : Ascii.ascii) : is_digit c = true -> is_space c = false.
Proof.
  destruct c as [[] [] [] [] [] [] [] []]; try discriminate; reflexivity.
Qed.

Lemma blank_append (a b : string) : blank (a +:+ b) = blank a && blank b.
Proof.
  induction a as [|c a IH]; [reflexivity|].
  change (blank (String c (a +:+ b)) = blank (String c a) && blank b).
  cbn [blank]. rewrite IH, andb_assoc. reflexivity.
Qed.

Lemma email_shape_filled (s : string) : email_shape s -> filled s.
Proof.
  intros (a & b & c & -> & [Ha Hp] & _). unfold filled.
  rewrite blank_append. destruct a as [|x a]; [discriminate|].
  cbn [all] in Hp. apply andb_true_iff in Hp as [Hx _].
  cbn [blank]. rewrite (not_space_at_space x Hx). reflexivity.
Qed.

Lemma date_shape_filled (s : string) : date_shape s -> filled s.
Proof.
  intros (y & m & d & -> & [Hl Hy] & _). unfold filled.
  rewrite blank_append. destruct y as [|x y]; [discriminate|].
  cbn [all] in Hy. apply andb_true_iff in Hy as [Hx _].
  cbn [blank]. rewrite (digit_not_space x Hx). reflexivity.
Qed.

Lemma blank_no_digits (s : string) : blank s = true -> digits s = EmptyString.
Proof.
  induction s as [|c s IH]; [reflexivity|].
  cbn [blank digits]. intros [Hc Hs]%andb_true_iff.
  destruct (is_digit c) eqn:Hd; [|exact (IH Hs)].
  rewrite (digit_not_space c Hd) in Hc. discriminate.
Qed.

Lemma phone_shape_filled (s : string) : phone_shape s -> filled s.
Proof.
  intros (c & t & _ & Hd & _). unfold filled.
  destruct (blank s) eqn:Hb; [|reflexivity].
  rewrite (blank_no_digits s Hb) in Hd. discriminate.
Qed.

End RegistrationProperties.

Section RegistrationTheorems.
Import Text RegExp Registration.

(** The older registration screen accepts a form exactly when the user name,
    the password and the date of birth are filled in, the password is
    confirmed and has six characters or more, and the address reads
    [a@b.c] with [a], [b], [c] not empty and free of white space and at
    signs.  The date of birth may be any text. *)
Theorem validateForm_valid_iff (formData : PatientForm.PatientFormData) :
  PatientForm.validateForm formData = Valid <->
  filled (PatientForm.username formData) /\
  filled (PatientForm.password formData) /\
  filled (PatientForm.dateOfBirth formData) /\
  PatientForm.password formData = PatientForm.confirmPassword formData /\
  6 <= String.length (PatientForm.password formData) /\
  email_shape (PatientForm.email formData).
Proof.
  unfold PatientForm.validateForm, filled. rewrite !trim_empty. split.
  - destruct (blank (PatientForm.username formData)); [discriminate|].
    destruct (blank (PatientForm.email formData)); [discriminate|].
    destruct (blank (PatientForm.password formData)); [discriminate|].
    destruct (blank (PatientForm.dateOfBirth formData)); [discriminate|].
    cbn [orb].
    destruct (String.eqb_spec (PatientForm.password formData)
                (PatientForm.confirmPassword formData)) as [Heq|];
      [|discriminate].
    cbn [negb].
    destruct (Nat.ltb_spec (String.length (PatientForm.password formData)) 6);
      [discriminate|].
    destruct (test emailRegex (PatientForm.email formData)) eqn:He;
      [|discriminate].
    apply emailRegex_shape in He. intros _. repeat split; assumption.
  - intros (-> & Hp & -> & Heq & Hl & He).
    rewrite (email_shape_filled _ He), Hp. cbn [orb].
    rewrite (proj2 (String.eqb_eq _ _) Heq). cbn [negb].
    rewrite (proj2 (Nat.ltb_ge _ _) Hl).
    rewrite (proj2 (emailRegex_shape _) He). reflexivity.
Qed.

(** The patient form is accepted exactly when the user name and the
    password are filled in, the password is confirmed and has six
    characters or more, the address reads [a@b.c] and the date of birth is
    four digits, two digits and two digits joined by hyphens. *)
Theorem validatePatientForm_valid_iff
    (patientData : PatientForm.PatientFormData) :
  PatientForm.validatePatientForm patientData = Valid <->
  filled (PatientForm.username patientData) /\
  filled (PatientForm.password patientData) /\
  PatientForm.password patientData = PatientForm.confirmPassword patientData /\
  6 <= String.length (PatientForm.password patientData) /\
  email_shape (PatientForm.email patientData) /\
  date_shape (PatientForm.dateOfBirth patientData).
Proof.
  unfold PatientForm.validatePatientForm, filled. rewrite !trim_empty. split.
  - destruct (blank (PatientForm.username patientData)); [discriminate|].
    destruct (blank (PatientForm.email patientData)); [discriminate|].
    destruct (blank (PatientForm.password patientData)); [discriminate|].
    destruct (blank (PatientForm.dateOfBirth patientData)); [discriminate|].
    cbn [orb].
    destruct (String.eqb_spec (PatientForm.password patientData)
                (PatientForm.confirmPassword patientData)) as [Heq|];
      [|discriminate].
    cbn [negb].
    destruct (Nat.ltb_spec (String.length (PatientForm.password patientData)) 6);
      [discriminate|].
    destruct (test emailRegex (PatientForm.email patientData)) eqn:He;
      [|discriminate].
    destruct (test dateRegex (PatientForm.dateOfBirth patientData)) eqn:Hd;
      [|discriminate].
    apply emailRegex_shape in He. apply dateRegex_shape in Hd.
    intros _. repeat split; assumption.
  - intros (-> & Hp & Heq & Hl & He & Hd).
    rewrite (email_shape_filled _ He), Hp, (date_shape_filled _ Hd).
    cbn [orb].
    rewrite (proj2 (String.eqb_eq _ _) Heq). cbn [negb].
    rewrite (proj2 (Nat.ltb_ge _ _) Hl).
    rewrite (proj2 (emailRegex_shape _) He).
    rewrite (proj2 (dateRegex_shape _) Hd). reflexivity.
Qed.

(** The hospital form is accepted exactly when the user name, the password,
    the hospital's name and its address are filled in, the password is
    confirmed and has six characters or more, the address reads [a@b.c], and
    the phone number, its white space, hyphens and round brackets set aside,
    is an optional plus sign and one to sixteen digits of which the first is
    not 0; those are then all the digits of the number as typed. *)
Theorem validateHospitalForm_valid_iff
    (hospitalData : HospitalForm.HospitalFormData) :
  HospitalForm.validateHospitalForm hospitalData = Valid <->
  filled (HospitalForm.username hospitalData) /\
  filled (HospitalForm.password hospitalData) /\
  filled (HospitalForm.hospital_name hospitalData) /\
  filled (HospitalForm.address hospitalData) /\
  HospitalForm.password hospitalData =
    HospitalForm.confirmPassword hospitalData /\
  6 <= String.length (HospitalForm.password hospitalData) /\
  email_shape (HospitalForm.email hospitalData) /\
  phone_shape (HospitalForm.phone_number hospitalData).
Proof.
  unfold HospitalForm.validateHospitalForm, filled. rewrite !trim_empty.
  split.
  - destruct (blank (HospitalForm.username hospitalData)); [discriminate|].
    destruct (blank (HospitalForm.email hospitalData)); [discriminate|].
    destruct (blank (HospitalForm.password hospitalData)); [discriminate|].
    destruct (blank (HospitalForm.hospital_name hospitalData));
      [discriminate|].
    destruct (blank (HospitalForm.address hospitalData)); [discriminate|].
    destruct (blank (HospitalForm.phone_number hospitalData));
      [discriminate|].
    cbn [orb].
    destruct (String.eqb_spec (HospitalForm.password hospitalData)
                (HospitalForm.confirmPassword hospitalData)) as [Heq|];
      [|discriminate].
    cbn [negb].
    destruct (Nat.ltb_spec
                (String.length (HospitalForm.password hospitalData)) 6);
      [discriminate|].
    destruct (test emailRegex (HospitalForm.email hospitalData)) eqn:He;
      [|discriminate].
    destruct (test phoneRegex
                (remove is_separator (HospitalForm.phone_number hospitalData)))
      eqn:Hd; [|discriminate].
    apply emailRegex_shape in He. apply phoneRegex_shape in Hd.
    intros _. repeat split; assumption.
  - intros (-> & Hp & -> & -> & Heq & Hl & He & Hd).
    rewrite (email_shape_filled _ He), Hp, (phone_shape_filled _ Hd).
    cbn [orb].
    rewrite (proj2 (String.eqb_eq _ _) Heq). cbn [negb].
    rewrite (proj2 (Nat.ltb_ge _ _) Hl).
    rewrite (proj2 (emailRegex_shape _) He).
    rewrite (proj2 (phoneRegex_shape _) Hd). reflexivity.
Qed.

End RegistrationTheorems.
